(** * tscripter: the CodeNode model and the source analyzer

    A shallow embedding of [lib/statements.ts] (the [CodeNode] class
    hierarchy, its render cache and its block contract) and of the analyzer
    ([AnalyzerHost], [SourceAnalyzer]) that fills blocks from a TypeScript
    parse tree.

    JavaScript objects are references: every [CodeNode] instance lives in a
    store and is named by its index there.  Methods that mutate ([toString]
    caches, [markDirty] clears, the analyzer pushes elements) are functions
    on that store, and an exception leaves the store as it was when the
    exception was raised. *)

From Stdlib Require Import String Ascii ZArith List Bool Lia.
From stdpp Require Import base list gmap strings.

Local Open Scope string_scope.
Local Open Scope list_scope.

(* ===================================================================== *)
(** ** The class hierarchy *)
(* ===================================================================== *)

(** Every class declared in [statements.ts], in declaration order. *)
Inductive Class : Set :=
  | CodeNode | AbstractBlock | AbstractStatementBlock | CodeBlock
  | AbstractExpressionBlock | SimpleNode | Keyword | EmptyExpression
  | Source | Module | InternalModuleImport | RequireImport | QualifiedName
  | KeywordType | QualifiedTypeName | ArrayType | UnionType
  | ParenthesizedType | TupleType | TypeAlias | EnumEntry | Enumeration
  | TypeParameter | TypeLiteral | Interface | AbstractCallableSignature
  | CallableSignature | CallableType | Function | Lambda | Property
  | ExportAssignment | Index | Class_ | Trivia | NamedImportOrExports
  | NamespaceBinding | ES6Import | ExportDeclaration | SimpleImport
  | AtomicValue | RegexLiteral | ArrayLiteral | Identifier | Parenthetical
  | TemplateLiteralPiece | TemplatePattern | TaggedTemplate | UnaryOperation
  | Return | Throw | BinaryOperation | PropertyAccess | TernaryOperation
  | Call | ObjectLiteralProperty | ElementAccess | InstanceOf | New | Delete
  | TypeOf | ObjectLiteral | Spread | KeywordOperator | Break | Continue
  | Void | TypeAssertion | LabeledStatement | ComputedDeclarationName
  | ArrayBinding | BindingElement | ObjectBinding | VariableDeclaration
  | If | Loop | Try | ForInOf | For | With | Case | Switch.

Definition Class_eqb (a b : Class) : bool :=
  match a, b with
  | CodeNode, CodeNode | AbstractBlock, AbstractBlock
  | AbstractStatementBlock, AbstractStatementBlock | CodeBlock, CodeBlock
  | AbstractExpressionBlock, AbstractExpressionBlock
  | SimpleNode, SimpleNode | Keyword, Keyword
  | EmptyExpression, EmptyExpression | Source, Source | Module, Module
  | InternalModuleImport, InternalModuleImport
  | RequireImport, RequireImport | QualifiedName, QualifiedName
  | KeywordType, KeywordType | QualifiedTypeName, QualifiedTypeName
  | ArrayType, ArrayType | UnionType, UnionType
  | ParenthesizedType, ParenthesizedType | TupleType, TupleType
  | TypeAlias, TypeAlias | EnumEntry, EnumEntry | Enumeration, Enumeration
  | TypeParameter, TypeParameter | TypeLiteral, TypeLiteral
  | Interface, Interface
  | AbstractCallableSignature, AbstractCallableSignature
  | CallableSignature, CallableSignature | CallableType, CallableType
  | Function, Function | Lambda, Lambda | Property, Property
  | ExportAssignment, ExportAssignment | Index, Index | Class_, Class_
  | Trivia, Trivia | NamedImportOrExports, NamedImportOrExports
  | NamespaceBinding, NamespaceBinding | ES6Import, ES6Import
  | ExportDeclaration, ExportDeclaration | SimpleImport, SimpleImport
  | AtomicValue, AtomicValue | RegexLiteral, RegexLiteral
  | ArrayLiteral, ArrayLiteral | Identifier, Identifier
  | Parenthetical, Parenthetical
  | TemplateLiteralPiece, TemplateLiteralPiece
  | TemplatePattern, TemplatePattern | TaggedTemplate, TaggedTemplate
  | UnaryOperation, UnaryOperation | Return, Return | Throw, Throw
  | BinaryOperation, BinaryOperation | PropertyAccess, PropertyAccess
  | TernaryOperation, TernaryOperation | Call, Call
  | ObjectLiteralProperty, ObjectLiteralProperty
  | ElementAccess, ElementAccess | InstanceOf, InstanceOf | New, New
  | Delete, Delete | TypeOf, TypeOf | ObjectLiteral, ObjectLiteral
  | Spread, Spread | KeywordOperator, KeywordOperator | Break, Break
  | Continue, Continue | Void, Void | TypeAssertion, TypeAssertion
  | LabeledStatement, LabeledStatement
  | ComputedDeclarationName, ComputedDeclarationName
  | ArrayBinding, ArrayBinding | BindingElement, BindingElement
  | ObjectBinding, ObjectBinding
  | VariableDeclaration, VariableDeclaration | If, If | Loop, Loop
  | Try, Try | ForInOf, ForInOf | For, For | With, With | Case, Case
  | Switch, Switch => true
  | _, _ => false
  end.

(** The [extends] clause of each class; [CodeNode] is the root. *)
Definition extends (c : Class) : option Class :=
  match c with
  | CodeNode => None
  | AbstractBlock => Some CodeNode
  | AbstractStatementBlock => Some AbstractBlock
  | CodeBlock => Some AbstractStatementBlock
  | AbstractExpressionBlock => Some AbstractBlock
  | SimpleNode => Some CodeNode
  | Keyword | EmptyExpression | KeywordType | Trivia | AtomicValue
  | Identifier => Some SimpleNode
  | Source | Case => Some AbstractStatementBlock
  | Module | TypeLiteral | Interface | Function | Lambda | Class_
  | Switch => Some CodeBlock
  | Enumeration | ArrayLiteral | ObjectLiteral
  | VariableDeclaration => Some AbstractExpressionBlock
  | CallableSignature | CallableType => Some AbstractCallableSignature
  | Return | Throw | Delete | TypeOf | Spread => Some UnaryOperation
  | InstanceOf => Some BinaryOperation
  | Break | Continue | Void => Some KeywordOperator
  | _ => Some CodeNode
  end.

(** The inheritance chain is at most five classes long
    (e.g. [Module < CodeBlock < AbstractStatementBlock < AbstractBlock <
    CodeNode]); [depth] is the fuel for walking it. *)
Definition depth : nat := 5.

(** [a instanceof b]: [b] is [a]'s class or one of its ancestors. *)
Fixpoint instanceOf_fuel (n : nat) (a b : Class) : bool :=
  Class_eqb a b ||
  match n with
  | O => false
  | S n' => match extends a with
            | Some p => instanceOf_fuel n' p b
            | None => false
            end
  end.

Definition instanceOf (a b : Class) : bool := instanceOf_fuel depth a b.

(** Which classes declare a method of their own. *)
Definition declaresBuildString (c : Class) : bool :=
  match c with
  | Keyword | EmptyExpression | KeywordType | TypeParameter | TypeLiteral
  | CallableSignature | CallableType | Trivia | AtomicValue | Identifier
  | Return | Throw | InstanceOf | Delete | TypeOf | Spread | Break
  | Continue | Void => false
  | _ => true
  end.

Definition declaresToString (c : Class) : bool :=
  match c with
  | CodeNode | TypeParameter => true
  | _ => false
  end.

Definition declaresStatementLevelTerminal (c : Class) : bool :=
  match c with
  | CodeNode | AbstractBlock | Function | Lambda | Trivia
  | VariableDeclaration | If | Loop | Try | ForInOf | For | With => true
  | _ => false
  end.

(** Method resolution along the prototype chain: the nearest class, from
    [c] upwards, that declares the method. *)
Fixpoint resolve_fuel (declares : Class -> bool) (n : nat) (c : Class) : Class :=
  if declares c then c
  else match n with
       | O => CodeNode
       | S n' => match extends c with
                 | Some p => resolve_fuel declares n' p
                 | None => CodeNode
                 end
       end.

Definition resolve (declares : Class -> bool) (c : Class) : Class :=
  resolve_fuel declares depth c.

(* ===================================================================== *)
(** ** JavaScript strings *)
(* ===================================================================== *)

(** [s[s.length - 1]]: the last character, [None] (undefined) when [s] is
    empty. *)
Fixpoint lastChar (s : string) : option ascii :=
  match s with
  | EmptyString => None
  | String c EmptyString => Some c
  | String _ rest => lastChar rest
  end.

(** [s.substr(0, s.length - 1)]. *)
Fixpoint dropLast (s : string) : string :=
  match s with
  | EmptyString => EmptyString
  | String _ EmptyString => EmptyString
  | String c rest => String c (dropLast rest)
  end.

(** [s.substr(0, n)] and [s.substring(0, n)] for a number [n]: at most [n]
    characters from the start, none when [n <= 0]. *)
Fixpoint take_chars (n : nat) (s : string) : string :=
  match n, s with
  | S n', String c rest => String c (take_chars n' rest)
  | _, _ => EmptyString
  end.

Definition substr0 (s : string) (n : Z) : string := take_chars (Z.to_nat n) s.

(** [parts.join("")]. *)
Definition join (parts : list string) : string :=
  fold_right String.append EmptyString parts.

Definition newline : ascii := "010"%char.
Definition semicolon : ascii := ";"%char.

Definition endsWith (c : ascii) (s : string) : bool :=
  match lastChar s with
  | Some d => Ascii.eqb d c
  | None => false
  end.

(* ===================================================================== *)
(** ** The external parse tree ([ts.Node]) *)
(* ===================================================================== *)

(** The syntax kinds the two statement-level dispatchers switch on; every
    other value of [ts.SyntaxKind] is [OtherKind] with its number. *)
Inductive SyntaxKind : Set :=
  | ClassDeclaration | ImportEqualsDeclaration | ModuleDeclaration
  | EnumDeclaration | TypeAliasDeclaration | InterfaceDeclaration
  | ImportDeclaration
  | LabeledStatementKind | ExportDeclarationKind | ExportAssignmentKind
  | SwitchStatement | WithStatement | ForOfStatement | ForInStatement
  | ForStatement | TryStatement | ThrowStatement | ReturnStatement
  | BreakStatement | ContinueStatement | DebuggerStatement | BlockKind
  | DoStatement | WhileStatement | IfStatement | EmptyStatement
  | ExpressionStatement | VariableStatement | FunctionDeclaration
  | OtherKind (code : Z).

(** A token, as returned by [getLastToken] or held in [endOfFileToken]. *)
Record TsToken : Set := mkToken {
  tok_id : nat;                     (* object identity *)
  tok_getFullText : string;
  tok_getLeadingTriviaWidth : Z
}.

(** One element of the parse tree, with the accessors the analyzer calls. *)
Record TsNode : Set := mkTsNode {
  ts_id : nat;                      (* object identity *)
  kind : SyntaxKind;
  getText : string;                 (* without leading trivia *)
  getFullText : string;             (* with leading trivia *)
  getStart : Z;
  getFullStart : Z;
  getLastToken : option TsToken
}.

(** A [ts.SourceFile]. *)
Record SourceFile : Set := mkSourceFile {
  sf_id : nat;
  sf_fileName : string;
  sf_getFullText : string;
  statements : list TsNode;
  endOfFileToken : option TsToken
}.

(** What a [CodeNode]'s [node] property may hold. *)
Inductive Origin : Set :=
  | OfNode (n : TsNode)
  | OfFile (f : SourceFile).

Definition origin_id (o : Origin) : nat :=
  match o with
  | OfNode n => ts_id n
  | OfFile f => sf_id f
  end.

(* ===================================================================== *)
(** ** Objects and the store *)
(* ===================================================================== *)

Abbreviation Ref := nat.

(** A [CodeNode] instance.  One record carries the properties that the
    embedded methods read; a property a class does not have keeps its
    default.  [fields] holds the class's own child-valued properties, in
    the order in which its [buildChildren] concatenates them after
    [super.buildChildren()], [None] for a null child. *)
Record Obj : Set := mkObj {
  constructor : Class;
  node : option Origin;
  text : option string;
  bodyHasBeenAnalyzed : bool;       (* AbstractBlock *)
  elements : list Ref;              (* AbstractBlock *)
  token : string;                   (* SimpleNode *)
  fileName : string;                (* Source *)
  declaredOnly : bool;              (* Function *)
  isSingleExpression : bool;        (* Lambda *)
  name : string;                    (* TypeParameter *)
  fields : list (option Ref)
}.

Abbreviation Store := (list Obj).

(** A freshly constructed instance of [c]: no origin, no cached text, an
    unanalyzed empty body. *)
Definition new (c : Class) : Obj :=
  {| constructor := c; node := None; text := None;
     bodyHasBeenAnalyzed := false; elements := [];
     token := ""; fileName := ""; declaredOnly := false;
     isSingleExpression := false; name := ""; fields := [] |}.

Definition with_text (t : option string) (o : Obj) : Obj :=
  {| constructor := constructor o; node := node o; text := t;
     bodyHasBeenAnalyzed := bodyHasBeenAnalyzed o; elements := elements o;
     token := token o; fileName := fileName o;
     declaredOnly := declaredOnly o;
     isSingleExpression := isSingleExpression o; name := name o;
     fields := fields o |}.

Definition with_node (n : option Origin) (o : Obj) : Obj :=
  {| constructor := constructor o; node := n; text := text o;
     bodyHasBeenAnalyzed := bodyHasBeenAnalyzed o; elements := elements o;
     token := token o; fileName := fileName o;
     declaredOnly := declaredOnly o;
     isSingleExpression := isSingleExpression o; name := name o;
     fields := fields o |}.

Definition with_elements (es : list Ref) (o : Obj) : Obj :=
  {| constructor := constructor o; node := node o; text := text o;
     bodyHasBeenAnalyzed := bodyHasBeenAnalyzed o; elements := es;
     token := token o; fileName := fileName o;
     declaredOnly := declaredOnly o;
     isSingleExpression := isSingleExpression o; name := name o;
     fields := fields o |}.

Definition with_bodyHasBeenAnalyzed (b : bool) (o : Obj) : Obj :=
  {| constructor := constructor o; node := node o; text := text o;
     bodyHasBeenAnalyzed := b; elements := elements o;
     token := token o; fileName := fileName o;
     declaredOnly := declaredOnly o;
     isSingleExpression := isSingleExpression o; name := name o;
     fields := fields o |}.

Definition with_token (t : string) (o : Obj) : Obj :=
  {| constructor := constructor o; node := node o; text := text o;
     bodyHasBeenAnalyzed := bodyHasBeenAnalyzed o; elements := elements o;
     token := t; fileName := fileName o;
     declaredOnly := declaredOnly o;
     isSingleExpression := isSingleExpression o; name := name o;
     fields := fields o |}.

Definition with_fileName (f : string) (o : Obj) : Obj :=
  {| constructor := constructor o; node := node o; text := text o;
     bodyHasBeenAnalyzed := bodyHasBeenAnalyzed o; elements := elements o;
     token := token o; fileName := f;
     declaredOnly := declaredOnly o;
     isSingleExpression := isSingleExpression o; name := name o;
     fields := fields o |}.

Definition with_name (n : string) (o : Obj) : Obj :=
  {| constructor := constructor o; node := node o; text := text o;
     bodyHasBeenAnalyzed := bodyHasBeenAnalyzed o; elements := elements o;
     token := token o; fileName := fileName o;
     declaredOnly := declaredOnly o;
     isSingleExpression := isSingleExpression o; name := n;
     fields := fields o |}.

Definition with_fields (fs : list (option Ref)) (o : Obj) : Obj :=
  {| constructor := constructor o; node := node o; text := text o;
     bodyHasBeenAnalyzed := bodyHasBeenAnalyzed o; elements := elements o;
     token := token o; fileName := fileName o;
     declaredOnly := declaredOnly o;
     isSingleExpression := isSingleExpression o; name := name o;
     fields := fs |}.

Definition with_declaredOnly (b : bool) (o : Obj) : Obj :=
  {| constructor := constructor o; node := node o; text := text o;
     bodyHasBeenAnalyzed := bodyHasBeenAnalyzed o; elements := elements o;
     token := token o; fileName := fileName o;
     declaredOnly := b;
     isSingleExpression := isSingleExpression o; name := name o;
     fields := fields o |}.

Definition with_isSingleExpression (b : bool) (o : Obj) : Obj :=
  {| constructor := constructor o; node := node o; text := text o;
     bodyHasBeenAnalyzed := bodyHasBeenAnalyzed o; elements := elements o;
     token := token o; fileName := fileName o;
     declaredOnly := declaredOnly o;
     isSingleExpression := b; name := name o;
     fields := fields o |}.

(** ** Outcomes: a value, a thrown [Error], or no answer within the fuel *)

Inductive Error : Set :=
  | NoTextFound                     (* CodeNode.buildString *)
  | BlockIsAbstract                 (* AbstractBlock.buildString *)
  | CouldNotAnalyze (type : string) (found : string) (k : SyntaxKind)
                                    (* SourceAnalyzer.failAnalysis *)
  | NullSourcePassed                (* AnalyzerHost.getAnalyzer *)
  | SourceNotFound (path : string)  (* AnalyzerHost.getAnalyzer *)
  | TypeError                       (* a property read on null/undefined *)
  | OtherError (message : string).

Inductive outcome (A : Type) : Type :=
  | Ok (a : A)
  | Raise (e : Error)
  | Diverge.
Arguments Ok {A} a.
Arguments Raise {A} e.
Arguments Diverge {A}.

(** A computation on the store.  The store is returned in every case: a
    thrown exception does not undo the writes made before it. *)
Definition M (A : Type) : Type := Store -> outcome A * Store.

Definition ret {A} (a : A) : M A := fun st => (Ok a, st).
Definition raise {A} (e : Error) : M A := fun st => (Raise e, st).
Definition diverge {A} : M A := fun st => (Diverge, st).

Definition bind {A B} (m : M A) (k : A -> M B) : M B :=
  fun st =>
    match m st with
    | (Ok a, st') => k a st'
    | (Raise e, st') => (Raise e, st')
    | (Diverge, st') => (Diverge, st')
    end.

Notation "x <- m ;; k" := (bind m (fun x => k))
  (at level 100, m at next level, right associativity).
Notation "m ;;; k" := (bind m (fun _ => k))
  (at level 100, right associativity).

(** Reading a property of the object at [r]; a dangling reference behaves
    like a read on [undefined]. *)
Definition get (r : Ref) : M Obj :=
  fun st => match st !! r with
            | Some o => (Ok o, st)
            | None => (Raise TypeError, st)
            end.

(** Writing properties of the object at [r]. *)
Definition modify (r : Ref) (f : Obj -> Obj) : M unit :=
  fun st => match st !! r with
            | Some o => (Ok tt, <[r := f o]> st)
            | None => (Raise TypeError, st)
            end.

(** [new C(...)]: the new object takes the next free index. *)
Definition alloc (o : Obj) : M Ref :=
  fun st => (Ok (length st), st ++ [o]).

(** Monadic [Array.prototype.map]/[forEach] over a snapshot of the array. *)
Fixpoint mapM {A B} (f : A -> M B) (l : list A) : M (list B) :=
  match l with
  | [] => ret []
  | x :: rest => y <- f x ;; ys <- mapM f rest ;; ret (y :: ys)
  end.

(* ===================================================================== *)
(** ** [CodeNode]: accessors, children, traversal, invalidation *)
(* ===================================================================== *)

(** [setText(text)] and [registerWithNode(node)]; both return [this]. *)
Definition setText (this : Ref) (t : string) : M Ref :=
  modify this (with_text (Some t)) ;;; ret this.

Definition registerWithNode (this : Ref) (n : Origin) : M Ref :=
  modify this (with_node (Some n)) ;;; ret this.

(** The [i]-th child-valued property of the object, [None] when null. *)
Definition field (i : nat) (o : Obj) : option Ref :=
  match fields o !! i with
  | Some (Some r) => Some r
  | _ => None
  end.

(** [buildChildren()].  [CodeNode] returns [[]], [AbstractBlock] returns a
    copy of [elements], and every other class that declares the method
    returns [super.buildChildren().concat(...)] of its own child
    properties. *)
Definition buildChildren (o : Obj) : list (option Ref) :=
  (if instanceOf (constructor o) AbstractBlock
   then map Some (elements o) else [])
  ++ fields o.

(** [getChildren()]: [buildChildren()] without the nulls. *)
Definition getChildren (this : Ref) : M (list Ref) :=
  o <- get this ;; ret (omap id (buildChildren o)).

(** The [while (queue.length)] loop of [findChild].  The queue only ever
    receives results of [getChildren] or [this], so the source's
    [if (next == null) continue] never fires and the queue holds
    references. *)
Fixpoint findChild_loop (fuel : nat) (predicateF : Ref -> M bool)
    (queue : list Ref) : M (option Ref) :=
  match fuel with
  | O => diverge
  | S fuel' =>
    match queue with
    | [] => ret None
    | next :: queue' =>
      found <- predicateF next ;;
      if (found : bool) then ret (Some next)
      else cs <- getChildren next ;;
           findChild_loop fuel' predicateF (queue' ++ cs)
    end
  end.

Definition findChild (fuel : nat) (predicateF : Ref -> M bool)
    (includeSelf : bool) (this : Ref) : M (option Ref) :=
  queue <- (if includeSelf then ret [this] else getChildren this) ;;
  findChild_loop fuel predicateF queue.

Definition walkChildren (fuel : nat) (walker : Ref -> M unit)
    (includeSelf : bool) (this : Ref) : M unit :=
  findChild fuel (fun n => walker n ;;; ret false) includeSelf this ;;;
  ret tt.

(** [markDirty()] with its default argument, which is also what the
    recursive walk calls on each descendant. *)
Definition markDirty_default (this : Ref) : M Ref :=
  o <- get this ;;
  if Class_eqb (constructor o) CodeNode then ret this
  else modify this (with_text None) ;;; ret this.

Definition markDirty (fuel : nat) (recursive : bool) (this : Ref) : M Ref :=
  o <- get this ;;
  if Class_eqb (constructor o) CodeNode then ret this
  else
    modify this (with_text None) ;;;
    (if recursive
     then walkChildren fuel (fun c => markDirty_default c ;;; ret tt)
                       false this
     else ret tt) ;;;
    ret this.

(** [statementLevelTerminal()], dispatched on the class that declares the
    method the object inherits.  [If] asks one of its branches
    ([fields = [conditional; thenCode; elseCode]]) and [ForInOf] looks at
    the class of its body ([fields = [initializer; container; body]]). *)
Fixpoint statementLevelTerminal (fuel : nat) (this : Ref) : M string :=
  match fuel with
  | O => diverge
  | S fuel' =>
    o <- get this ;;
    match resolve declaresStatementLevelTerminal (constructor o) with
    | AbstractBlock => ret ""
    | Function => ret (if declaredOnly o then ";" else "")
    | Lambda => ret (if isSingleExpression o then ";" else "")
    | Trivia => ret ""
    | VariableDeclaration => ret ";"
    | If =>
      match field 2 o, field 1 o with
      | Some elseCode, _ => statementLevelTerminal fuel' elseCode
      | None, Some thenCode => statementLevelTerminal fuel' thenCode
      | None, None => raise TypeError
      end
    | Loop | Try | For | With => ret ""
    | ForInOf =>
      match field 2 o with
      | Some body =>
        b <- get body ;;
        ret (if instanceOf (constructor b) CodeBlock then "" else ";")
      | None => ret ";"
      end
    | _ => ret ";"                  (* CodeNode.statementLevelTerminal *)
    end
  end.

(* ===================================================================== *)
(** ** Rendering: [toString] and the [buildString] composition rules *)
(* ===================================================================== *)

(** *** The string assembly of [AbstractExpressionBlock.buildString]

    [rs] pairs each element's rendering with whether the element is *not*
    an instance of [Trivia].  The [map] callback appends a comma to every
    non-trivia rendering and records the index of the last one; afterwards
    the last character of that part is cut off. *)
Definition markParts (rs : list (bool * string)) : list string :=
  map (fun r : bool * string => if fst r then snd r +:+ "," else snd r) rs.

Fixpoint lastNoSpaceIdx (rs : list (bool * string)) (i : nat)
    (acc : option nat) : option nat :=
  match rs with
  | [] => acc
  | r :: rest => lastNoSpaceIdx rest (S i) (if fst r then Some i else acc)
  end.

Definition expressionJoin (rs : list (bool * string)) : string :=
  let parts := markParts rs in
  match lastNoSpaceIdx rs 0 None with
  | Some k =>
    match parts !! k with
    | Some text => join (<[k := dropLast text]> parts)
    | None => join parts
    end
  | None => join parts
  end.

(** [Source.buildString]'s trailing-newline step. *)
Definition withTrailingNewline (result : string) : string :=
  if endsWith newline result then result else result +:+ String newline "".

Section Render.

(** The composition rules of the variants that are not spelled out below
    (declarations, expressions, types, bindings, control statements).
    A rule gets the renderer for its children and the object, and runs on
    the store like every other method. *)
Variable compositionRule : Class -> (Ref -> M string) -> Ref -> M string.

Section Rules.
(** [render] is [toString] and [terminal] is [statementLevelTerminal],
    as called on the children. *)
Variable render : Ref -> M string.
Variable terminal : Ref -> M string.

Definition AbstractStatementBlock_buildString (this : Ref) : M string :=
  o <- get this ;;
  parts <- mapM (fun s => a <- render s ;;
                          b <- terminal s ;;
                          ret (a +:+ b)) (elements o) ;;
  ret (join parts).

Definition CodeBlock_buildString (this : Ref) : M string :=
  body <- AbstractStatementBlock_buildString this ;;
  ret ("{" +:+ body +:+ "}").

(** The [map] callback of [AbstractExpressionBlock.buildString] up to the
    comma: whether [v] is not a [Trivia], and [v]'s rendering. *)
Definition renderElement (v : Ref) : M (bool * string) :=
  vo <- get v ;;
  s <- render v ;;
  ret (negb (instanceOf (constructor vo) Trivia), s).

Definition AbstractExpressionBlock_buildString (this : Ref) : M string :=
  o <- get this ;;
  rs <- mapM renderElement (elements o) ;;
  ret (expressionJoin rs).

Definition SimpleNode_buildString (this : Ref) : M string :=
  o <- get this ;; ret (token o).

Definition Source_buildString (this : Ref) : M string :=
  result <- AbstractStatementBlock_buildString this ;;
  ret (withTrailingNewline result).

Definition ArrayLiteral_buildString (this : Ref) : M string :=
  body <- AbstractExpressionBlock_buildString this ;;
  ret ("[" +:+ body +:+ "]").

Definition ObjectLiteral_buildString (this : Ref) : M string :=
  body <- AbstractExpressionBlock_buildString this ;;
  ret ("{" +:+ body +:+ "}").

(** [this.buildString()], resolved along the prototype chain. *)
Definition buildString (this : Ref) : M string :=
  o <- get this ;;
  match resolve declaresBuildString (constructor o) with
  | CodeNode => raise NoTextFound
  | AbstractBlock => raise BlockIsAbstract
  | AbstractStatementBlock => AbstractStatementBlock_buildString this
  | CodeBlock => CodeBlock_buildString this
  | AbstractExpressionBlock => AbstractExpressionBlock_buildString this
  | SimpleNode => SimpleNode_buildString this
  | Source => Source_buildString this
  | ArrayLiteral => ArrayLiteral_buildString this
  | ObjectLiteral => ObjectLiteral_buildString this
  | c => compositionRule c render this
  end.

(** [CodeNode.toString]:
    [this.text == null ? (this.text = this.buildString()) : this.text]. *)
Definition CodeNode_toString (this : Ref) : M string :=
  o <- get this ;;
  match text o with
  | Some t => ret t
  | None =>
    s <- buildString this ;;
    modify this (with_text (Some s)) ;;;
    ret s
  end.

(** [TypeParameter.toString] ([fields = [typeConstraint]]): it neither
    reads nor fills the cache. *)
Definition TypeParameter_toString (this : Ref) : M string :=
  o <- get this ;;
  match field 0 o with
  | Some typeConstraint =>
    s <- render typeConstraint ;;
    ret (name o +:+ " extends " +:+ s)
  | None => ret (name o)
  end.
End Rules.

(** [this.toString()]. *)
Fixpoint toString (fuel : nat) (this : Ref) : M string :=
  match fuel with
  | O => diverge
  | S fuel' =>
    o <- get this ;;
    match resolve declaresToString (constructor o) with
    | TypeParameter => TypeParameter_toString (toString fuel') this
    | _ => CodeNode_toString (toString fuel')
                             (statementLevelTerminal fuel') this
    end
  end.

End Render.

(* ===================================================================== *)
(** ** [AbstractBlock]: the lazy-analysis contract *)
(* ===================================================================== *)

(** [!this.bodyHasBeenAnalyzed && this.elements.length == 0]. *)
Definition canAnalyzeBody (o : Obj) : bool :=
  negb (bodyHasBeenAnalyzed o) && (length (elements o) =? 0)%nat.

Definition resetBody (this : Ref) : M unit :=
  modify this (with_elements []) ;;;
  modify this (with_bodyHasBeenAnalyzed false).

(** [block.elements.push(x)]. *)
Definition push (block : Ref) (x : Ref) : M unit :=
  modify block (fun o => with_elements (elements o ++ [x]) o).

(* ===================================================================== *)
(** ** [SourceAnalyzer] *)
(* ===================================================================== *)

(** [try { m } catch (err) { handler(err) }]. *)
Definition try_catch {A} (m : M A) (handler : Error -> M A) : M A :=
  fun st =>
    match m st with
    | (Raise err, st') => handler err st'
    | other => other
    end.

Fixpoint forEach {A} (f : A -> M unit) (l : list A) : M unit :=
  match l with
  | [] => ret tt
  | x :: rest => f x ;;; forEach f rest
  end.

Definition failAnalysis {A} (n : TsNode) (type : string) : M A :=
  raise (CouldNotAnalyze type (getText n) (kind n)).

(** A [SourceAnalyzer] instance: its [source], [sourceFile] and
    [recursive] properties (the host is not read by the methods below). *)
Record SourceAnalyzer : Set := mkSourceAnalyzer {
  source : Ref;
  sourceFile : SourceFile;
  recursive : bool
}.

Section Analyzer.

(** The module-level variable [strictMode]. *)
Variable strictMode : bool.

(** The construction rules behind the [case] labels of the two
    dispatchers ([analyzeClassDeclaration], [analyzeExpression],
    [analyzeFunction], ...): given the analyzer's [recursive] flag and
    the parse element, a rule builds new nodes in the store and returns
    the top one, or throws. *)
Variable rule : bool -> TsNode -> M Ref.

Definition addSpacingAndGetExpressionText (n : TsNode) (block : Ref)
    : M string :=
  let fullText := getFullText n in
  let filler := substr0 fullText (getStart n - getFullStart n) in
  (if (0 <? String.length filler)%nat
   then t <- alloc (with_token filler (new Trivia)) ;; push block t
   else ret tt) ;;;
  let shortText := getText n in
  ret (if endsWith semicolon shortText then dropLast shortText
       else shortText).

Definition addToBlock (statement : Ref) (block : Ref) (element : TsNode)
    : M unit :=
  expressionText <- addSpacingAndGetExpressionText element block ;;
  setText statement expressionText ;;;
  push block statement.

(** [blockNode.getLastToken(...)] / [block.sourceNode.endOfFileToken]:
    reading through an unset [node] is a read on [undefined]. *)
Definition lastTokenOf (o : Obj) (blockNode : option Origin)
    : M (option TsToken) :=
  if instanceOf (constructor o) Source then
    match node o with
    | Some (OfFile f) => ret (endOfFileToken f)
    | Some (OfNode _) => ret None
    | None => raise TypeError
    end
  else
    match blockNode with
    | Some (OfNode n) => ret (getLastToken n)
    | Some (OfFile f) => ret (endOfFileToken f)
    | None => raise TypeError
    end.

(** [lastToken == block.elements[block.elements.length - 1].node],
    an identity comparison of parse-tree objects. *)
Definition isNodeOfLastElement (lastToken : TsToken) (o : Obj) : M bool :=
  match last (elements o) with
  | None => ret false
  | Some e =>
    eo <- get e ;;
    ret (match node eo with
         | Some og => (tok_id lastToken =? origin_id og)%nat
         | None => false
         end)
  end.

Definition addTrailingBlockSpacing (block : Ref)
    (blockNode : option Origin) : M unit :=
  o <- get block ;;
  lastToken <- lastTokenOf o blockNode ;;
  match lastToken with
  | None => ret tt
  | Some lastToken =>
    same <- isNodeOfLastElement lastToken o ;;
    if (same : bool) then ret tt
    else
      let trailing := substr0 (tok_getFullText lastToken)
                              (tok_getLeadingTriviaWidth lastToken) in
      if (0 <? String.length trailing)%nat
      then t <- alloc (with_token trailing (new Trivia)) ;; push block t
      else ret tt
  end.

(** The lenient-mode fallback of [performBlockAnalysis]. *)
Definition fallbackNode (e : TsNode) : M Ref :=
  codeNode <- alloc (new CodeNode) ;;
  registerWithNode codeNode (OfNode e) ;;;
  setText codeNode (getText e) ;;;
  ret codeNode.

(** The callback of [elements.forEach] in [performBlockAnalysis]. *)
Definition analyzeElement (block : Ref) (elementAnalyzer : TsNode -> M Ref)
    (e : TsNode) : M unit :=
  codeNode <- try_catch (elementAnalyzer e)
                (fun err => if strictMode then raise err
                            else fallbackNode e) ;;
  addToBlock codeNode block e.

Definition performBlockAnalysis (block : Ref) (elems : list TsNode)
    (elementAnalyzer : TsNode -> M Ref) (ignoreTrailing : bool) : M Ref :=
  o <- get block ;;
  if negb (canAnalyzeBody o) then ret block
  else
    forEach (analyzeElement block elementAnalyzer) elems ;;;
    (if negb ignoreTrailing
     then b <- get block ;; addTrailingBlockSpacing block (node b)
     else ret tt) ;;;
    modify block (with_bodyHasBeenAnalyzed true) ;;;
    ret block.

(** [analyzeStatement]: two of its cases are spelled out, the others go
    through [rule]; a kind without a [case] reaches [default]. *)
Definition analyzeStatement (rec : bool) (statement : TsNode) : M Ref :=
  match kind statement with
  | DebuggerStatement =>
    result <- alloc (with_token "debugger" (new Keyword)) ;;
    registerWithNode result (OfNode statement) ;;;
    setText result (getText statement)
  | EmptyStatement =>
    result <- alloc (with_token "" (new EmptyExpression)) ;;
    registerWithNode result (OfNode statement) ;;;
    setText result (getText statement)
  | LabeledStatementKind | ExportDeclarationKind | ExportAssignmentKind
  | SwitchStatement | WithStatement | ForOfStatement | ForInStatement
  | ForStatement | TryStatement | ThrowStatement | ReturnStatement
  | BreakStatement | ContinueStatement | BlockKind | DoStatement
  | WhileStatement | IfStatement | ExpressionStatement
  | VariableStatement | FunctionDeclaration => rule rec statement
  | _ => failAnalysis statement "statement"
  end.

Definition analyzeModuleElement (rec : bool) (moduleElement : TsNode)
    : M Ref :=
  match kind moduleElement with
  | ClassDeclaration | ImportEqualsDeclaration | ModuleDeclaration
  | EnumDeclaration | TypeAliasDeclaration | InterfaceDeclaration
  | ImportDeclaration => rule rec moduleElement
  | _ => analyzeStatement rec moduleElement
  end.

(** [SourceAnalyzer.analyze()]. *)
Definition SourceAnalyzer_analyze (this : SourceAnalyzer) : M Ref :=
  registerWithNode (source this) (OfFile (sourceFile this)) ;;;
  setText (source this) (sf_getFullText (sourceFile this)) ;;;
  performBlockAnalysis (source this) (statements (sourceFile this))
                       (analyzeModuleElement (recursive this)) false.

(* =================================================================== *)
(** ** [AnalyzerHost] *)
(* =================================================================== *)

(** [program.getSourceFile] and [path.normalize], on strings. *)
Variable getSourceFile : string -> option SourceFile.
Variable normalize : string -> string.

(** [program.getSourceFile(undefined)], which [getAnalyzer] calls when the
    object it resolved has no [fileName]: the program throws ([inl]) or
    returns a file or nothing ([inr]). *)
Variable getSourceFileOfUndefined : Error + option SourceFile.

(** The composition rules of the nodes ([Section Render]) and the fuel of
    the [toString()] that runs when [getAnalyzer] concatenates a [Source]
    into its error message. *)
Variable compositionRule : Class -> (Ref -> M string) -> Ref -> M string.

(** The [string|statements.Source] argument of the host's methods. *)
Inductive SourceArg : Set :=
  | ByPath (p : string)
  | ByInstance (s : Ref).

(** Host methods run on the [sources] registry and the store; both are
    returned whatever the outcome. *)
Definition HM (A : Type) : Type :=
  gmap string Ref -> Store -> outcome A * gmap string Ref * Store.

(** [sources] is a plain object, so [normalizedPath in this.sources]
    also holds for the names it inherits from [Object.prototype] (those
    of Node's [Object.getOwnPropertyNames(Object.prototype)]), and
    [this.sources[normalizedPath]] is then the inherited member. *)
Definition objectPrototypeKeys : list string :=
  [ "constructor"; "__defineGetter__"; "__defineSetter__";
    "hasOwnProperty"; "__lookupGetter__"; "__lookupSetter__";
    "isPrototypeOf"; "propertyIsEnumerable"; "toString"; "valueOf";
    "__proto__"; "toLocaleString" ].

Definition inheritedKey (k : string) : bool :=
  existsb (String.eqb k) objectPrototypeKeys.

(** What [getSource] returns: a [Source] of the store, or the member of
    [Object.prototype] found under an inherited key. *)
Inductive Resolved : Set :=
  | IsSource (s : Ref)
  | PrototypeMember (key : string).

(** [getSource(sourcePath)].  The registry [sources] holds the own keys.
    An argument that is neither a [Source] nor a string reaches
    [path.normalize], which throws a [TypeError]. *)
Definition getSource (sourcePath : SourceArg) : HM Resolved :=
  fun sources st =>
    match sourcePath with
    | ByInstance s =>
      match st !! s with
      | Some o =>
        if instanceOf (constructor o) Source
        then (Ok (IsSource s), sources, st)
        else (Raise TypeError, sources, st)
      | None => (Raise TypeError, sources, st)
      end
    | ByPath p =>
      let normalizedPath := normalize p in
      match sources !! normalizedPath with
      | Some s => (Ok (IsSource s), sources, st)
      | None =>
        if inheritedKey normalizedPath
        then (Ok (PrototypeMember normalizedPath), sources, st)
        else
          let s := length st in
          (Ok (IsSource s), <[normalizedPath := s]> sources,
           st ++ [with_fileName normalizedPath (new Source)])
      end
    end.

(** [new SourceAnalyzer(host, resolvedSource, sourceFile, recursive)]:
    on a [Source] of the store, or on a member of [Object.prototype]. *)
Inductive Analyzer : Set :=
  | OnSource (a : SourceAnalyzer)
  | OnPrototypeMember (key : string) (sf : SourceFile) (rec : bool).

(** [getAnalyzer(source, recursive)].  The message of the last error is
    built with ["Source " + source]: for a [Source] argument that runs
    [source.toString()], which may cache texts or throw an error of its
    own.  [SourceNotFound] carries the file name that was looked up, or
    the inherited key. *)
Definition getAnalyzer (fuel : nat) (src : option SourceArg) (rec : bool)
    : HM Analyzer :=
  fun sources st =>
    match src with
    | None => (Raise NullSourcePassed, sources, st)
    | Some sourcePath =>
      match getSource sourcePath sources st with
      | (Ok (IsSource resolvedSource), sources', st') =>
        match st' !! resolvedSource with
        | None => (Raise TypeError, sources', st')
        | Some o =>
          match getSourceFile (fileName o) with
          | Some sf =>
            (Ok (OnSource (mkSourceAnalyzer resolvedSource sf rec)),
             sources', st')
          | None =>
            match sourcePath with
            | ByPath _ =>
              (Raise (SourceNotFound (fileName o)), sources', st')
            | ByInstance s =>
              match toString compositionRule fuel s st' with
              | (Ok _, st'') =>
                (Raise (SourceNotFound (fileName o)), sources', st'')
              | (Raise e, st'') => (Raise e, sources', st'')
              | (Diverge, st'') => (Diverge, sources', st'')
              end
            end
          end
        end
      | (Ok (PrototypeMember key), sources', st') =>
        match getSourceFileOfUndefined with
        | inl e => (Raise e, sources', st')
        | inr (Some sf) =>
          (Ok (OnPrototypeMember key sf rec), sources', st')
        | inr None => (Raise (SourceNotFound key), sources', st')
        end
      | (Raise e, sources', st') => (Raise e, sources', st')
      | (Diverge, sources', st') => (Diverge, sources', st')
      end
    end.

(** [AnalyzerHost.analyze(source, recursive)]:
    [getAnalyzer(source, recursive).analyze()].  On a member of
    [Object.prototype], [this.source.registerWithNode] is not a function
    and the call throws a [TypeError]. *)
Definition analyze (fuel : nat) (src : option SourceArg) (rec : bool)
    : HM Ref :=
  fun sources st =>
    match getAnalyzer fuel src rec sources st with
    | (Ok (OnSource analyzer), sources', st') =>
      let (res, st'') := SourceAnalyzer_analyze analyzer st' in
      (res, sources', st'')
    | (Ok (OnPrototypeMember _ _ _), sources', st') =>
      (Raise TypeError, sources', st')
    | (Raise e, sources', st') => (Raise e, sources', st')
    | (Diverge, sources', st') => (Diverge, sources', st')
    end.

End Analyzer.

(* ===================================================================== *)
(** * Definitions used by the properties *)
(* ===================================================================== *)

(** ** Vocabulary of the statements *)

(** The classes that declare a [statementLevelTerminal] of their own, next
    to the two defaults in [CodeNode] and [AbstractBlock].  None of them
    has a subclass. *)
Definition terminalOverrides : list Class :=
  [Function; Lambda; Trivia; VariableDeclaration; If; Loop; Try; ForInOf;
   For; With].

(** [elseCode || thenCode] of an [If]. *)
Definition ifBranch (o : Obj) : option Ref :=
  match field 2 o with
  | Some elseCode => Some elseCode
  | None => field 1 o
  end.

(** The class inherits a [buildString] other than the two throwing ones
    of [CodeNode] and [AbstractBlock]. *)
Definition overridesBuildString (c : Class) : bool :=
  negb (Class_eqb (resolve declaresBuildString c) CodeNode)
  && negb (Class_eqb (resolve declaresBuildString c) AbstractBlock).

(** The comma rule, written from its description: every rendering is
    emitted in order, and a comma follows a non-trivia element exactly when
    another non-trivia element comes later.  ([fst r] says that the
    element is not a [Trivia].) *)
Fixpoint commaSeparated (rs : list (bool * string)) : string :=
  match rs with
  | [] => ""
  | r :: rest =>
    snd r +:+ (if fst r && existsb fst rest then "," else "")
          +:+ commaSeparated rest
  end.

(** Index of the last non-trivia element, if any. *)
Fixpoint lastTrue (rs : list (bool * string)) : option nat :=
  match rs with
  | [] => None
  | r :: rest =>
    match lastTrue rest with
    | Some j => Some (S j)
    | None => if fst r then Some 0%nat else None
    end
  end.

(** The number of newline characters at the end of [s]. *)
Fixpoint trailingNewlines (s : string) : nat :=
  match s with
  | EmptyString => 0
  | String c rest =>
    let n := trailingNewlines rest in
    if (n =? String.length rest)%nat && Ascii.eqb c newline then S n else n
  end.

(** The text [addToBlock] caches on a node: the element's text without one
    trailing semicolon. *)
Definition expressionText (e : TsNode) : string :=
  if endsWith semicolon (getText e) then dropLast (getText e) else getText e.

(** The leading trivia of an element. *)
Definition filler (e : TsNode) : string :=
  substr0 (getFullText e) (getStart e - getFullStart e).

(** The references [addToBlock] appends to the block for element [e] and
    node [statement] in a store of size [n]: a new [Trivia] first when the
    element has leading trivia. *)
Definition appended (e : TsNode) (n : nat) (statement : Ref) : list Ref :=
  if (0 <? String.length (filler e))%nat then [n; statement]
  else [statement].

(** ** Frames: what a computation leaves alone *)

(** [keeps r o m]: running [m] leaves the object [o] at [r] as it is,
    whatever the outcome. *)
Definition keeps {A} (r : Ref) (o : Obj) (m : M A) : Prop :=
  forall st, st !! r = Some o -> snd (m st) !! r = Some o.

(** [grows block n st st']: from [st] to [st'] every object other than
    [block] that existed is unchanged, and [block] differs at most by
    references appended to its [elements], at least [n] of them. *)
Definition grows (block : Ref) (n : nat) (st st' : Store) : Prop :=
  (forall r o, r <> block -> st !! r = Some o -> st' !! r = Some o)
  /\ (forall ob, st !! block = Some ob ->
        exists es,
          st' !! block = Some (with_elements (elements ob ++ es) ob)
          /\ (n <= length es)%nat).

(** [n] when the outcome is a value, [0] otherwise. *)
Definition steps {A} (res : outcome A) (n : nat) : nat :=
  match res with
  | Ok _ => n
  | _ => 0%nat
  end.

(** An element analyzer that only builds new nodes: the store it returns
    extends the one it got, and the node it returns is one of the new
    ones. *)
Definition allocates_only (elementAnalyzer : TsNode -> M Ref) : Prop :=
  forall e st res st',
    elementAnalyzer e st = (res, st') ->
    st `prefix_of` st'
    /\ forall r, res = Ok r -> (length st <= r < length st')%nat.

(** Every registered root is a [Source] whose [fileName] is its key. *)
Definition registry_ok (sources : gmap string Ref) (st : Store) : Prop :=
  forall p r, sources !! p = Some r ->
    exists o, st !! r = Some o /\ constructor o = Source /\ fileName o = p.

(** ** The child graph of a store *)

(** The non-null children of the object at [r], [None] when there is no
    object. *)
Definition childrenOf (st : Store) (r : Ref) : option (list Ref) :=
  (fun o => omap id (buildChildren o)) <$> st !! r.

(** The size of the subtree below [r] in a child graph [kids], unfolded
    [n] levels deep. *)
Fixpoint subtreeSize (kids : Ref -> option (list Ref)) (n : nat) (r : Ref)
    : nat :=
  match n with
  | O => 1
  | S n' =>
    match kids r with
    | Some cs => S (list_sum (map (subtreeSize kids n') cs))
    | None => 1
    end
  end.

(** A child graph without cycles and without dangling children: every
    child exists and has a smaller rank than its parent. *)
Definition well_founded_graph (kids : Ref -> option (list Ref))
    (rank : Ref -> nat) : Prop :=
  forall r cs c, kids r = Some cs -> c ∈ cs ->
    (rank c < rank r)%nat /\ is_Some (kids c).

(** ** Stand-ins for the rules that are parameters *)

(** A stand-in for the composition rules that are not spelled out, used
    where a concrete store is evaluated. *)
Definition noCompositionRule : Class -> (Ref -> M string) -> Ref -> M string :=
  fun _ _ _ => raise (OtherError "composition rule not embedded").

(** A stand-in for the construction rules that are not spelled out, used
    where a concrete parse tree is analyzed. *)
Definition noRule : bool -> TsNode -> M Ref :=
  fun _ _ => raise (OtherError "construction rule not embedded").

(** ** Example stores and parse trees *)

(** A block [{ ... }] holding a fallback node (cached text [raw]) and an
    identifier whose token was changed to [y] after its text [x] was
    cached. *)
Definition dirtyExample : Store :=
  [ with_elements [1; 2]%nat (with_text (Some "{raw;x;}") (new CodeBlock));
    with_text (Some "raw") (new CodeNode);
    with_text (Some "x") (with_token "y" (new Identifier)) ].

(** An expression block over [X], a space and [Y], none of them cached
    except [Y]. *)
Definition commaExample : Store :=
  [ with_elements [1; 2; 3]%nat (new AbstractExpressionBlock);
    with_token "X" (new Identifier);
    with_token " " (new Trivia);
    with_text (Some "Y") (with_token "Y" (new Identifier)) ].

(** A root holding one keyword, not yet rendered. *)
Definition rootExample : Store :=
  [ with_elements [1%nat] (new Source);
    with_token "debugger" (new Keyword) ].

(** The file [debugger], without a final newline. *)
Definition fileNoNewline : SourceFile :=
  {| sf_id := 0; sf_fileName := "a.ts"; sf_getFullText := "debugger";
     statements :=
       [ {| ts_id := 1; kind := DebuggerStatement; getText := "debugger";
            getFullText := "debugger"; getStart := 0; getFullStart := 0;
            getLastToken := None |} ];
     endOfFileToken :=
       Some {| tok_id := 2; tok_getFullText := "";
               tok_getLeadingTriviaWidth := 0 |} |}.

(** Two newline characters. *)
Definition twoNewlines : string := String newline (String newline "").

(** The file [debugger;] followed by two newlines. *)
Definition fileTwoNewlines : SourceFile :=
  {| sf_id := 0; sf_fileName := "b.ts";
     sf_getFullText := "debugger;" +:+ twoNewlines;
     statements :=
       [ {| ts_id := 1; kind := DebuggerStatement; getText := "debugger;";
            getFullText := "debugger;"; getStart := 0; getFullStart := 0;
            getLastToken := None |} ];
     endOfFileToken :=
       Some {| tok_id := 2; tok_getFullText := twoNewlines;
               tok_getLeadingTriviaWidth := 2 |} |}.

(** The store after a strict, recursive analysis of [sf] into a new
    root at reference [0]. *)
Definition analyzed (sf : SourceFile) : Store :=
  snd (SourceAnalyzer_analyze true noRule (mkSourceAnalyzer 0 sf true)
         [with_fileName (sf_fileName sf) (new Source)]).

(** A program with the two example files. *)
Definition programExample (p : string) : option SourceFile :=
  if String.eqb p "a.ts" then Some fileNoNewline
  else if String.eqb p "b.ts" then Some fileTwoNewlines
  else None.

(** The host's first analysis of [a.ts], from an empty registry. *)
Definition firstAnalysis : outcome Ref * gmap string Ref * Store :=
  analyze true noRule programExample id (inr None) noCompositionRule 0
    (Some (ByPath "a.ts")) true ∅ [].

(** The statement [debugger;]. *)
Definition debuggerStatement : TsNode :=
  {| ts_id := 1; kind := DebuggerStatement; getText := "debugger;";
     getFullText := "debugger;"; getStart := 0; getFullStart := 0;
     getLastToken := None |}.

(** An element of a kind no dispatcher has a case for (the kind [-100]
    of the repository's own test). *)
Definition unknownStatement : TsNode :=
  {| ts_id := 2; kind := OtherKind (-100); getText := "statementText";
     getFullText := "statementText"; getStart := 0; getFullStart := 0;
     getLastToken := None |}.

(** Strict analysis of a root holding [debugger;] and then the unknown
    element. *)
Definition strictFailure : outcome Ref * Store :=
  performBlockAnalysis true 0 [debuggerStatement; unknownStatement]
    (analyzeModuleElement noRule true) false [new Source].

(** [class C extends {}]: [analyzeClassDeclaration] reaches
    [failAnalysis(heritage, "heritage clause")]. *)
Definition classWithoutParent : TsNode :=
  {| ts_id := 1; kind := ClassDeclaration; getText := "class C extends {}";
     getFullText := "class C extends {}"; getStart := 0; getFullStart := 0;
     getLastToken := None |}.

(** The construction rule for that class declaration, as far as it
    gets. *)
Definition heritageRule : bool -> TsNode -> M Ref :=
  fun _ _ => raise (CouldNotAnalyze "heritage clause" "extends" (OtherKind 0)).

(** The file holding that class declaration. *)
Definition classFile : SourceFile :=
  {| sf_id := 0; sf_fileName := "c.ts";
     sf_getFullText := "class C extends {}";
     statements := [classWithoutParent];
     endOfFileToken :=
       Some {| tok_id := 2; tok_getFullText := "";
               tok_getLeadingTriviaWidth := 0 |} |}.

(** Lenient analysis of that file. *)
Definition lenientAnalysis : outcome Ref * Store :=
  SourceAnalyzer_analyze false heritageRule
    (mkSourceAnalyzer 0 classFile true) [new Source].

(** One step of block analysis: [debugger;] appended to an empty
    [CodeBlock]. *)
Definition debuggerAppended : outcome unit * Store :=
  analyzeElement true 0 (analyzeStatement noRule true) debuggerStatement
    [new CodeBlock].

(** ** Simple rules that the code does not follow

    Each of these reads well and is refuted below on a concrete input; the
    rule the code does follow is proved next to the refutation. *)

(** The two-way rule: [;] for every node that is not a block, nothing for
    every block. *)
Definition terminal_by_shape : Prop :=
  forall (fuel : nat) (st : Store) (this : Ref) (o : Obj),
    st !! this = Some o ->
    fst (statementLevelTerminal (S fuel) this st)
    = Ok (if instanceOf (constructor o) AbstractBlock then "" else ";").

(** The render contract: a render only succeeds when the cached text is
    set or the class inherits a [buildString] that does not throw. *)
Definition render_needs_text_or_buildString : Prop :=
  forall (compositionRule : Class -> (Ref -> M string) -> Ref -> M string)
         (fuel : nat) (st st' : Store) (this : Ref) (o : Obj) (s : string),
    st !! this = Some o ->
    toString compositionRule fuel this st = (Ok s, st') ->
    text o <> None \/ overridesBuildString (constructor o) = true.

(** The no-op rule for the analysis of a root: on a root whose
    [canAnalyzeBody()] is false, [analyze()] changes nothing. *)
Definition analyze_noop_when_not_analyzable : Prop :=
  forall (strictMode : bool) (rule : bool -> TsNode -> M Ref)
         (analyzer : SourceAnalyzer) (st st' : Store) (o : Obj)
         (res : outcome Ref),
    st !! source analyzer = Some o ->
    canAnalyzeBody o = false ->
    SourceAnalyzer_analyze strictMode rule analyzer st = (res, st') ->
    st' = st.

(** The one-newline rule: whatever file was analyzed, the root renders
    text that ends with exactly one newline. *)
Definition root_render_one_newline : Prop :=
  forall (strictMode : bool) (rule : bool -> TsNode -> M Ref)
         (compositionRule : Class -> (Ref -> M string) -> Ref -> M string)
         (analyzer : SourceAnalyzer) (fuel : nat)
         (st st' st'' : Store) (root : Ref) (s : string),
    SourceAnalyzer_analyze strictMode rule analyzer st = (Ok root, st') ->
    toString compositionRule fuel root st' = (Ok s, st'') ->
    trailingNewlines s = 1%nat.

(** The all-or-nothing rule: when a block holding an element of an
    unrecognized kind is analyzed in strict mode, the call throws and the
    block is left with its flag false and its element list empty. *)
Definition strict_failure_leaves_block_empty : Prop :=
  forall (rule : bool -> TsNode -> M Ref) (rec : bool) (block : Ref)
         (elems : list TsNode) (bad : TsNode) (code : Z) (st : Store)
         (ob : Obj),
    st !! block = Some ob -> canAnalyzeBody ob = true ->
    bad ∈ elems -> kind bad = OtherKind code ->
    exists err st' ob',
      performBlockAnalysis true block elems (analyzeModuleElement rule rec)
        false st = (Raise err, st')
      /\ st' !! block = Some ob'
      /\ bodyHasBeenAnalyzed ob' = false
      /\ elements ob' = [].

(** The fatal-reference rule: an error raised through [failAnalysis] for
    a missing sub-element (here a heritage clause without types) stops the
    analysis of the block in lenient mode too. *)
Definition malformed_reference_fatal_when_lenient : Prop :=
  forall (rule : bool -> TsNode -> M Ref) (rec : bool) (block : Ref)
         (e : TsNode) (found : string) (k : SyntaxKind) (st : Store)
         (ob : Obj),
    st !! block = Some ob -> canAnalyzeBody ob = true ->
    kind e = ClassDeclaration ->
    (forall st0, rule rec e st0
                 = (Raise (CouldNotAnalyze "heritage clause" found k), st0)) ->
    exists err st',
      performBlockAnalysis false block [e] (analyzeModuleElement rule rec)
        false st = (Raise err, st').

(** The literal-slice rule: the node appended for an element has the
    element as its origin link and the element's literal text as its
    cached text. *)
Definition appended_text_is_literal_slice : Prop :=
  forall (strictMode : bool) (elementAnalyzer : TsNode -> M Ref)
         (block : Ref) (e : TsNode) (st st' : Store) (ob : Obj),
    allocates_only elementAnalyzer ->
    st !! block = Some ob ->
    analyzeElement strictMode block elementAnalyzer e st = (Ok tt, st') ->
    exists ob' r o,
      st' !! block = Some ob'
      /\ last (elements ob') = Some r
      /\ st' !! r = Some o
      /\ node o = Some (OfNode e)
      /\ text o = Some (getText e).

(* ===================================================================== *)
(** * More of the code *)
(* ===================================================================== *)

(** ** More JavaScript strings *)

(** The characters of [s] from index [n] on. *)
Fixpoint drop_chars (n : nat) (s : string) : string :=
  match n, s with
  | S n', String _ rest => drop_chars n' rest
  | _, _ => s
  end.

(** [s.substr(start, length)]: a negative [start] counts from the end,
    and the length is cut to what is there. *)
Definition substr (s : string) (start length : Z) : string :=
  let size := Z.of_nat (String.length s) in
  let start := if (start <? 0)%Z then Z.max (size + start) 0 else start in
  let length := Z.min (Z.max length 0) (size - start) in
  if (length <=? 0)%Z then ""
  else take_chars (Z.to_nat length) (drop_chars (Z.to_nat start) s).

(** [s.substring(start, end)]: both indices are clamped to the string and
    swapped when they come in the wrong order. *)
Definition substring (s : string) (start end_ : Z) : string :=
  let size := Z.of_nat (String.length s) in
  let finalStart := Z.min (Z.max start 0) size in
  let finalEnd := Z.min (Z.max end_ 0) size in
  let from := Z.min finalStart finalEnd in
  let to := Z.max finalStart finalEnd in
  take_chars (Z.to_nat (to - from)) (drop_chars (Z.to_nat from) s).

(** ** [TemplateLiteralPiece]: back quotes in template text *)

Definition backquote : ascii := "`"%char.
Definition backslash : ascii := "\"%char.

(** [TemplateLiteralPiece.asToken]: [value.replace(/`/g, "\\$&")], a
    backslash in front of every back quote. *)
Fixpoint asToken (value : string) : string :=
  match value with
  | EmptyString => EmptyString
  | String c rest =>
    if Ascii.eqb c backquote
    then String backslash (String c (asToken rest))
    else String c (asToken rest)
  end.

(** [TemplateLiteralPiece.asText]: [value.replace(/\\`/g, "`")].  The
    scan goes from the left and matches do not overlap: a backslash that
    is directly followed by a back quote is dropped, and the scan resumes
    after that back quote. *)
Fixpoint asText (value : string) : string :=
  match value with
  | EmptyString => EmptyString
  | String c rest =>
    match rest with
    | String d rest' =>
      if Ascii.eqb c backslash && Ascii.eqb d backquote
      then String d (asText rest')
      else String c (asText rest)
    | EmptyString => String c EmptyString
    end
  end.

(** The [value] of [TemplateLiteralPiece.fromToken(token)], and
    [buildString()] of a piece with that [value]. *)
Definition fromToken (token : string) : string := asText token.
Definition TemplateLiteralPiece_buildString (value : string) : string :=
  asToken value.

(** The text that [getTemplateLiteralPiece] cuts out of a template
    literal's source text [le.getText()]: without the opening delimiter
    and without the closing back quote, or the closing [${] when the
    literal ends with one.  The piece is [fromToken] of that text, and the
    text is also what the analyzer caches on the piece. *)
Definition getTemplateLiteralPiece_text (text : string) : string :=
  let length := Z.of_nat (String.length text) in
  let start := 1%Z in
  let end_ :=
    if String.eqb (substr text (length - 2) 2) "${"
    then (length - 2)%Z else (length - 1)%Z in
  substring text start end_.


(** ** [AnalyzerHost.analyzeAll] *)

Section Host.

Variable strictMode : bool.
Variable rule : bool -> TsNode -> M Ref.
Variable getSourceFile : string -> option SourceFile.
Variable normalize : string -> string.
Variable getSourceFileOfUndefined : Error + option SourceFile.
Variable compositionRule : Class -> (Ref -> M string) -> Ref -> M string.
Variable fuel : nat.

(** [files.map((sf) => this.analyze(sf.fileName, recursive))]: the files
    are analyzed in order, and the first exception ends the call. *)
Fixpoint analyzeEach (files : list SourceFile) (rec : bool)
    : HM (list Ref) :=
  fun sources st =>
    match files with
    | [] => (Ok [], sources, st)
    | sf :: rest =>
      match analyze strictMode rule getSourceFile normalize
              getSourceFileOfUndefined compositionRule fuel
              (Some (ByPath (sf_fileName sf))) rec sources st with
      | (Ok root, sources', st') =>
        match analyzeEach rest rec sources' st' with
        | (Ok roots, sources'', st'') => (Ok (root :: roots), sources'', st'')
        | other => other
        end
      | (Raise e, sources', st') => (Raise e, sources', st')
      | (Diverge, sources', st') => (Diverge, sources', st')
      end
    end.

(** [program.getSourceFiles()]. *)
Variable getSourceFiles : list SourceFile.

Definition analyzeAll (rec : bool) : HM (list Ref) :=
  analyzeEach getSourceFiles rec.

End Host.

(** ** [SourceAnalyzer.analyzeBody] *)

(** [block.constructor.name]. *)
Definition className (c : Class) : string :=
  match c with
  | CodeNode => "CodeNode"
  | AbstractBlock => "AbstractBlock"
  | AbstractStatementBlock => "AbstractStatementBlock"
  | CodeBlock => "CodeBlock"
  | AbstractExpressionBlock => "AbstractExpressionBlock"
  | SimpleNode => "SimpleNode"
  | Keyword => "Keyword"
  | EmptyExpression => "EmptyExpression"
  | Source => "Source"
  | Module => "Module"
  | InternalModuleImport => "InternalModuleImport"
  | RequireImport => "RequireImport"
  | QualifiedName => "QualifiedName"
  | KeywordType => "KeywordType"
  | QualifiedTypeName => "QualifiedTypeName"
  | ArrayType => "ArrayType"
  | UnionType => "UnionType"
  | ParenthesizedType => "ParenthesizedType"
  | TupleType => "TupleType"
  | TypeAlias => "TypeAlias"
  | EnumEntry => "EnumEntry"
  | Enumeration => "Enumeration"
  | TypeParameter => "TypeParameter"
  | TypeLiteral => "TypeLiteral"
  | Interface => "Interface"
  | AbstractCallableSignature => "AbstractCallableSignature"
  | CallableSignature => "CallableSignature"
  | CallableType => "CallableType"
  | Function => "Function"
  | Lambda => "Lambda"
  | Property => "Property"
  | ExportAssignment => "ExportAssignment"
  | Index => "Index"
  | Class_ => "Class"
  | Trivia => "Trivia"
  | NamedImportOrExports => "NamedImportOrExports"
  | NamespaceBinding => "NamespaceBinding"
  | ES6Import => "ES6Import"
  | ExportDeclaration => "ExportDeclaration"
  | SimpleImport => "SimpleImport"
  | AtomicValue => "AtomicValue"
  | RegexLiteral => "RegexLiteral"
  | ArrayLiteral => "ArrayLiteral"
  | Identifier => "Identifier"
  | Parenthetical => "Parenthetical"
  | TemplateLiteralPiece => "TemplateLiteralPiece"
  | TemplatePattern => "TemplatePattern"
  | TaggedTemplate => "TaggedTemplate"
  | UnaryOperation => "UnaryOperation"
  | Return => "Return"
  | Throw => "Throw"
  | BinaryOperation => "BinaryOperation"
  | PropertyAccess => "PropertyAccess"
  | TernaryOperation => "TernaryOperation"
  | Call => "Call"
  | ObjectLiteralProperty => "ObjectLiteralProperty"
  | ElementAccess => "ElementAccess"
  | InstanceOf => "InstanceOf"
  | New => "New"
  | Delete => "Delete"
  | TypeOf => "TypeOf"
  | ObjectLiteral => "ObjectLiteral"
  | Spread => "Spread"
  | KeywordOperator => "KeywordOperator"
  | Break => "Break"
  | Continue => "Continue"
  | Void => "Void"
  | TypeAssertion => "TypeAssertion"
  | LabeledStatement => "LabeledStatement"
  | ComputedDeclarationName => "ComputedDeclarationName"
  | ArrayBinding => "ArrayBinding"
  | BindingElement => "BindingElement"
  | ObjectBinding => "ObjectBinding"
  | VariableDeclaration => "VariableDeclaration"
  | If => "If"
  | Loop => "Loop"
  | Try => "Try"
  | ForInOf => "ForInOf"
  | For => "For"
  | With => "With"
  | Case => "Case"
  | Switch => "Switch"
  end.

(** The element analyzers that the body analyzers hand to
    [performBlockAnalysis], next to [analyzeStatement] and
    [analyzeModuleElement]. *)
Inductive ElementAnalyzer : Set :=
  | AnalyzeEnumElement | AnalyzeProperty | AnalyzeExpression
  | AnalyzeClassElement | AnalyzeCase | AnalyzeObjectLiteralElement.

Section Bodies.

Variable strictMode : bool.
Variable rule : bool -> TsNode -> M Ref.

(** The construction rules of those element analyzers. *)
Variable construct : ElementAnalyzer -> bool -> TsNode -> M Ref.

(** The properties of parse nodes that the body analyzers read; [None]
    is a property that is [null] or not there. *)
Variable members : TsNode -> option (list TsNode).
Variable statementsOf : TsNode -> option (list TsNode).
Variable body : TsNode -> option TsNode.
Variable caseBlock : TsNode -> option TsNode.
Variable clauses : TsNode -> option (list TsNode).
Variable properties : TsNode -> option (list TsNode).
Variable elementsOf : TsNode -> option (list TsNode).
Variable declarationList : TsNode -> option TsNode.
Variable declarations : TsNode -> option (list TsNode).

(** The analyzer's [recursive] property. *)
Variable rec : bool.

(** Reading a property of [block.node]: reading through an unset [node]
    throws; a [ts.SourceFile] has [statements] and none of the other
    properties. *)
Definition nodeOf (block : Ref) : M Origin :=
  o <- get block ;;
  match node o with
  | Some og => ret og
  | None => raise TypeError
  end.

Definition read {A} (property : TsNode -> option A) (og : Origin)
    : option A :=
  match og with
  | OfNode n => property n
  | OfFile _ => None
  end.

Definition readStatements (og : Origin) : option (list TsNode) :=
  match og with
  | OfNode n => statementsOf n
  | OfFile f => Some (statements f)
  end.

(** [performBlockAnalysis(block, elements, ...)] where [elements] may be
    undefined: the block is returned before the elements are looked at
    when it cannot be analyzed, and [elements.forEach] throws otherwise. *)
Definition performBlockAnalysisOn (block : Ref)
    (elems : option (list TsNode)) (elementAnalyzer : TsNode -> M Ref)
    (ignoreTrailing : bool) : M Ref :=
  match elems with
  | Some elems =>
    performBlockAnalysis strictMode block elems elementAnalyzer
      ignoreTrailing
  | None =>
    o <- get block ;;
    if negb (canAnalyzeBody o) then ret block else raise TypeError
  end.

Definition analyzeEnumBody (enumeration : Ref) : M Ref :=
  enumDeclaration <- nodeOf enumeration ;;
  performBlockAnalysisOn enumeration (read members enumDeclaration)
    (construct AnalyzeEnumElement rec) false.

Definition analyzeInterfaceBody (intface : Ref) : M Ref :=
  interfaceDeclaration <- nodeOf intface ;;
  performBlockAnalysisOn intface (read members interfaceDeclaration)
    (construct AnalyzeProperty rec) false.

Definition analyzeTypeLiteralBody (typeLiteral : Ref) : M Ref :=
  type <- nodeOf typeLiteral ;;
  performBlockAnalysisOn typeLiteral (read members type)
    (construct AnalyzeProperty rec) false.

Definition analyzeCodeBlock (block : Ref) : M Ref :=
  blockStatement <- nodeOf block ;;
  performBlockAnalysisOn block (readStatements blockStatement)
    (analyzeStatement rule rec) false ;;;
  ret block.

(** [while (body.kind == ts.SyntaxKind.ModuleDeclaration) body = body.body]. *)
Fixpoint moduleBlock (fuel : nat) (b : option TsNode) : M TsNode :=
  match fuel with
  | O => diverge
  | S fuel' =>
    match b with
    | None => raise TypeError
    | Some b =>
      match kind b with
      | ModuleDeclaration => moduleBlock fuel' (body b)
      | _ => ret b
      end
    end
  end.

Definition analyzeModuleBody (fuel : nat) (module : Ref) : M Ref :=
  moduleDeclaration <- nodeOf module ;;
  b <- moduleBlock fuel (read body moduleDeclaration) ;;
  performBlockAnalysisOn module (statementsOf b)
    (analyzeModuleElement rule rec) false.

Definition analyzeFunctionBody (func : Ref) : M Ref :=
  functionDeclaration <- nodeOf func ;;
  match read body functionDeclaration with
  | None =>
    modify func (with_bodyHasBeenAnalyzed true) ;;; ret func
  | Some b =>
    (match kind b with
     | BlockKind => ret tt
     | _ => failAnalysis b "function body"
     end) ;;;
    performBlockAnalysisOn func (statementsOf b)
      (analyzeStatement rule rec) false
  end.

Definition analyzeLambdaBody (lambda : Ref) : M unit :=
  arrFunction <- nodeOf lambda ;;
  match read body arrFunction with
  | None => raise TypeError
  | Some b =>
    match kind b with
    | BlockKind =>
      performBlockAnalysisOn lambda (statementsOf b)
        (analyzeStatement rule rec) false ;;;
      ret tt
    | _ =>
      performBlockAnalysisOn lambda (Some [b])
        (construct AnalyzeExpression rec) false ;;;
      modify lambda (with_isSingleExpression true)
    end
  end.

Definition analyzeClassBody (klass : Ref) : M Ref :=
  classDeclaration <- nodeOf klass ;;
  match read members classDeclaration with
  | None =>
    modify klass (with_bodyHasBeenAnalyzed true) ;;; ret klass
  | Some ms =>
    performBlockAnalysisOn klass (Some ms)
      (construct AnalyzeClassElement rec) false
  end.

Definition analyzeCaseBody (caseStatement : Ref) : M Ref :=
  caseStmt <- nodeOf caseStatement ;;
  performBlockAnalysisOn caseStatement (readStatements caseStmt)
    (analyzeStatement rule rec) false ;;;
  ret caseStatement.

Definition analyzeSwitchBody (switchStatement : Ref) : M Ref :=
  switchStmt <- nodeOf switchStatement ;;
  match read caseBlock switchStmt with
  | None => raise TypeError
  | Some cb =>
    performBlockAnalysisOn switchStatement (clauses cb)
      (construct AnalyzeCase rec) false ;;;
    ret switchStatement
  end.

Definition analyzeObjectLiteralBody (objectLiteral : Ref) : M Ref :=
  obj <- nodeOf objectLiteral ;;
  performBlockAnalysisOn objectLiteral (read properties obj)
    (construct AnalyzeObjectLiteralElement rec) false.

Definition analyzeArrayLiteralBody (arrayLiteral : Ref) : M Ref :=
  arr <- nodeOf arrayLiteral ;;
  performBlockAnalysisOn arrayLiteral (read elementsOf arr)
    (construct AnalyzeExpression rec) false.

(** [analyzeVariableDeclaration]: the declarations are read from the
    declaration list of a variable statement, or from the node itself
    when it is the list; trailing trivia is never looked for. *)
Definition analyzeVariableDeclaration (variables : Ref) : M Ref :=
  o <- get variables ;;
  match node o with
  | None => raise TypeError
  | Some (OfFile _) =>
    performBlockAnalysisOn variables None (construct AnalyzeProperty rec)
      true
  | Some (OfNode variableStatement) =>
    match kind variableStatement with
    | VariableStatement =>
      match declarationList variableStatement with
      | None => raise TypeError
      | Some dl =>
        performBlockAnalysisOn variables (declarations dl)
          (construct AnalyzeProperty rec) true
      end
    | _ =>
      performBlockAnalysisOn variables (declarations variableStatement)
        (construct AnalyzeProperty rec) true
    end
  end.

(** [analyzeBody(block)]: the first test that holds picks the body
    analyzer, whose return value is not used. *)
Definition analyzeBody (fuel : nat) (block : Ref) : M Ref :=
  o <- get block ;;
  let c := constructor o in
  (if instanceOf c Enumeration then analyzeEnumBody block ;;; ret tt
   else if instanceOf c Interface then analyzeInterfaceBody block ;;; ret tt
   else if instanceOf c Module then analyzeModuleBody fuel block ;;; ret tt
   else if instanceOf c Function then analyzeFunctionBody block ;;; ret tt
   else if instanceOf c Lambda then analyzeLambdaBody block
   else if instanceOf c Class_ then analyzeClassBody block ;;; ret tt
   else if instanceOf c Case then analyzeCaseBody block ;;; ret tt
   else if instanceOf c Switch then analyzeSwitchBody block ;;; ret tt
   else if instanceOf c ObjectLiteral
   then analyzeObjectLiteralBody block ;;; ret tt
   else if instanceOf c VariableDeclaration
   then analyzeVariableDeclaration block ;;; ret tt
   else if Class_eqb c CodeBlock then analyzeCodeBlock block ;;; ret tt
   else if instanceOf c ArrayLiteral
   then analyzeArrayLiteralBody block ;;; ret tt
   else if instanceOf c TypeLiteral
   then analyzeTypeLiteralBody block ;;; ret tt
   else raise (OtherError ("SourceAnalyze cannot analyze block of type "
                           +:+ className c))) ;;;
  ret block.

End Bodies.

(* ===================================================================== *)
(** * More vocabulary for the properties *)
(* ===================================================================== *)

(** Every back quote of [s] comes directly after a backslash; [prev]
    says whether the character before [s] is a backslash. *)
Fixpoint escaped_after (prev : bool) (s : string) : bool :=
  match s with
  | EmptyString => true
  | String c rest =>
    (negb (Ascii.eqb c backquote) || prev)
    && escaped_after (Ascii.eqb c backslash) rest
  end.

(** ** Traversal *)

(** [reaches kids r d]: in the child graph [kids], [d] is a child of
    [r] or of a node that [r] reaches. *)
Inductive reaches (kids : Ref -> option (list Ref)) : Ref -> Ref -> Prop :=
  | reaches_child (r : Ref) (cs : list Ref) (c : Ref) :
      kids r = Some cs -> c ∈ cs -> reaches kids r c
  | reaches_step (r : Ref) (cs : list Ref) (c d : Ref) :
      kids r = Some cs -> c ∈ cs -> reaches kids c d -> reaches kids r d.

(** The descendants of a node in a store. *)
Definition descendant (st : Store) : Ref -> Ref -> Prop :=
  reaches (childrenOf st).

(** The nodes a search from [this] looks at. *)
Definition searched (st : Store) (includeSelf : bool) (this d : Ref) : Prop :=
  (includeSelf = true /\ d = this) \/ descendant st this d.

(** A predicate or walker callback without side effects: it may read the
    whole store. *)
Definition pure_predicate (p : Store -> Ref -> bool) : Ref -> M bool :=
  fun n st => (Ok (p st n), st).

(** The callback [(c) => { c.markDirty(); }] that the recursive
    [markDirty] walks with. *)
Definition markDirty_walker : Ref -> M unit :=
  fun c => markDirty_default c ;;; ret tt.

(** A node that [markDirty] has dealt with: its cached text is unset,
    unless it is a base [CodeNode]. *)
Definition dirty (st : Store) (d : Ref) : Prop :=
  forall od, st !! d = Some od ->
    constructor od <> CodeNode -> text od = None.

(** [invalidated st st']: [st'] is [st] with the cached text of some
    objects, none of them a base [CodeNode], unset; nothing else
    differs. *)
Definition invalidated (st st' : Store) : Prop :=
  length st' = length st
  /\ forall r ob, st !! r = Some ob ->
       st' !! r = Some ob
       \/ (constructor ob <> CodeNode /\ st' !! r = Some (with_text None ob)).

(** Two blocks and two identifiers: the first child of the outer block is
    the inner block, which holds an [x]; the second child is an [x]
    itself. *)
Definition searchExample : Store :=
  [ with_elements [1; 2]%nat (new CodeBlock);
    with_elements [3%nat] (new CodeBlock);
    with_token "x" (new Identifier);
    with_token "x" (new Identifier) ].

(** The predicate [(n) => n.token == t]. *)
Definition hasToken (t : string) : Store -> Ref -> bool :=
  fun st r =>
    match st !! r with
    | Some o => String.eqb (token o) t
    | None => false
    end.

(** ** The render cache *)

(** [changes_only_text m]: whatever its outcome, running [m] allocates
    nothing and leaves every object as it was up to its cached text. *)
Definition changes_only_text {A} (m : M A) : Prop :=
  forall st,
    length (snd (m st)) = length st
    /\ forall r o, st !! r = Some o ->
         exists t, snd (m st) !! r = Some (with_text t o).

(** Composition rules that do what every [buildString] of
    [statements.ts] does: read properties and render children. *)
Definition text_only_rules
    (compositionRule : Class -> (Ref -> M string) -> Ref -> M string)
    : Prop :=
  forall c render this,
    (forall r, changes_only_text (render r)) ->
    changes_only_text (compositionRule c render this).

(** ** The analyzer's footprint *)

(** [same_roots st st']: every object of [st] is still there in [st'],
    with its class and its file name. *)
Definition same_roots (st st' : Store) : Prop :=
  forall r o, st !! r = Some o ->
    exists o', st' !! r = Some o'
               /\ constructor o' = constructor o
               /\ fileName o' = fileName o.

(** Construction rules that return or throw within the fuel they are
    given. *)
Definition returns_or_throws (rule : bool -> TsNode -> M Ref) : Prop :=
  forall rec e st, fst (rule rec e st) <> Diverge.

(** A root that has been analyzed from the program's file for [path]: a
    [Source] named [path], registered with that file, holding its full
    text, and marked as analyzed. *)
Definition analyzed_root (getSourceFile : string -> option SourceFile)
    (st : Store) (path : string) (root : Ref) : Prop :=
  exists o sf,
    st !! root = Some o
    /\ constructor o = Source
    /\ fileName o = path
    /\ getSourceFile path = Some sf
    /\ node o = Some (OfFile sf)
    /\ text o = Some (sf_getFullText sf)
    /\ bodyHasBeenAnalyzed o = true.

(** No registered root is half analyzed: each is still untouched (no
    elements, flag unset) or marked as analyzed.  A strict failure leaves
    a root with elements and the flag unset, which no later analysis
    completes. *)
Definition no_root_half_analyzed (sources : gmap string Ref) (st : Store)
    : Prop :=
  forall p r, sources !! p = Some r ->
    exists o, st !! r = Some o
              /\ (canAnalyzeBody o = true \/ bodyHasBeenAnalyzed o = true).

(** ** Analyzing a body twice *)

(** [settles block m]: when [m] returns on a store that holds [block],
    the block keeps its class and its parse node, and running [m] again
    returns and leaves the store as the first run left it. *)
Definition settles {A} (block : Ref) (m : M A) : Prop :=
  forall st st1 o a,
    st !! block = Some o -> m st = (Ok a, st1) ->
    (exists o1, st1 !! block = Some o1
                /\ constructor o1 = constructor o /\ node o1 = node o)
    /\ exists a', m st1 = (Ok a', st1).

(** A parse tree without the properties the body analyzers read. *)
Definition noList : TsNode -> option (list TsNode) := fun _ => None.
Definition noNode : TsNode -> option TsNode := fun _ => None.

(** Stand-in for the element analyzers that are parameters. *)
Definition noConstruct : ElementAnalyzer -> bool -> TsNode -> M Ref :=
  fun _ _ _ => raise (OtherError "construction rule not embedded").

(** A block statement holding [debugger;], and an unanalyzed [CodeBlock]
    registered with it. *)
Definition blockStatement : TsNode :=
  {| ts_id := 5; kind := BlockKind; getText := "{debugger;}";
     getFullText := "{debugger;}"; getStart := 0; getFullStart := 0;
     getLastToken := None |}.

Definition blockStatements : TsNode -> option (list TsNode) :=
  fun n => if (ts_id n =? 5)%nat then Some [debuggerStatement] else None.

Definition blockExample : Store :=
  [ with_node (Some (OfNode blockStatement))
      (with_text (Some "{debugger;}") (new CodeBlock)) ].

(** ** What a statement block renders from *)

(** The terminal of a node that depends on its class alone: nothing for a
    [Trivia], and the default of [CodeNode] or [AbstractBlock] for a class
    that inherits it.  The other classes that declare a
    [statementLevelTerminal] look at a property or at a child. *)
Definition plainTerminal (c : Class) : option string :=
  if Class_eqb c Trivia then Some ""
  else if existsb (Class_eqb c) terminalOverrides then None
  else Some (if instanceOf c AbstractBlock then "" else ";").

(** The rendering of a node that needs no rendering of children: its
    cached text, or the token of a simple node without one. *)
Definition leafRender (o : Obj) : option string :=
  match text o with
  | Some t =>
    if Class_eqb (constructor o) TypeParameter then None else Some t
  | None =>
    if Class_eqb (resolve declaresBuildString (constructor o)) SimpleNode
    then Some (token o) else None
  end.

(** What such a node contributes to a statement block: its rendering
    followed by its terminal. *)
Definition statementText (o : Obj) : option string :=
  match leafRender o, plainTerminal (constructor o) with
  | Some s, Some t => Some (s +:+ t)
  | _, _ => None
  end.

(** The concatenation of those contributions over the elements of a
    block, when every element is such a node. *)
Fixpoint elementsText (st : Store) (es : list Ref) : option string :=
  match es with
  | [] => Some ""
  | r :: rest =>
    match st !! r, elementsText st rest with
    | Some o, Some s' =>
      match statementText o with
      | Some s => Some (s +:+ s')
      | None => None
      end
    | _, _ => None
    end
  end.

(** [cached st st']: [st'] is [st] with the renderings of some such nodes
    cached on them; nothing else differs. *)
Definition cached (st st' : Store) : Prop :=
  length st' = length st
  /\ forall r o, st !! r = Some o ->
       st' !! r = Some o
       \/ (text o = None
           /\ exists s, leafRender o = Some s
                        /\ st' !! r = Some (with_text (Some s) o)).

(** How each class of statement block wraps the concatenation of its
    elements. *)
Definition wrapStatements (c : Class) (s : string) : option string :=
  match c with
  | AbstractStatementBlock => Some s
  | CodeBlock | TypeLiteral => Some ("{" +:+ s +:+ "}")
  | Source => Some (withTrailingNewline s)
  | _ => None
  end.

(** ** What the analyzer leaves to render from *)

(** The statements whose construction is spelled out in
    [analyzeStatement]. *)
Definition simpleStatement (e : TsNode) : Prop :=
  kind e = DebuggerStatement \/ kind e = EmptyStatement.

(** What a simple statement contributes to a rebuilt block: its leading
    trivia, its text without a trailing semicolon, and a semicolon. *)
Definition statementSource (e : TsNode) : string :=
  filler e +:+ expressionText e +:+ ";".

(** The trailing trivia that [addTrailingBlockSpacing] finds for a
    root: the leading trivia of the end-of-file token, unless that token
    is the parse node of the last statement. *)
Definition trailingOf (sf : SourceFile) : string :=
  match endOfFileToken sf with
  | None => ""
  | Some lastToken =>
    if match last (statements sf) with
       | Some e => (tok_id lastToken =? ts_id e)%nat
       | None => false
       end
    then ""
    else substr0 (tok_getFullText lastToken)
                 (tok_getLeadingTriviaWidth lastToken)
  end.

(** The file [debugger], a newline, [debugger] again (no semicolons), and
    a final newline. *)
Definition fileTwoStatements : SourceFile :=
  {| sf_id := 0; sf_fileName := "d.ts";
     sf_getFullText := "debugger" +:+ String newline "debugger"
                       +:+ String newline "";
     statements :=
       [ {| ts_id := 1; kind := DebuggerStatement; getText := "debugger";
            getFullText := "debugger"; getStart := 0; getFullStart := 0;
            getLastToken := None |};
         {| ts_id := 2; kind := DebuggerStatement; getText := "debugger";
            getFullText := String newline "debugger"; getStart := 9;
            getFullStart := 8; getLastToken := None |} ];
     endOfFileToken :=
       Some {| tok_id := 3; tok_getFullText := String newline "";
               tok_getLeadingTriviaWidth := 1 |} |}.

(** The proof step for "the object is the same one, as it was". *)
Ltac same_object :=
  split;
  [ eexists; split; [eassumption|];
    split; (assumption || reflexivity || congruence) | ].

(* ===================================================================== *)
(** * Properties *)
(* ===================================================================== *)


(** ** Basic facts about the store monad *)

Lemma get_Some (st : Store) (r : Ref) (o : Obj) :
  st !! r = Some o -> get r st = (Ok o, st).
Proof. intros H. unfold get. now rewrite H. Qed.

Lemma modify_Some (st : Store) (r : Ref) (o : Obj) (f : Obj -> Obj) :
  st !! r = Some o -> modify r f st = (Ok tt, <[r := f o]> st).
Proof. intros H. unfold modify. now rewrite H. Qed.

Lemma bind_Ok {A B} (m : M A) (k : A -> M B) (st st' : Store) (a : A) :
  m st = (Ok a, st') -> bind m k st = k a st'.
Proof. intros H. unfold bind. now rewrite H. Qed.

Lemma bind_Raise {A B} (m : M A) (k : A -> M B) (st st' : Store) (e : Error) :
  m st = (Raise e, st') -> bind m k st = (Raise e, st').
Proof. intros H. unfold bind. now rewrite H. Qed.

Lemma Class_eqb_eq (a b : Class) : Class_eqb a b = true <-> a = b.
Proof.
  split.
  - destruct a; destruct b; simpl; intros H; try reflexivity; discriminate H.
  - intros ->. destruct b; reflexivity.
Qed.

Lemma Class_eqb_refl (a : Class) : Class_eqb a a = true.
Proof. now apply Class_eqb_eq. Qed.

(** ** The statement terminator, class by class *)

Lemma statementLevelTerminal_default (fuel : nat) (st : Store) (this : Ref)
    (o : Obj) :
  st !! this = Some o ->
  constructor o ∉ terminalOverrides ->
  statementLevelTerminal (S fuel) this st
  = (Ok (if instanceOf (constructor o) AbstractBlock then "" else ";"), st).
Proof.
  intros Hthis Hc. cbn [statementLevelTerminal].
  rewrite (bind_Ok _ _ _ _ _ (get_Some _ _ _ Hthis)).
  unfold terminalOverrides in Hc.
  destruct (constructor o); try reflexivity;
    exfalso; apply Hc; repeat constructor.
Qed.

(** C7 as the two-way rule is refuted: a [VariableDeclaration] is a block
    and ends with [;]; a [Trivia] is not a block and ends with nothing. *)
Lemma statementLevelTerminal_not_by_shape :
  instanceOf VariableDeclaration AbstractBlock = true
  /\ statementLevelTerminal 1 0 [new VariableDeclaration]
     = (Ok ";", [new VariableDeclaration])
  /\ instanceOf Trivia AbstractBlock = false
  /\ statementLevelTerminal 1 0 [new Trivia] = (Ok "", [new Trivia])
  /\ ~ terminal_by_shape.
Proof.
  repeat split; try reflexivity.
  intros H. specialize (H 0%nat [new VariableDeclaration] 0%nat
                          (new VariableDeclaration) eq_refl).
  discriminate H.
Qed.

(** C7 (amended): [statementLevelTerminal()] returns [";"] by default and
    [""] by default for [AbstractBlock] and its subclasses, and ten
    classes override it: the blocks [VariableDeclaration] (always [";"]),
    [Function] ([";"] iff [declaredOnly]) and [Lambda] ([";"] iff
    [isSingleExpression]); the non-blocks [Trivia], [Loop], [Try], [For]
    and [With] (always [""]), [ForInOf] ([""] iff its body is a
    [CodeBlock] instance) and [If] (the terminal of its else-branch, or of
    its then-branch when there is no else). *)
Theorem statementLevelTerminal_by_class (fuel : nat) (st : Store)
    (this : Ref) (o : Obj) (Hthis : st !! this = Some o) :
  let c := constructor o in
  let result := statementLevelTerminal (S fuel) this st in
  (c ∉ terminalOverrides ->
     result = (Ok (if instanceOf c AbstractBlock then "" else ";"), st))
  /\ (c = VariableDeclaration -> result = (Ok ";", st))
  /\ (c = Function ->
        result = (Ok (if declaredOnly o then ";" else ""), st))
  /\ (c = Lambda ->
        result = (Ok (if isSingleExpression o then ";" else ""), st))
  /\ (c ∈ [Trivia; Loop; Try; For; With] -> result = (Ok "", st))
  /\ (c = ForInOf ->
        match field 2 o with
        | None => result = (Ok ";", st)
        | Some body =>
          forall b, st !! body = Some b ->
            result = (Ok (if instanceOf (constructor b) CodeBlock
                          then "" else ";"), st)
        end)
  /\ (c = If ->
        match ifBranch o with
        | Some branch => result = statementLevelTerminal fuel branch st
        | None => result = (Raise TypeError, st)
        end).
Proof.
  intros c result. subst c result.
  split; [intros Hc; now apply statementLevelTerminal_default|].
  cbn [statementLevelTerminal].
  rewrite (bind_Ok _ _ _ _ _ (get_Some _ _ _ Hthis)).
  repeat split; intros Hc.
  - now rewrite Hc.
  - now rewrite Hc.
  - now rewrite Hc.
  - destruct (constructor o); try reflexivity; exfalso;
      repeat (apply elem_of_cons in Hc as [Hc|Hc]; [discriminate Hc|]);
      now apply elem_of_nil in Hc.
  - rewrite Hc. cbn. destruct (field 2 o) as [body|]; [|reflexivity].
    intros b Hb. now rewrite (bind_Ok _ _ _ _ _ (get_Some _ _ _ Hb)).
  - rewrite Hc. cbn. unfold ifBranch.
    destruct (field 2 o); [reflexivity|]. now destruct (field 1 o).
Qed.

Lemma statementLevelTerminal_by_class_witness :
  statementLevelTerminal 1 0 [with_declaredOnly true (new Function)]
  = (Ok ";", [with_declaredOnly true (new Function)]).
Proof.
  exact (proj1 (proj2 (proj2
    (statementLevelTerminal_by_class 0 [with_declaredOnly true (new Function)]
       0 (with_declaredOnly true (new Function)) eq_refl))) eq_refl).
Defined.

(** ** Rendering without cached text *)

(** C10, at the input where the code departs from it: a [TypeParameter]
    named [T] whose cached text is unset renders as [T], although it
    inherits the throwing [CodeNode.buildString]; and when a text is
    cached on it, [toString()] does not return that text either.
    [TypeParameter] is the one class that declares [toString] instead of
    [buildString], so its renders bypass the cache contract documented on
    [CodeNode.toString]. *)
Lemma TypeParameter_renders_without_text :
  let tp := with_name "T" (new TypeParameter) in
  text tp = None
  /\ overridesBuildString (constructor tp) = false
  /\ toString noCompositionRule 1 0 [tp] = (Ok "T", [tp])
  /\ toString noCompositionRule 1 0 [with_text (Some "T /* any */") tp]
     = (Ok "T", [with_text (Some "T /* any */") tp])
  /\ ~ render_needs_text_or_buildString.
Proof.
  repeat split.
  intros H.
  destruct (H noCompositionRule 1%nat [with_name "T" (new TypeParameter)]
              [with_name "T" (new TypeParameter)] 0%nat
              (with_name "T" (new TypeParameter)) "T" eq_refl eq_refl)
    as [Ht|Hb].
  - now apply Ht.
  - discriminate Hb.
Qed.

Lemma buildString_CodeNode
    (compositionRule : Class -> (Ref -> M string) -> Ref -> M string)
    (render terminal : Ref -> M string) (st : Store) (this : Ref) (o : Obj) :
  st !! this = Some o ->
  resolve declaresBuildString (constructor o) = CodeNode ->
  buildString compositionRule render terminal this st
  = (Raise NoTextFound, st).
Proof.
  intros Hthis Hc. unfold buildString.
  rewrite (bind_Ok _ _ _ _ _ (get_Some _ _ _ Hthis)), Hc. reflexivity.
Qed.

Lemma buildString_AbstractBlock
    (compositionRule : Class -> (Ref -> M string) -> Ref -> M string)
    (render terminal : Ref -> M string) (st : Store) (this : Ref) (o : Obj) :
  st !! this = Some o ->
  resolve declaresBuildString (constructor o) = AbstractBlock ->
  buildString compositionRule render terminal this st
  = (Raise BlockIsAbstract, st).
Proof.
  intros Hthis Hc. unfold buildString.
  rewrite (bind_Ok _ _ _ _ _ (get_Some _ _ _ Hthis)), Hc. reflexivity.
Qed.

(** With the text set, [CodeNode.toString] returns it and touches
    nothing. *)
Lemma CodeNode_toString_cached
    (compositionRule : Class -> (Ref -> M string) -> Ref -> M string)
    (render terminal : Ref -> M string) (st : Store) (this : Ref) (o : Obj)
    (t : string) :
  st !! this = Some o -> text o = Some t ->
  CodeNode_toString compositionRule render terminal this st = (Ok t, st).
Proof.
  intros Hthis Ht. unfold CodeNode_toString.
  rewrite (bind_Ok _ _ _ _ _ (get_Some _ _ _ Hthis)), Ht. reflexivity.
Qed.

Lemma CodeNode_toString_unset_Raise
    (compositionRule : Class -> (Ref -> M string) -> Ref -> M string)
    (render terminal : Ref -> M string) (st st' : Store) (this : Ref)
    (o : Obj) (e : Error) :
  st !! this = Some o -> text o = None ->
  buildString compositionRule render terminal this st = (Raise e, st') ->
  CodeNode_toString compositionRule render terminal this st = (Raise e, st').
Proof.
  intros Hthis Ht Hb. unfold CodeNode_toString.
  rewrite (bind_Ok _ _ _ _ _ (get_Some _ _ _ Hthis)), Ht.
  now rewrite (bind_Raise _ _ _ _ _ Hb).
Qed.

(** [toString] is [CodeNode.toString] for every class but
    [TypeParameter]. *)
Lemma toString_unfold
    (compositionRule : Class -> (Ref -> M string) -> Ref -> M string)
    (fuel : nat) (st : Store) (this : Ref) (o : Obj) :
  st !! this = Some o -> constructor o <> TypeParameter ->
  toString compositionRule (S fuel) this st
  = CodeNode_toString compositionRule (toString compositionRule fuel)
      (statementLevelTerminal fuel) this st.
Proof.
  intros Hthis Hc. cbn [toString].
  rewrite (bind_Ok _ _ _ _ _ (get_Some _ _ _ Hthis)).
  destruct (constructor o); try reflexivity. now contradiction Hc.
Qed.

(** Rendering without cached text, for every class: [toString()] on a
    node whose constructor is [CodeNode] itself, or [AbstractBlock]
    itself, and whose cached text is unset throws (and leaves the store
    alone); and whenever a render succeeds, the cached text was set, or
    the class inherits a [buildString] other than those two, or the class
    is [TypeParameter]. *)
Theorem toString_without_text
    (compositionRule : Class -> (Ref -> M string) -> Ref -> M string)
    (fuel : nat) (st : Store) (this : Ref) (o : Obj)
    (Hthis : st !! this = Some o) :
  (text o = None -> constructor o = CodeNode ->
     toString compositionRule (S fuel) this st = (Raise NoTextFound, st))
  /\ (text o = None -> constructor o = AbstractBlock ->
        toString compositionRule (S fuel) this st
        = (Raise BlockIsAbstract, st))
  /\ (forall s st',
        toString compositionRule fuel this st = (Ok s, st') ->
        text o <> None
        \/ overridesBuildString (constructor o) = true
        \/ constructor o = TypeParameter).
Proof.
  repeat split.
  - intros Ht Hc.
    rewrite (toString_unfold _ _ _ _ _ Hthis) by (rewrite Hc; discriminate).
    apply (CodeNode_toString_unset_Raise _ _ _ _ _ _ _ _ Hthis Ht).
    apply (buildString_CodeNode _ _ _ _ _ _ Hthis). now rewrite Hc.
  - intros Ht Hc.
    rewrite (toString_unfold _ _ _ _ _ Hthis) by (rewrite Hc; discriminate).
    apply (CodeNode_toString_unset_Raise _ _ _ _ _ _ _ _ Hthis Ht).
    apply (buildString_AbstractBlock _ _ _ _ _ _ Hthis). now rewrite Hc.
  - intros s st' H.
    destruct (text o) eqn:Ht; [left; discriminate|right].
    destruct fuel as [|fuel]; [discriminate H|].
    destruct (Class_eqb (constructor o) TypeParameter) eqn:Htp;
      [right; now apply Class_eqb_eq|left].
    assert (Hne : constructor o <> TypeParameter).
    { intros Hc. apply Class_eqb_eq in Hc. congruence. }
    rewrite (toString_unfold _ _ _ _ _ Hthis Hne) in H.
    destruct (overridesBuildString (constructor o)) eqn:Hov; [reflexivity|].
    exfalso. unfold overridesBuildString in Hov.
    apply andb_false_iff in Hov as [Hov|Hov];
      apply negb_false_iff, Class_eqb_eq in Hov.
    + rewrite (CodeNode_toString_unset_Raise _ _ _ _ _ _ _ _ Hthis Ht
                 (buildString_CodeNode _ _ _ _ _ _ Hthis Hov)) in H.
      discriminate H.
    + rewrite (CodeNode_toString_unset_Raise _ _ _ _ _ _ _ _ Hthis Ht
                 (buildString_AbstractBlock _ _ _ _ _ _ Hthis Hov)) in H.
      discriminate H.
Qed.

Lemma toString_without_text_witness :
  toString noCompositionRule 1 0 [new AbstractBlock]
  = (Raise BlockIsAbstract, [new AbstractBlock]).
Proof.
  exact (proj1 (proj2
    (toString_without_text noCompositionRule 0 [new AbstractBlock] 0
       (new AbstractBlock) eq_refl)) eq_refl eq_refl).
Defined.

(** ** Invalidation never touches a base [CodeNode] *)

Lemma keeps_ret {A} (r : Ref) (o : Obj) (a : A) : keeps r o (ret a).
Proof. intros st H. exact H. Qed.

Lemma keeps_raise {A} (r : Ref) (o : Obj) (e : Error) :
  keeps r o (raise e : M A).
Proof. intros st H. exact H. Qed.

Lemma keeps_diverge {A} (r : Ref) (o : Obj) : keeps r o (diverge : M A).
Proof. intros st H. exact H. Qed.

Lemma keeps_get (r : Ref) (o : Obj) (r' : Ref) : keeps r o (get r').
Proof. intros st H. unfold get. now destruct (st !! r'). Qed.

Lemma keeps_bind {A B} (r : Ref) (o : Obj) (m : M A) (k : A -> M B) :
  keeps r o m -> (forall a, keeps r o (k a)) -> keeps r o (bind m k).
Proof.
  intros Hm Hk st H. unfold bind. specialize (Hm st H).
  destruct (m st) as [[a|e|] st']; simpl in Hm; [|exact Hm|exact Hm].
  now apply Hk.
Qed.

Lemma keeps_modify_other (r : Ref) (o : Obj) (r' : Ref) (f : Obj -> Obj) :
  r' <> r -> keeps r o (modify r' f).
Proof.
  intros Hne st H. unfold modify. destruct (st !! r'); [|exact H].
  simpl. now rewrite list_lookup_insert_ne.
Qed.

Lemma keeps_getChildren (r : Ref) (o : Obj) (r' : Ref) :
  keeps r o (getChildren r').
Proof.
  unfold getChildren. apply keeps_bind; [apply keeps_get|].
  intros a. apply keeps_ret.
Qed.

Lemma markDirty_default_keeps (r : Ref) (o : Obj) (c : Ref) :
  constructor o = CodeNode -> keeps r o (markDirty_default c).
Proof.
  intros Hbase st H. unfold markDirty_default, bind, get.
  destruct (st !! c) as [oc|] eqn:Hc; [|exact H].
  destruct (Class_eqb (constructor oc) CodeNode) eqn:Heq; [exact H|].
  assert (Hne : c <> r).
  { intros ->. rewrite H in Hc. injection Hc as <-.
    rewrite Hbase in Heq. discriminate Heq. }
  pose proof (keeps_modify_other r o c (with_text None) Hne st H) as Hm.
  destruct (modify c (with_text None) st) as [[[]|e|] st']; exact Hm.
Qed.

Lemma findChild_loop_keeps (r : Ref) (o : Obj) (predicateF : Ref -> M bool) :
  (forall n, keeps r o (predicateF n)) ->
  forall fuel queue, keeps r o (findChild_loop fuel predicateF queue).
Proof.
  intros Hp fuel. induction fuel as [|fuel IH]; intros queue.
  - apply keeps_diverge.
  - destruct queue as [|next queue']; [apply keeps_ret|].
    cbn [findChild_loop]. apply keeps_bind; [apply Hp|].
    intros [|]; [apply keeps_ret|].
    apply keeps_bind; [apply keeps_getChildren|]. intros cs. apply IH.
Qed.

Lemma walkChildren_keeps (r : Ref) (o : Obj) (walker : Ref -> M unit) :
  (forall n, keeps r o (walker n)) ->
  forall fuel includeSelf this,
    keeps r o (walkChildren fuel walker includeSelf this).
Proof.
  intros Hw fuel includeSelf this. unfold walkChildren, findChild.
  apply keeps_bind; [|intros; apply keeps_ret].
  apply keeps_bind.
  - destruct includeSelf; [apply keeps_ret|apply keeps_getChildren].
  - intros queue. apply findChild_loop_keeps. intros n.
    apply keeps_bind; [apply Hw|]. intros; apply keeps_ret.
Qed.

Lemma markDirty_keeps (r : Ref) (o : Obj) (fuel : nat) (recursive : bool)
    (this : Ref) :
  constructor o = CodeNode -> keeps r o (markDirty fuel recursive this).
Proof.
  intros Hbase st H. unfold markDirty. unfold bind at 1, get.
  destruct (st !! this) as [ot|] eqn:Ht; [|exact H].
  destruct (Class_eqb (constructor ot) CodeNode) eqn:Heq; [exact H|].
  assert (Hne : this <> r).
  { intros ->. rewrite H in Ht. injection Ht as <-.
    rewrite Hbase in Heq. discriminate Heq. }
  refine (keeps_bind r o _ _ _ _ st H); clear st H Ht.
  { now apply keeps_modify_other. }
  intros _.
  apply keeps_bind; [|intros; apply keeps_ret].
  destruct recursive; [|apply keeps_ret].
  apply walkChildren_keeps. intros n.
  apply keeps_bind; [now apply markDirty_default_keeps|].
  intros; apply keeps_ret.
Qed.

(** ** The recursive walk terminates on a well-founded child graph *)

Lemma subtreeSize_stable (kids : Ref -> option (list Ref))
    (rank : Ref -> nat) :
  well_founded_graph kids rank ->
  forall n m r, (rank r <= n)%nat -> (rank r <= m)%nat ->
    subtreeSize kids n r = subtreeSize kids m r.
Proof.
  intros Hwf. induction n as [|n IH]; intros m r Hn Hm.
  - destruct m as [|m]; [reflexivity|]. cbn [subtreeSize].
    destruct (kids r) as [cs|] eqn:Hk; [|reflexivity].
    destruct cs as [|c cs]; [reflexivity|].
    destruct (Hwf r _ c Hk (list_elem_of_here _ _)) as [Hlt _]. lia.
  - destruct m as [|m]; cbn [subtreeSize].
    + destruct (kids r) as [cs|] eqn:Hk; [|reflexivity].
      destruct cs as [|c cs]; [reflexivity|].
      destruct (Hwf r _ c Hk (list_elem_of_here _ _)) as [Hlt _]. lia.
    + destruct (kids r) as [cs|] eqn:Hk; [|reflexivity].
      do 2 f_equal. apply map_ext_in. intros c Hc.
      apply list_elem_of_In in Hc.
      destruct (Hwf r _ c Hk Hc) as [Hlt _]. apply IH; lia.
Qed.

(** The number of loop iterations a queue costs. *)
Lemma subtreeSize_unfold (kids : Ref -> option (list Ref))
    (rank : Ref -> nat) (r : Ref) (cs : list Ref) :
  well_founded_graph kids rank -> kids r = Some cs ->
  subtreeSize kids (rank r) r
  = S (list_sum (map (fun c => subtreeSize kids (rank c) c) cs)).
Proof.
  intros Hwf Hk.
  rewrite (subtreeSize_stable kids rank Hwf (rank r) (S (rank r)) r)
    by lia.
  cbn [subtreeSize]. rewrite Hk. do 2 f_equal.
  apply map_ext_in. intros c Hc. apply list_elem_of_In in Hc.
  destruct (Hwf r _ c Hk Hc) as [Hlt _].
  apply (subtreeSize_stable kids rank Hwf); lia.
Qed.

Lemma childrenOf_getChildren (st : Store) (r : Ref) (cs : list Ref) :
  childrenOf st r = Some cs -> getChildren r st = (Ok cs, st).
Proof.
  unfold childrenOf, getChildren. intros H.
  destruct (st !! r) as [o|] eqn:Hr; [|discriminate H].
  injection H as <-. now rewrite (bind_Ok _ _ _ _ _ (get_Some _ _ _ Hr)).
Qed.

(** [markDirty()] on a node that exists returns normally and keeps the
    child graph. *)
Lemma markDirty_default_shape (st : Store) (c : Ref) :
  is_Some (st !! c) ->
  exists st',
    markDirty_default c st = (Ok c, st')
    /\ forall r, childrenOf st' r = childrenOf st r.
Proof.
  intros [o Hc]. unfold markDirty_default.
  rewrite (bind_Ok _ _ _ _ _ (get_Some _ _ _ Hc)).
  destruct (Class_eqb (constructor o) CodeNode); [now exists st|].
  rewrite (bind_Ok _ _ _ _ _ (modify_Some _ _ _ _ Hc)).
  eexists. split; [reflexivity|]. intros r. unfold childrenOf.
  destruct (decide (r = c)) as [->|Hne].
  - rewrite list_lookup_insert_eq by (now apply lookup_lt_Some in Hc).
    now rewrite Hc.
  - now rewrite list_lookup_insert_ne by congruence.
Qed.

Lemma findChild_loop_terminates (kids : Ref -> option (list Ref))
    (rank : Ref -> nat) :
  well_founded_graph kids rank ->
  forall fuel queue st,
    (forall r, childrenOf st r = kids r) ->
    (forall q, q ∈ queue -> is_Some (kids q)) ->
    (list_sum (map (fun q => subtreeSize kids (rank q) q) queue) < fuel)%nat ->
    exists st',
      findChild_loop fuel (fun n => (markDirty_default n ;;; ret tt) ;;;
                                    ret false) queue st
      = (Ok None, st')
      /\ forall r, childrenOf st' r = kids r.
Proof.
  intros Hwf. induction fuel as [|fuel IH]; intros queue st Hshape Hq Hlt;
    [lia|].
  destruct queue as [|next queue]; [now exists st|].
  cbn [findChild_loop].
  destruct (Hq next (list_elem_of_here _ _)) as [cs Hk].
  assert (Hnext : is_Some (st !! next)).
  { specialize (Hshape next). rewrite Hk in Hshape. unfold childrenOf in Hshape.
    destruct (st !! next); [eauto|discriminate Hshape]. }
  destruct (markDirty_default_shape st next Hnext) as (st1 & Hm & Hsame).
  unfold bind at 1. unfold bind at 1. unfold bind at 1. rewrite Hm.
  cbn [ret].
  assert (Hshape1 : forall r, childrenOf st1 r = kids r).
  { intros r. now rewrite Hsame. }
  rewrite (bind_Ok _ _ _ _ _
             (childrenOf_getChildren st1 next cs
                ltac:(now rewrite Hshape1))).
  apply IH; [exact Hshape1| |].
  - intros q Hin. apply elem_of_app in Hin as [Hin|Hin].
    + apply Hq. now apply list_elem_of_further.
    + now destruct (Hwf next cs q Hk Hin).
  - cbn [map] in Hlt.
    rewrite (subtreeSize_unfold kids rank next cs Hwf Hk) in Hlt.
    change (list_sum (?x :: ?l)) with (x + list_sum l)%nat in Hlt.
    rewrite map_app, list_sum_app. lia.
Qed.

(** On a store whose child graph is well founded, [markDirty] with fuel
    for the subtree below [this] returns [this]. *)
Lemma markDirty_terminates (kids : Ref -> option (list Ref))
    (rank : Ref -> nat) (st : Store) (this : Ref) (fuel : nat)
    (recursive : bool) :
  well_founded_graph kids rank ->
  (forall r, childrenOf st r = kids r) ->
  is_Some (st !! this) ->
  (subtreeSize kids (rank this) this <= fuel)%nat ->
  fst (markDirty fuel recursive this st) = Ok this.
Proof.
  intros Hwf Hshape [o Hthis] Hfuel. unfold markDirty.
  rewrite (bind_Ok _ _ _ _ _ (get_Some _ _ _ Hthis)).
  destruct (Class_eqb (constructor o) CodeNode); [reflexivity|].
  rewrite (bind_Ok _ _ _ _ _ (modify_Some _ _ _ _ Hthis)).
  destruct recursive; [|reflexivity].
  set (st1 := <[this := with_text None o]> st).
  assert (Hshape1 : forall r, childrenOf st1 r = kids r).
  { intros r. rewrite <- Hshape. unfold childrenOf, st1.
    destruct (decide (r = this)) as [->|Hne].
    - rewrite list_lookup_insert_eq by (now apply lookup_lt_Some in Hthis).
      now rewrite Hthis.
    - now rewrite list_lookup_insert_ne by congruence. }
  assert (Hk : exists cs, kids this = Some cs).
  { rewrite <- Hshape. unfold childrenOf. rewrite Hthis. eauto. }
  destruct Hk as [cs Hk].
  rewrite (subtreeSize_unfold kids rank this cs Hwf Hk) in Hfuel.
  destruct (findChild_loop_terminates kids rank Hwf fuel cs st1 Hshape1)
    as (st' & Hloop & _);
    [intros q Hin; now destruct (Hwf this cs q Hk Hin)|lia|].
  unfold walkChildren, findChild.
  unfold bind at 1. unfold bind at 1. unfold bind at 1.
  rewrite (childrenOf_getChildren st1 this cs ltac:(now rewrite Hshape1)).
  now rewrite Hloop.
Qed.

(** [markDirty()] and [markDirty(false)] are the same call. *)
Lemma markDirty_false (fuel : nat) (this : Ref) (st : Store) :
  markDirty fuel false this st = markDirty_default this st.
Proof.
  unfold markDirty, markDirty_default, bind, get.
  destruct (st !! this) as [o|]; [|reflexivity].
  destruct (Class_eqb (constructor o) CodeNode); [reflexivity|].
  unfold ret. now destruct (modify this (with_text None) st) as [[[]|e|] st'].
Qed.

(** C5: a node whose constructor is exactly [CodeNode] is left as it is by
    [markDirty], recursive or not, called on the node itself (the call
    returns at once) or on any other node [ancestor] whose recursive walk
    may reach it: in whatever store that call ends, the node is unchanged
    and a later [toString()] still returns its cached text.  Where the
    child graph is well founded and the fuel covers the subtree below
    [ancestor], the call on [ancestor] does return. *)
Theorem markDirty_keeps_base_CodeNode
    (compositionRule : Class -> (Ref -> M string) -> Ref -> M string)
    (fuel fuel' : nat) (recursive : bool) (st : Store)
    (ancestor this : Ref) (o : Obj)
    (Hthis : st !! this = Some o) (Hbase : constructor o = CodeNode) :
  markDirty fuel recursive this st = (Ok this, st)
  /\ (let st' := snd (markDirty fuel recursive ancestor st) in
      st' !! this = Some o
      /\ forall t, text o = Some t ->
           toString compositionRule (S fuel') this st' = (Ok t, st'))
  /\ (forall kids rank,
        well_founded_graph kids rank ->
        (forall r, childrenOf st r = kids r) ->
        is_Some (st !! ancestor) ->
        (subtreeSize kids (rank ancestor) ancestor <= fuel)%nat ->
        fst (markDirty fuel recursive ancestor st) = Ok ancestor).
Proof.
  split; [|split].
  - unfold markDirty.
    rewrite (bind_Ok _ _ _ _ _ (get_Some _ _ _ Hthis)), Hbase. reflexivity.
  - intros st'.
    assert (H' : st' !! this = Some o)
      by exact (markDirty_keeps this o fuel recursive ancestor Hbase st Hthis).
    split; [exact H'|]. intros t Ht.
    rewrite (toString_unfold _ _ _ _ _ H') by (rewrite Hbase; discriminate).
    now apply (CodeNode_toString_cached _ _ _ _ _ o).
  - intros kids rank Hwf Hshape Ha Hfuel.
    now apply (markDirty_terminates kids rank).
Qed.

Lemma dirtyExample_well_founded :
  well_founded_graph (childrenOf dirtyExample)
    (fun r => match r with O => 1%nat | _ => 0%nat end).
Proof.
  intros r cs c Hk Hc.
  destruct r as [|[|[|r]]]; cbv in Hk; try discriminate Hk;
    injection Hk as <-.
  - apply elem_of_cons in Hc as [->|Hc]; [split; [lia|now eexists]|].
    apply elem_of_cons in Hc as [->|Hc]; [split; [lia|now eexists]|].
    now apply elem_of_nil in Hc.
  - now apply elem_of_nil in Hc.
  - now apply elem_of_nil in Hc.
Defined.

Lemma markDirty_keeps_base_CodeNode_witness :
  let st' := snd (markDirty 3 true 0 dirtyExample) in
  st' !! 1%nat = Some (with_text (Some "raw") (new CodeNode))
  /\ toString noCompositionRule 1 1 st' = (Ok "raw", st')
  /\ fst (markDirty 3 true 0 dirtyExample) = Ok 0%nat.
Proof.
  destruct (markDirty_keeps_base_CodeNode noCompositionRule 3 0 true
              dirtyExample 0 1 (with_text (Some "raw") (new CodeNode))
              eq_refl eq_refl) as [_ [[H1 H2] H3]].
  split; [exact H1|]. split; [exact (H2 "raw" eq_refl)|].
  apply (H3 _ _ dirtyExample_well_founded (fun _ => eq_refl)).
  - now eexists.
  - cbv. lia.
Defined.

(** On the same store the recursive walk does finish and does clear the
    other caches: the block is rebuilt around the frozen [raw]. *)
Example markDirty_recursive_example :
  let '(res, st') := markDirty 3 true 0 dirtyExample in
  res = Ok 0%nat
  /\ map text st' = [None; Some "raw"; None]
  /\ fst (toString noCompositionRule 2 0 st') = Ok "{raw;y;}".
Proof. vm_compute. repeat split. Qed.

(** A fallback node made by a lenient analysis stays frozen: after
    [markDirty(true)] on the root, the root is rebuilt from its elements
    and the fallback still contributes its original text. *)
Example fallback_freezing_example :
  let st := snd (SourceAnalyzer_analyze false noRule
                   (mkSourceAnalyzer 0
                      (mkSourceFile 0 "filename" "statementText"
                         [unknownStatement] None) true)
                   [with_fileName "filename" (new Source)]) in
  let '(res, st') := markDirty 2 true 0 st in
  res = Ok 0%nat
  /\ map text st' = [None; Some "statementText"]
  /\ fst (toString noCompositionRule 2 0 st')
     = Ok ("statementText;" +:+ String newline "").
Proof. vm_compute. repeat split. Qed.

(** ** Commas in expression blocks *)

Lemma lastNoSpaceIdx_lastTrue (rs : list (bool * string)) :
  forall i acc,
    lastNoSpaceIdx rs i acc
    = match lastTrue rs with
      | Some j => Some (i + j)%nat
      | None => acc
      end.
Proof.
  induction rs as [|r rest IH]; intros i acc; [reflexivity|].
  cbn [lastNoSpaceIdx lastTrue]. rewrite IH.
  destruct (lastTrue rest) as [j|].
  - f_equal. lia.
  - destruct (fst r); [f_equal; lia|reflexivity].
Qed.

Lemma lastTrue_None (rs : list (bool * string)) :
  lastTrue rs = None <-> existsb fst rs = false.
Proof.
  induction rs as [|r rest IH]; [easy|].
  cbn [lastTrue existsb]. destruct (lastTrue rest) as [j|].
  - split; [discriminate|]. intros H.
    apply orb_false_iff in H as [_ H]. apply IH in H. discriminate H.
  - destruct (fst r); [easy|]. simpl. split; [intros _; now apply IH|easy].
Qed.

Lemma append_cons (c : ascii) (a b : string) :
  String c a +:+ b = String c (a +:+ b).
Proof. reflexivity. Qed.

Lemma append_nil_l (a : string) : "" +:+ a = a.
Proof. reflexivity. Qed.

Lemma append_assoc (a b c : string) : (a +:+ b) +:+ c = a +:+ b +:+ c.
Proof.
  induction a as [|x a IH]; [reflexivity|].
  rewrite !append_cons. now f_equal.
Qed.

Lemma append_nil_r (a : string) : a +:+ "" = a.
Proof.
  induction a as [|x a IH]; [reflexivity|].
  rewrite append_cons. now f_equal.
Qed.

Lemma dropLast_comma (s : string) : dropLast (s +:+ ",") = s.
Proof.
  induction s as [|c s IH]; [reflexivity|].
  rewrite append_cons. cbn [dropLast]. rewrite IH. now destruct s.
Qed.

Lemma commaSeparated_no_semantic (rs : list (bool * string)) :
  existsb fst rs = false -> commaSeparated rs = join (markParts rs).
Proof.
  induction rs as [|r rest IH]; [reflexivity|].
  cbn [existsb]. intros H. apply orb_false_iff in H as [Hr Hrest].
  cbn [commaSeparated]. change (markParts (r :: rest))
    with ((if fst r then snd r +:+ "," else snd r) :: markParts rest).
  change (join (?p :: ?l)) with (p +:+ join l).
  rewrite Hr. cbn [andb]. rewrite (IH Hrest). reflexivity.
Qed.

Lemma markParts_cons (r : bool * string) (rest : list (bool * string)) :
  markParts (r :: rest)
  = (if fst r then snd r +:+ "," else snd r) :: markParts rest.
Proof. reflexivity. Qed.

Lemma join_cons (p : string) (parts : list string) :
  join (p :: parts) = p +:+ join parts.
Proof. reflexivity. Qed.

Lemma join_patch_lastTrue (rs : list (bool * string)) :
  forall j text,
    lastTrue rs = Some j -> markParts rs !! j = Some text ->
    join (<[j := dropLast text]> (markParts rs)) = commaSeparated rs.
Proof.
  induction rs as [|r rest IH]; intros j text Hj Hp; [discriminate Hj|].
  cbn [lastTrue] in Hj. cbn [commaSeparated].
  rewrite markParts_cons in *.
  destruct (lastTrue rest) as [j'|] eqn:Hrest.
  - injection Hj as <-. change (markParts rest !! j' = Some text) in Hp.
    change (<[S j' := ?x]> (?p :: ?l)) with (p :: <[j' := x]> l).
    rewrite join_cons, (IH j' text eq_refl Hp).
    assert (Hex : existsb fst rest = true).
    { destruct (existsb fst rest) eqn:E; [reflexivity|].
      apply lastTrue_None in E. congruence. }
    rewrite Hex, andb_true_r.
    destruct (fst r); [now rewrite append_assoc|reflexivity].
  - apply lastTrue_None in Hrest.
    destruct (fst r) eqn:Hr; [|discriminate Hj]. injection Hj as <-.
    injection Hp as <-.
    change (<[0%nat := ?x]> (?p :: ?l)) with (x :: l).
    rewrite join_cons, dropLast_comma, Hrest. cbn [andb].
    rewrite append_nil_l. f_equal. symmetry.
    now apply commaSeparated_no_semantic.
Qed.

Lemma lastTrue_lt (rs : list (bool * string)) (j : nat) :
  lastTrue rs = Some j -> (j < length rs)%nat.
Proof.
  revert j. induction rs as [|r rest IH]; intros j H; [discriminate H|].
  cbn [lastTrue] in H. simpl. destruct (lastTrue rest) as [j'|].
  - injection H as <-. specialize (IH j' eq_refl). lia.
  - destruct (fst r); [|discriminate H]. injection H as <-. lia.
Qed.

(** What the code assembles is what the comma rule describes. *)
Lemma expressionJoin_commaSeparated (rs : list (bool * string)) :
  expressionJoin rs = commaSeparated rs.
Proof.
  unfold expressionJoin. rewrite lastNoSpaceIdx_lastTrue.
  destruct (lastTrue rs) as [j|] eqn:Hj.
  - simpl. destruct (markParts rs !! j) as [text|] eqn:Hp.
    + now apply join_patch_lastTrue.
    + apply lookup_ge_None in Hp. apply lastTrue_lt in Hj.
      unfold markParts in Hp. rewrite length_map in Hp. lia.
  - symmetry. apply commaSeparated_no_semantic. now apply lastTrue_None.
Qed.

Lemma mapM_cons_Ok {A B} (f : A -> M B) (x : A) (rest : list A) (y : B)
    (ys : list B) (st st1 st2 : Store) :
  f x st = (Ok y, st1) -> mapM f rest st1 = (Ok ys, st2) ->
  mapM f (x :: rest) st = (Ok (y :: ys), st2).
Proof.
  intros Hx Hrest. cbn [mapM].
  rewrite (bind_Ok _ _ _ _ _ Hx). now rewrite (bind_Ok _ _ _ _ _ Hrest).
Qed.

Lemma renderElement_Ok (render : Ref -> M string) (st st' : Store) (v : Ref)
    (vo : Obj) (s : string) :
  st !! v = Some vo -> render v st = (Ok s, st') ->
  renderElement render v st
  = (Ok (negb (instanceOf (constructor vo) Trivia), s), st').
Proof.
  intros Hv Hr. unfold renderElement.
  rewrite (bind_Ok _ _ _ _ _ (get_Some _ _ _ Hv)).
  now rewrite (bind_Ok _ _ _ _ _ Hr).
Qed.

Lemma AbstractExpressionBlock_buildString_Ok (render : Ref -> M string)
    (st st' : Store) (this : Ref) (o : Obj) (rs : list (bool * string)) :
  st !! this = Some o ->
  mapM (renderElement render) (elements o) st = (Ok rs, st') ->
  AbstractExpressionBlock_buildString render this st
  = (Ok (expressionJoin rs), st').
Proof.
  intros Hthis Hm. unfold AbstractExpressionBlock_buildString.
  rewrite (bind_Ok _ _ _ _ _ (get_Some _ _ _ Hthis)).
  now rewrite (bind_Ok _ _ _ _ _ Hm).
Qed.

(** C6: [AbstractExpressionBlock.buildString], on any block, puts a comma
    after every non-trivia element except the last non-trivia one and
    nowhere else: whatever the elements render to, the result is the
    comma-separated text of [commaSeparated]; in particular the elements
    [[X; Trivia " "; Y]] give X's text, [", "], Y's text.  That method is
    the [buildString] of an [AbstractExpressionBlock]; [ArrayLiteral] and
    [ObjectLiteral] put their brackets around its result. *)
Theorem expression_block_commas
    (compositionRule : Class -> (Ref -> M string) -> Ref -> M string)
    (fuel : nat) (st : Store) (this : Ref) (o : Obj)
    (Hthis : st !! this = Some o) :
  let render := toString compositionRule fuel in
  let build :=
    buildString compositionRule render (statementLevelTerminal fuel) this in
  let commas := AbstractExpressionBlock_buildString render this in
  (forall rs st',
     mapM (renderElement render) (elements o) st = (Ok rs, st') ->
     commas st = (Ok (commaSeparated rs), st'))
  /\ (forall x t y ox ot oy sx sy st1 st2 st3,
        elements o = [x; t; y] ->
        st !! x = Some ox -> instanceOf (constructor ox) Trivia = false ->
        render x st = (Ok sx, st1) ->
        st1 !! t = Some ot -> constructor ot = Trivia ->
        render t st1 = (Ok " ", st2) ->
        st2 !! y = Some oy -> instanceOf (constructor oy) Trivia = false ->
        render y st2 = (Ok sy, st3) ->
        commas st = (Ok (sx +:+ ", " +:+ sy), st3))
  /\ (constructor o = AbstractExpressionBlock -> build st = commas st)
  /\ (constructor o = ArrayLiteral ->
      build st = (body <- commas ;; ret ("[" +:+ body +:+ "]")) st)
  /\ (constructor o = ObjectLiteral ->
      build st = (body <- commas ;; ret ("{" +:+ body +:+ "}")) st).
Proof.
  intros render build commas.
  assert (Hgen : forall rs st',
     mapM (renderElement render) (elements o) st = (Ok rs, st') ->
     commas st = (Ok (commaSeparated rs), st')).
  { intros rs st' Hm. rewrite <- expressionJoin_commaSeparated.
    now apply (AbstractExpressionBlock_buildString_Ok _ _ _ _ o). }
  split; [exact Hgen|]. split.
  - intros x t y ox ot oy sx sy st1 st2 st3
      Hel Hx Hxc Hxr Ht Htc Htr Hy Hyc Hyr.
    rewrite (Hgen [(true, sx); (false, " "); (true, sy)] st3).
    + cbn [commaSeparated fst snd existsb andb orb].
      now rewrite !append_nil_r.
    + rewrite Hel.
      pose proof (renderElement_Ok _ _ _ _ _ _ Hx Hxr) as Ex.
      pose proof (renderElement_Ok _ _ _ _ _ _ Ht Htr) as Et.
      pose proof (renderElement_Ok _ _ _ _ _ _ Hy Hyr) as Ey.
      rewrite Hxc in Ex. rewrite Htc in Et. rewrite Hyc in Ey.
      apply (mapM_cons_Ok _ _ _ _ _ _ _ _ Ex).
      apply (mapM_cons_Ok _ _ _ _ _ _ _ _ Et).
      now apply (mapM_cons_Ok _ _ _ _ _ _ _ _ Ey).
  - repeat split; intros Hc; subst build; unfold buildString;
      rewrite (bind_Ok _ _ _ _ _ (get_Some _ _ _ Hthis)), Hc; reflexivity.
Qed.

Lemma expression_block_commas_witness :
  exists st',
    AbstractExpressionBlock_buildString (toString noCompositionRule 1) 0
      commaExample
    = (Ok "X, Y", st').
Proof.
  eexists.
  refine (proj1 (proj2 (expression_block_commas noCompositionRule 1
            commaExample 0
            (with_elements [1; 2; 3]%nat (new AbstractExpressionBlock))
            eq_refl))
          1%nat 2%nat 3%nat _ _ _ "X" "Y" _ _ _
          eq_refl eq_refl eq_refl eq_refl eq_refl eq_refl eq_refl
          eq_refl eq_refl eq_refl).
Defined.

(** More elements: commas only between the semantic ones, none after the
    last, none on trivia. *)
Example expressionJoin_example :
  expressionJoin [(false, " "); (true, "a"); (true, "b"); (false, " ");
                  (true, "c"); (false, " ")]
  = " a,b, c ".
Proof. reflexivity. Qed.

(** ** The root's trailing newline *)

Lemma lastChar_append_char (s : string) (c : ascii) :
  lastChar (s +:+ String c "") = Some c.
Proof.
  induction s as [|d s IH]; [reflexivity|].
  rewrite append_cons. cbn [lastChar]. rewrite IH.
  destruct s; reflexivity.
Qed.

Lemma withTrailingNewline_ends (body : string) :
  endsWith newline (withTrailingNewline body) = true.
Proof.
  unfold withTrailingNewline.
  destruct (endsWith newline body) eqn:E; [exact E|].
  unfold endsWith. now rewrite lastChar_append_char.
Qed.

(** C8 as the one-newline rule is refuted: straight after analysis the
    root renders the file's own text, with no newline or with two; and a
    root rebuilt after [markDirty(true)] keeps both newlines of the second
    file. *)
Lemma root_render_not_one_newline :
  fst (toString noCompositionRule 1 0 (analyzed fileNoNewline))
  = Ok "debugger"
  /\ fst (toString noCompositionRule 1 0 (analyzed fileTwoNewlines))
     = Ok ("debugger;" +:+ twoNewlines)
  /\ fst (toString noCompositionRule 2 0
            (snd (markDirty 3 true 0 (analyzed fileTwoNewlines))))
     = Ok ("debugger;" +:+ twoNewlines)
  /\ trailingNewlines "debugger" = 0%nat
  /\ trailingNewlines ("debugger;" +:+ twoNewlines) = 2%nat
  /\ ~ root_render_one_newline.
Proof.
  repeat split; try (vm_compute; reflexivity).
  intros H.
  specialize (H true noRule noCompositionRule
                (mkSourceAnalyzer 0 fileNoNewline true) 1%nat
                [with_fileName "a.ts" (new Source)]
                (analyzed fileNoNewline) (analyzed fileNoNewline)
                0%nat "debugger").
  vm_compute in H. specialize (H eq_refl eq_refl). discriminate H.
Qed.

Lemma CodeNode_toString_unset_Ok
    (compositionRule : Class -> (Ref -> M string) -> Ref -> M string)
    (render terminal : Ref -> M string) (st st' : Store) (this : Ref)
    (o o' : Obj) (s : string) :
  st !! this = Some o -> text o = None ->
  buildString compositionRule render terminal this st = (Ok s, st') ->
  st' !! this = Some o' ->
  CodeNode_toString compositionRule render terminal this st
  = (Ok s, <[this := with_text (Some s) o']> st').
Proof.
  intros Hthis Ht Hb Hthis'. unfold CodeNode_toString.
  rewrite (bind_Ok _ _ _ _ _ (get_Some _ _ _ Hthis)), Ht.
  rewrite (bind_Ok _ _ _ _ _ Hb).
  now rewrite (bind_Ok _ _ _ _ _ (modify_Some _ _ _ _ Hthis')).
Qed.

(** C8 (amended): a [Source] whose cached text is set renders that text as
    it is; one whose cached text is unset renders the concatenation of its
    elements (each followed by its terminator) with a newline appended
    exactly when that concatenation does not already end with one.  The
    rebuilt text therefore always ends with a newline, and trailing
    newlines that are already there are all kept. *)
Theorem Source_render_newline
    (compositionRule : Class -> (Ref -> M string) -> Ref -> M string)
    (fuel : nat) (st : Store) (this : Ref) (o : Obj)
    (Hthis : st !! this = Some o) (Hclass : constructor o = Source) :
  (forall t, text o = Some t ->
     toString compositionRule (S fuel) this st = (Ok t, st))
  /\ (text o = None ->
      forall body st' o',
        AbstractStatementBlock_buildString (toString compositionRule fuel)
          (statementLevelTerminal fuel) this st = (Ok body, st') ->
        st' !! this = Some o' ->
        let result := withTrailingNewline body in
        toString compositionRule (S fuel) this st
        = (Ok result, <[this := with_text (Some result) o']> st')
        /\ endsWith newline result = true
        /\ (endsWith newline body = true -> result = body)
        /\ (endsWith newline body = false ->
            result = body +:+ String newline "")).
Proof.
  assert (Hne : constructor o <> TypeParameter)
    by (rewrite Hclass; discriminate).
  split.
  - intros t Ht. rewrite (toString_unfold _ _ _ _ _ Hthis Hne).
    now apply (CodeNode_toString_cached _ _ _ _ _ o).
  - intros Ht body st' o' Hbody Hthis' result. repeat split.
    + rewrite (toString_unfold _ _ _ _ _ Hthis Hne).
      apply (CodeNode_toString_unset_Ok _ _ _ _ _ _ o o'); try assumption.
      unfold buildString.
      rewrite (bind_Ok _ _ _ _ _ (get_Some _ _ _ Hthis)), Hclass.
      change (Source_buildString (toString compositionRule fuel)
                (statementLevelTerminal fuel) this st = (Ok result, st')).
      unfold Source_buildString. now rewrite (bind_Ok _ _ _ _ _ Hbody).
    + apply withTrailingNewline_ends.
    + intros E. subst result. unfold withTrailingNewline. now rewrite E.
    + intros E. subst result. unfold withTrailingNewline. now rewrite E.
Qed.

Lemma Source_render_newline_witness :
  fst (toString noCompositionRule 2 0 rootExample)
  = Ok ("debugger;" +:+ String newline "").
Proof.
  pose proof (Source_render_newline noCompositionRule 1 rootExample 0
                (with_elements [1%nat] (new Source)) eq_refl eq_refl)
    as [_ H].
  specialize (H eq_refl "debugger;"
                [ with_elements [1%nat] (new Source);
                  with_text (Some "debugger")
                    (with_token "debugger" (new Keyword)) ]
                (with_elements [1%nat] (new Source)) eq_refl eq_refl).
  destruct H as [H _]. rewrite H. reflexivity.
Defined.

(* ===================================================================== *)
(** ** The analyzer on the store *)
(* ===================================================================== *)

Lemma alloc_eq (o : Obj) (st : Store) :
  alloc o st = (Ok (length st), st ++ [o]).
Proof. reflexivity. Qed.

Lemma push_Some (st : Store) (block x : Ref) (ob : Obj) :
  st !! block = Some ob ->
  push block x st
  = (Ok tt, <[block := with_elements (elements ob ++ [x]) ob]> st).
Proof. intros H. unfold push. now rewrite (modify_Some _ _ _ _ H). Qed.

Lemma setText_Some (st : Store) (r : Ref) (o : Obj) (t : string) :
  st !! r = Some o ->
  setText r t st = (Ok r, <[r := with_text (Some t) o]> st).
Proof.
  intros H. unfold setText.
  now rewrite (bind_Ok _ _ _ _ _ (modify_Some _ _ _ _ H)).
Qed.

Lemma registerWithNode_Some (st : Store) (r : Ref) (o : Obj) (n : Origin) :
  st !! r = Some o ->
  registerWithNode r n st = (Ok r, <[r := with_node (Some n) o]> st).
Proof.
  intros H. unfold registerWithNode.
  now rewrite (bind_Ok _ _ _ _ _ (modify_Some _ _ _ _ H)).
Qed.

Lemma lookup_new (st : Store) (o : Obj) : (st ++ [o]) !! length st = Some o.
Proof. now rewrite list_lookup_middle. Qed.

Lemma lookup_old (st : Store) (o ob : Obj) (r : Ref) :
  st !! r = Some ob -> (st ++ [o]) !! r = Some ob.
Proof. intros H. rewrite lookup_app_l; [exact H|]. now apply lookup_lt_Some in H. Qed.

Lemma lookup_insert_same (st : Store) (r : Ref) (o o' : Obj) :
  st !! r = Some o -> <[r := o']> st !! r = Some o'.
Proof. intros H. apply list_lookup_insert_eq. now apply lookup_lt_Some in H. Qed.

Lemma addToBlock_spec (st : Store) (statement block : Ref) (e : TsNode)
    (os ob : Obj) :
  st !! statement = Some os -> st !! block = Some ob ->
  statement <> block ->
  exists st',
    addToBlock statement block e st = (Ok tt, st')
    /\ st' !! statement = Some (with_text (Some (expressionText e)) os)
    /\ st' !! block
       = Some (with_elements (elements ob ++ appended e (length st) statement)
                 ob)
    /\ (forall r o, r <> statement -> r <> block -> st !! r = Some o ->
          st' !! r = Some o)
    /\ (length st <= length st')%nat.
Proof.
  intros Hs Hb Hne. unfold addToBlock, addSpacingAndGetExpressionText.
  fold (filler e). fold (expressionText e). unfold appended.
  destruct (0 <? String.length (filler e))%nat.
  - set (tr := with_token (filler e) (new Trivia)).
    set (ob1 := with_elements (elements ob ++ [length st]) ob).
    set (st1 := <[block := ob1]> (st ++ [tr])).
    assert (Hb0 : (st ++ [tr]) !! block = Some ob) by now apply lookup_old.
    assert (Hb1 : st1 !! block = Some ob1)
      by now apply (lookup_insert_same _ _ ob).
    assert (Hs1 : st1 !! statement = Some os).
    { unfold st1. rewrite list_lookup_insert_ne by congruence.
      now apply lookup_old. }
    set (st2 := <[statement := with_text (Some (expressionText e)) os]> st1).
    assert (Hb2 : st2 !! block = Some ob1).
    { unfold st2. now rewrite list_lookup_insert_ne. }
    exists (<[block := with_elements (elements ob1 ++ [statement]) ob1]> st2).
    repeat split.
    + unfold bind at 1. unfold bind at 1. unfold bind at 1.
      rewrite alloc_eq. rewrite (push_Some _ _ _ _ Hb0). fold ob1 st1.
      unfold bind, ret. rewrite (setText_Some _ _ _ _ Hs1). fold st2.
      now rewrite (push_Some _ _ _ _ Hb2).
    + rewrite list_lookup_insert_ne by congruence.
      unfold st2. now apply (lookup_insert_same _ _ os).
    + rewrite (lookup_insert_same _ _ ob1) by exact Hb2.
      unfold ob1. cbn. now rewrite <- app_assoc.
    + intros r o Hr1 Hr2 Hr.
      rewrite list_lookup_insert_ne by congruence. unfold st2.
      rewrite list_lookup_insert_ne by congruence. unfold st1.
      rewrite list_lookup_insert_ne by congruence. now apply lookup_old.
    + unfold st2, st1. rewrite !length_insert, length_app. simpl. lia.
  - set (st2 := <[statement := with_text (Some (expressionText e)) os]> st).
    assert (Hb2 : st2 !! block = Some ob).
    { unfold st2. now rewrite list_lookup_insert_ne. }
    exists (<[block := with_elements (elements ob ++ [statement]) ob]> st2).
    repeat split.
    + unfold bind at 1. unfold bind at 1. unfold ret at 1.
      unfold bind, ret. rewrite (setText_Some _ _ _ _ Hs). fold st2.
      now rewrite (push_Some _ _ _ _ Hb2).
    + rewrite list_lookup_insert_ne by congruence.
      unfold st2. now apply (lookup_insert_same _ _ os).
    + now rewrite (lookup_insert_same _ _ ob) by exact Hb2.
    + intros r o Hr1 Hr2 Hr.
      rewrite list_lookup_insert_ne by congruence. unfold st2.
      now rewrite list_lookup_insert_ne by congruence.
    + unfold st2. rewrite !length_insert. lia.
Qed.

(** *** What an analysis step may change *)

Lemma with_elements_same (o : Obj) : with_elements (elements o) o = o.
Proof. now destruct o. Qed.

Lemma grows_refl (block : Ref) (st : Store) : grows block 0 st st.
Proof.
  split; [auto|]. intros ob H. exists []. split; [|simpl; lia].
  now rewrite app_nil_r, with_elements_same.
Qed.

Lemma grows_trans (block : Ref) (n m : nat) (st st1 st2 : Store) :
  grows block n st st1 -> grows block m st1 st2 ->
  grows block (n + m) st st2.
Proof.
  intros [Ho1 Hb1] [Ho2 Hb2]. split; [auto|].
  intros ob H. destruct (Hb1 ob H) as (es1 & H1 & Hn).
  destruct (Hb2 _ H1) as (es2 & H2 & Hm).
  exists (es1 ++ es2). split.
  - rewrite H2. cbn. now rewrite app_assoc.
  - rewrite length_app. lia.
Qed.

Lemma grows_weaken (block : Ref) (n m : nat) (st st' : Store) :
  (m <= n)%nat -> grows block n st st' -> grows block m st st'.
Proof.
  intros Hle [Ho Hb]. split; [exact Ho|].
  intros ob H. destruct (Hb ob H) as (es & H1 & Hn).
  exists es. split; [exact H1|lia].
Qed.

Lemma grows_prefix (block : Ref) (st st' : Store) :
  st `prefix_of` st' -> grows block 0 st st'.
Proof.
  intros Hp. split.
  - intros r o _ H. now apply (prefix_lookup_Some st).
  - intros ob H. exists []. split; [|simpl; lia].
    rewrite app_nil_r, with_elements_same. now apply (prefix_lookup_Some st).
Qed.

Lemma insert_new (st : Store) (o o' : Obj) :
  <[length st := o']> (st ++ [o]) = st ++ [o'].
Proof.
  rewrite insert_app_r_alt by lia. now rewrite Nat.sub_diag.
Qed.

Lemma fallbackNode_eq (e : TsNode) (st : Store) :
  fallbackNode e st
  = (Ok (length st),
     st ++ [with_text (Some (getText e))
              (with_node (Some (OfNode e)) (new CodeNode))]).
Proof.
  unfold fallbackNode. rewrite (bind_Ok _ _ _ _ _ (alloc_eq _ _)).
  rewrite (bind_Ok _ _ _ _ _
             (registerWithNode_Some _ _ _ _ (lookup_new _ _))).
  rewrite insert_new.
  rewrite (bind_Ok _ _ _ _ _ (setText_Some _ _ _ _ (lookup_new _ _))).
  now rewrite insert_new.
Qed.

(** [new C(token)], [registerWithNode(statement)],
    [setText(statement.getText())]. *)
Lemma simple_statement_eq (o : Obj) (statement : TsNode) (st : Store) :
  (result <- alloc o ;;
   registerWithNode result (OfNode statement) ;;;
   setText result (getText statement)) st
  = (Ok (length st),
     st ++ [with_text (Some (getText statement))
              (with_node (Some (OfNode statement)) o)]).
Proof.
  rewrite (bind_Ok _ _ _ _ _ (alloc_eq _ _)).
  rewrite (bind_Ok _ _ _ _ _
             (registerWithNode_Some _ _ _ _ (lookup_new _ _))).
  rewrite insert_new.
  rewrite (setText_Some _ _ _ _ (lookup_new _ _)).
  now rewrite insert_new.
Qed.

Lemma allocates_only_append (o : Obj) (st : Store) :
  st `prefix_of` (st ++ [o])
  /\ forall r, Ok (length st) = Ok r ->
       (length st <= r < length (st ++ [o]))%nat.
Proof.
  split; [now apply prefix_app_r|].
  intros r [= <-]. rewrite length_app. simpl. lia.
Qed.

Lemma failAnalysis_allocates {A} (n : TsNode) (type : string) (st : Store)
    (res : outcome A) (st' : Store) :
  failAnalysis n type st = (res, st') ->
  st' = st /\ res = Raise (CouldNotAnalyze type (getText n) (kind n)).
Proof. intros [= <- <-]. now split. Qed.

Lemma analyzeStatement_allocates (rule : bool -> TsNode -> M Ref)
    (rec : bool) :
  (forall rec, allocates_only (rule rec)) ->
  allocates_only (analyzeStatement rule rec).
Proof.
  intros Hrule e st res st' H. unfold analyzeStatement in H.
  destruct (kind e);
    try (now apply (Hrule rec e));
    try (apply failAnalysis_allocates in H as [-> ->];
         split; [reflexivity|discriminate]);
    rewrite simple_statement_eq in H; injection H as <- <-;
    apply allocates_only_append.
Qed.

Lemma analyzeModuleElement_allocates (rule : bool -> TsNode -> M Ref)
    (rec : bool) :
  (forall rec, allocates_only (rule rec)) ->
  allocates_only (analyzeModuleElement rule rec).
Proof.
  intros Hrule e st res st' H. unfold analyzeModuleElement in H.
  destruct (kind e) eqn:Hk;
    try (now apply (Hrule rec e));
    now apply (analyzeStatement_allocates rule rec Hrule e).
Qed.

Lemma appended_length (e : TsNode) (n : nat) (statement : Ref) :
  (1 <= length (appended e n statement))%nat.
Proof.
  unfold appended. destruct (0 <? String.length (filler e))%nat; simpl; lia.
Qed.

Lemma appended_last (e : TsNode) (n : nat) (statement : Ref) (es : list Ref) :
  last (es ++ appended e n statement) = Some statement.
Proof.
  unfold appended. destruct (0 <? String.length (filler e))%nat.
  - change [n; statement] with ([n] ++ [statement]).
    now rewrite app_assoc, last_snoc.
  - now rewrite last_snoc.
Qed.

(** Appending a node that did not exist in [st] to the block is a growth
    step from [st]. *)
Lemma addToBlock_grows (st st1 : Store) (statement block : Ref) (e : TsNode)
    (ob : Obj) (res : outcome unit) (st' : Store) :
  st `prefix_of` st1 -> st !! block = Some ob ->
  (length st <= statement < length st1)%nat ->
  addToBlock statement block e st1 = (res, st') ->
  res = Ok tt /\ grows block 1 st st' /\ (length st <= length st')%nat.
Proof.
  intros Hp Hb [Hlo Hhi] H.
  pose proof (lookup_lt_Some _ _ _ Hb) as Hblt.
  destruct (lookup_lt_is_Some_2 _ _ Hhi) as [os Hs].
  assert (Hne : statement <> block) by lia.
  destruct (addToBlock_spec st1 statement block e os ob Hs
              (prefix_lookup_Some _ _ _ _ Hb Hp) Hne)
    as (st'' & Heq & _ & Hb' & Hothers & Hlen).
  rewrite Heq in H. injection H as <- <-.
  split; [reflexivity|]. split; [split|].
  - intros r o Hr Hro. apply Hothers; [|exact Hr|].
    + apply lookup_lt_Some in Hro. lia.
    + now apply (prefix_lookup_Some st).
  - intros ob0 Hb0. rewrite Hb in Hb0. injection Hb0 as <-.
    eexists. split; [exact Hb'|apply appended_length].
  - apply prefix_length in Hp. lia.
Qed.

Lemma analyzeElement_grows (strictMode : bool) (block : Ref)
    (elementAnalyzer : TsNode -> M Ref) (e : TsNode) (st st' : Store)
    (ob : Obj) (res : outcome unit) :
  allocates_only elementAnalyzer -> st !! block = Some ob ->
  analyzeElement strictMode block elementAnalyzer e st = (res, st') ->
  grows block (steps res 1) st st' /\ (length st <= length st')%nat.
Proof.
  intros Hea Hb H. unfold analyzeElement, bind, try_catch in H.
  destruct (elementAnalyzer e st) as [[r|err|] st1] eqn:E;
    destruct (Hea _ _ _ _ E) as [Hp Hfresh].
  - destruct (addToBlock_grows st st1 r block e ob res st' Hp Hb
                (Hfresh r eq_refl) H) as (-> & Hg & Hl).
    now split.
  - destruct strictMode.
    + injection H as <- <-. split; [now apply grows_prefix|].
      now apply prefix_length.
    + rewrite fallbackNode_eq in H.
      assert (Hp' : st `prefix_of` (st1 ++
                [with_text (Some (getText e))
                   (with_node (Some (OfNode e)) (new CodeNode))])).
      { etransitivity; [exact Hp|]. now apply prefix_app_r. }
      assert (Hr : (length st <= length st1
                    < length (st1 ++
                        [with_text (Some (getText e))
                           (with_node (Some (OfNode e)) (new CodeNode))]))%nat).
      { apply prefix_length in Hp. rewrite length_app. simpl. lia. }
      destruct (addToBlock_grows _ _ _ block e ob res st' Hp' Hb Hr H)
        as (-> & Hg & Hl).
      now split.
  - injection H as <- <-. split; [now apply grows_prefix|].
    now apply prefix_length.
Qed.

Lemma forEach_grows (strictMode : bool) (block : Ref)
    (elementAnalyzer : TsNode -> M Ref) (elems : list TsNode) :
  allocates_only elementAnalyzer ->
  forall (st st' : Store) (ob : Obj) (res : outcome unit),
    st !! block = Some ob ->
    forEach (analyzeElement strictMode block elementAnalyzer) elems st
    = (res, st') ->
    grows block (steps res (length elems)) st st'.
Proof.
  intros Hea. induction elems as [|e rest IH]; intros st st' ob res Hb H.
  - injection H as <- <-. apply grows_refl.
  - cbn [forEach] in H. unfold bind in H.
    destruct (analyzeElement strictMode block elementAnalyzer e st)
      as [[[]|err|] st1] eqn:E;
      destruct (analyzeElement_grows _ _ _ _ _ _ _ _ Hea Hb E) as [Hg _].
    + destruct (proj2 Hg ob Hb) as (es & Hb1 & _).
      specialize (IH st1 st' _ res Hb1 H).
      pose proof (grows_trans _ _ _ _ _ _ Hg IH) as Hg'.
      destruct res; cbn [steps length] in *;
        [exact Hg'|eapply grows_weaken; [|exact Hg']; lia..].
    + injection H as <- <-. exact Hg.
    + injection H as <- <-. exact Hg.
Qed.

Lemma addTrailingBlockSpacing_grows (block : Ref) (blockNode : option Origin)
    (st st' : Store) (ob : Obj) (res : outcome unit) :
  st !! block = Some ob ->
  addTrailingBlockSpacing block blockNode st = (res, st') ->
  grows block 0 st st'.
Proof.
  intros Hb H. unfold addTrailingBlockSpacing in H.
  rewrite (bind_Ok _ _ _ _ _ (get_Some _ _ _ Hb)) in H.
  unfold bind at 1 in H.
  assert (Hlt : exists r, lastTokenOf ob blockNode st = (r, st)).
  { unfold lastTokenOf.
    destruct (instanceOf (constructor ob) Source).
    - destruct (node ob) as [[n|f]|]; eexists; reflexivity.
    - destruct blockNode as [[n|f]|]; eexists; reflexivity. }
  destruct Hlt as [r Hlt]. rewrite Hlt in H.
  destruct r as [[lastToken|]|err|];
    try (injection H as <- <-; apply grows_refl).
  unfold bind at 1 in H.
  assert (Hsame : exists r, isNodeOfLastElement lastToken ob st = (r, st)).
  { unfold isNodeOfLastElement. destruct (last (elements ob)) as [x|];
      [|eexists; reflexivity].
    unfold bind, get. destruct (st !! x); eexists; reflexivity. }
  destruct Hsame as [r Hsame]. rewrite Hsame in H.
  destruct r as [[|]|err|]; try (injection H as <- <-; apply grows_refl).
  destruct (0 <? String.length _)%nat;
    [|injection H as <- <-; apply grows_refl].
  rewrite (bind_Ok _ _ _ _ _ (alloc_eq _ _)) in H.
  rewrite (push_Some _ _ _ _ (lookup_old _ _ _ _ Hb)) in H.
  injection H as <- <-. split.
  - intros r o Hr Hro. rewrite list_lookup_insert_ne by congruence.
    now apply lookup_old.
  - intros ob0 Hb0. rewrite Hb in Hb0. injection Hb0 as <-.
    eexists. split; [|apply Nat.le_0_l].
    apply (lookup_insert_same _ _ ob). now apply lookup_old.
Qed.

Lemma canAnalyzeBody_spec (o : Obj) :
  canAnalyzeBody o = true <-> bodyHasBeenAnalyzed o = false /\ elements o = [].
Proof.
  unfold canAnalyzeBody. rewrite andb_true_iff, negb_true_iff, Nat.eqb_eq.
  split; intros [H1 H2]; split; try assumption.
  - now apply length_zero_iff_nil.
  - now rewrite H2.
Qed.

(** [resetBody()] makes a block analyzable again. *)
Lemma resetBody_canAnalyzeBody (st : Store) (this : Ref) (o : Obj) :
  st !! this = Some o ->
  exists st' o',
    resetBody this st = (Ok tt, st')
    /\ st' !! this = Some o'
    /\ canAnalyzeBody o' = true.
Proof.
  intros H. unfold resetBody.
  rewrite (bind_Ok _ _ _ _ _ (modify_Some _ _ _ _ H)).
  assert (H1 : <[this := with_elements [] o]> st !! this
               = Some (with_elements [] o)).
  { apply list_lookup_insert_eq. now apply lookup_lt_Some in H. }
  rewrite (modify_Some _ _ _ _ H1).
  exists (<[this := with_bodyHasBeenAnalyzed false (with_elements [] o)]>
            (<[this := with_elements [] o]> st)),
         (with_bodyHasBeenAnalyzed false (with_elements [] o)).
  split; [reflexivity|]. split; [|reflexivity].
  apply list_lookup_insert_eq. rewrite length_insert.
  now apply lookup_lt_Some in H.
Qed.

Lemma performBlockAnalysis_noop (strictMode : bool) (block : Ref)
    (elems : list TsNode) (elementAnalyzer : TsNode -> M Ref)
    (ignoreTrailing : bool) (st : Store) (ob : Obj) :
  st !! block = Some ob -> canAnalyzeBody ob = false ->
  performBlockAnalysis strictMode block elems elementAnalyzer ignoreTrailing
    st = (Ok block, st).
Proof.
  intros Hb Hcan. unfold performBlockAnalysis.
  rewrite (bind_Ok _ _ _ _ _ (get_Some _ _ _ Hb)), Hcan. reflexivity.
Qed.

(** A successful analysis of an analyzable block returns the block, sets
    its flag, appends to its elements and changes nothing else that
    existed. *)
Lemma performBlockAnalysis_Ok (strictMode : bool) (block : Ref)
    (elems : list TsNode) (elementAnalyzer : TsNode -> M Ref)
    (ignoreTrailing : bool) (st st' : Store) (ob : Obj) (r : Ref) :
  allocates_only elementAnalyzer ->
  st !! block = Some ob -> canAnalyzeBody ob = true ->
  performBlockAnalysis strictMode block elems elementAnalyzer ignoreTrailing
    st = (Ok r, st') ->
  r = block
  /\ (exists es,
        st' !! block
        = Some (with_bodyHasBeenAnalyzed true
                  (with_elements (elements ob ++ es) ob)))
  /\ (forall r' o, r' <> block -> st !! r' = Some o -> st' !! r' = Some o).
Proof.
  intros Hea Hb Hcan H. unfold performBlockAnalysis in H.
  rewrite (bind_Ok _ _ _ _ _ (get_Some _ _ _ Hb)), Hcan in H.
  cbn [negb] in H. unfold bind at 1 in H.
  destruct (forEach _ elems st) as [[[]|err|] st1] eqn:E;
    [|discriminate H|discriminate H].
  pose proof (forEach_grows _ _ _ _ Hea _ _ _ _ Hb E) as Hg1.
  assert (Hg2 : exists st2,
             grows block 0 st1 st2
             /\ (modify block (with_bodyHasBeenAnalyzed true) ;;; ret block)
                  st2 = (Ok r, st')).
  { unfold bind at 1 in H. destruct ignoreTrailing; cbn [negb] in H.
    - exists st1. split; [apply grows_refl|exact H].
    - destruct (proj2 Hg1 ob Hb) as (es & Hb1 & _).
      rewrite (bind_Ok _ _ _ _ _ (get_Some _ _ _ Hb1)) in H.
      destruct (addTrailingBlockSpacing block _ st1) as [[[]|err|] st2] eqn:E2;
        [|discriminate H|discriminate H].
      exists st2. split; [|exact H].
      exact (addTrailingBlockSpacing_grows _ _ _ _ _ _ Hb1 E2). }
  destruct Hg2 as (st2 & Hg2 & H2).
  pose proof (grows_trans _ _ _ _ _ _ Hg1 Hg2) as [Ho Hbk].
  destruct (Hbk ob Hb) as (es & Hb2 & _).
  rewrite (bind_Ok _ _ _ _ _ (modify_Some _ _ _ _ Hb2)) in H2.
  injection H2 as <- <-. split; [reflexivity|]. split.
  - exists es. now apply (lookup_insert_same _ _ _ _ Hb2).
  - intros r' o Hr Hro. rewrite list_lookup_insert_ne by congruence. auto.
Qed.

Lemma with_node_same (o : Obj) (n : option Origin) :
  node o = n -> with_node n o = o.
Proof. intros <-. now destruct o. Qed.

Lemma with_text_same (o : Obj) (t : option string) :
  text o = t -> with_text t o = o.
Proof. intros <-. now destruct o. Qed.

(** What [SourceAnalyzer.analyze()] leaves behind when it returns. *)
Lemma SourceAnalyzer_analyze_Ok (strictMode : bool)
    (rule : bool -> TsNode -> M Ref) (src : Ref) (sf : SourceFile)
    (rec : bool) (st st' : Store) (o : Obj) (r : Ref) :
  (forall rec, allocates_only (rule rec)) ->
  st !! src = Some o ->
  SourceAnalyzer_analyze strictMode rule (mkSourceAnalyzer src sf rec) st
  = (Ok r, st') ->
  r = src
  /\ exists o',
       st' !! src = Some o'
       /\ node o' = Some (OfFile sf)
       /\ text o' = Some (sf_getFullText sf)
       /\ fileName o' = fileName o
       /\ constructor o' = constructor o
       /\ canAnalyzeBody o' = false.
Proof.
  intros Hrule Hs H. unfold SourceAnalyzer_analyze in H. cbn in H.
  rewrite (bind_Ok _ _ _ _ _ (registerWithNode_Some _ _ _ _ Hs)) in H.
  set (o1 := with_node (Some (OfFile sf)) o) in H.
  assert (Hs1 : <[src := o1]> st !! src = Some o1)
    by now apply (lookup_insert_same _ _ o).
  rewrite (bind_Ok _ _ _ _ _ (setText_Some _ _ _ _ Hs1)) in H.
  rewrite list_insert_insert_eq in H.
  set (o2 := with_text (Some (sf_getFullText sf)) o1) in H.
  assert (Hs2 : <[src := o2]> st !! src = Some o2)
    by now apply (lookup_insert_same _ _ o).
  destruct (canAnalyzeBody o2) eqn:Hcan.
  - destruct (performBlockAnalysis_Ok _ _ _ _ _ _ _ _ _
                (analyzeModuleElement_allocates rule rec Hrule) Hs2 Hcan H)
      as (-> & (es & Hb) & _).
    split; [reflexivity|]. eexists. split; [exact Hb|]. now repeat split.
  - rewrite (performBlockAnalysis_noop _ _ _ _ _ _ _ Hs2 Hcan) in H.
    injection H as <- <-. split; [reflexivity|].
    exists o2. now repeat split.
Qed.

(** On a root that is registered with its file, holds the file's text and
    cannot be analyzed, [analyze()] changes nothing. *)
Lemma SourceAnalyzer_analyze_again (strictMode : bool)
    (rule : bool -> TsNode -> M Ref) (src : Ref) (sf : SourceFile)
    (rec : bool) (st : Store) (o : Obj) :
  st !! src = Some o ->
  node o = Some (OfFile sf) -> text o = Some (sf_getFullText sf) ->
  canAnalyzeBody o = false ->
  SourceAnalyzer_analyze strictMode rule (mkSourceAnalyzer src sf rec) st
  = (Ok src, st).
Proof.
  intros Hs Hn Ht Hcan. unfold SourceAnalyzer_analyze. cbn.
  rewrite (bind_Ok _ _ _ _ _ (registerWithNode_Some _ _ _ _ Hs)).
  rewrite (with_node_same _ _ Hn), (list_insert_id _ _ _ Hs).
  rewrite (bind_Ok _ _ _ _ _ (setText_Some _ _ _ _ Hs)).
  rewrite (with_text_same _ _ Ht), (list_insert_id _ _ _ Hs).
  now apply (performBlockAnalysis_noop _ _ _ _ _ _ o).
Qed.

(** On a root that cannot be analyzed, [analyze()] appends nothing and
    leaves the flag alone; what it does is register the file and cache
    the file's text again. *)
Lemma SourceAnalyzer_analyze_unanalyzable (strictMode : bool)
    (rule : bool -> TsNode -> M Ref) (src : Ref) (sf : SourceFile)
    (rec : bool) (st : Store) (o : Obj) :
  st !! src = Some o -> canAnalyzeBody o = false ->
  SourceAnalyzer_analyze strictMode rule (mkSourceAnalyzer src sf rec) st
  = (Ok src,
     <[src := with_text (Some (sf_getFullText sf))
                (with_node (Some (OfFile sf)) o)]> st).
Proof.
  intros Hs Hcan. unfold SourceAnalyzer_analyze. cbn.
  rewrite (bind_Ok _ _ _ _ _ (registerWithNode_Some _ _ _ _ Hs)).
  rewrite (bind_Ok _ _ _ _ _
             (setText_Some _ _ _ _ (lookup_insert_same _ _ _ _ Hs))).
  rewrite list_insert_insert_eq.
  apply (performBlockAnalysis_noop _ _ _ _ _ _
           (with_text (Some (sf_getFullText sf))
              (with_node (Some (OfFile sf)) o)));
    [now apply (lookup_insert_same _ _ o)|exact Hcan].
Qed.

(** ** The host: one root per path, analyzed once *)

Lemma getSource_IsSource (normalize : string -> string) (src : SourceArg)
    (sources sources' : gmap string Ref) (st st' : Store) (r : Ref) :
  getSource normalize src sources st = (Ok (IsSource r), sources', st') ->
  st `prefix_of` st'
  /\ (forall st'',
        match src with
        | ByPath _ => True
        | ByInstance s =>
          exists o'', st'' !! s = Some o''
                      /\ instanceOf (constructor o'') Source = true
        end ->
        getSource normalize src sources' st''
        = (Ok (IsSource r), sources', st''))
  /\ match src with
     | ByInstance s =>
       r = s /\ st' = st /\ sources' = sources
       /\ exists o, st !! s = Some o
                    /\ instanceOf (constructor o) Source = true
     | ByPath p =>
       (sources !! normalize p = Some r /\ st' = st /\ sources' = sources)
       \/ (sources !! normalize p = None
           /\ inheritedKey (normalize p) = false
           /\ r = length st
           /\ st' = st ++ [with_fileName (normalize p) (new Source)]
           /\ sources' = <[normalize p := length st]> sources)
     end.
Proof.
  destruct src as [p|s]; cbn [getSource].
  - destruct (sources !! normalize p) as [s|] eqn:E.
    + intros [= <- <- <-]. split; [reflexivity|]. split.
      { intros st'' _. now rewrite E. }
      left. now repeat split.
    + destruct (inheritedKey (normalize p)) eqn:Hk; [discriminate|].
      intros [= <- <- <-]. split; [now apply prefix_app_r|]. split.
      { intros st'' _. now rewrite lookup_insert_eq. }
      right. now repeat split.
  - destruct (st !! s) as [o|] eqn:Hs; [|discriminate].
    destruct (instanceOf (constructor o) Source) eqn:Hc; [|discriminate].
    intros [= <- <- <-]. split; [reflexivity|]. split.
    { intros st'' (o'' & -> & ->). reflexivity. }
    repeat split. now exists o.
Qed.

Lemma getAnalyzer_eq (getSourceFile : string -> option SourceFile)
    (normalize : string -> string)
    (getSourceFileOfUndefined : Error + option SourceFile)
    (compositionRule : Class -> (Ref -> M string) -> Ref -> M string)
    (fuel : nat) (src : SourceArg) (rec : bool)
    (sources sources' : gmap string Ref) (st st' : Store) (r : Ref)
    (o : Obj) (sf : SourceFile) :
  getSource normalize src sources st = (Ok (IsSource r), sources', st') ->
  st' !! r = Some o -> getSourceFile (fileName o) = Some sf ->
  getAnalyzer getSourceFile normalize getSourceFileOfUndefined
    compositionRule fuel (Some src) rec sources st
  = (Ok (OnSource (mkSourceAnalyzer r sf rec)), sources', st').
Proof.
  intros Hg Hr Hsf. unfold getAnalyzer. now rewrite Hg, Hr, Hsf.
Qed.

Lemma getAnalyzer_Ok (getSourceFile : string -> option SourceFile)
    (normalize : string -> string)
    (getSourceFileOfUndefined : Error + option SourceFile)
    (compositionRule : Class -> (Ref -> M string) -> Ref -> M string)
    (fuel : nat) (src : SourceArg) (rec : bool)
    (sources sources' : gmap string Ref) (st st' : Store)
    (analyzer : SourceAnalyzer) :
  getAnalyzer getSourceFile normalize getSourceFileOfUndefined
    compositionRule fuel (Some src) rec sources st
  = (Ok (OnSource analyzer), sources', st') ->
  exists o sf,
    analyzer = mkSourceAnalyzer (source analyzer) sf rec
    /\ getSource normalize src sources st
       = (Ok (IsSource (source analyzer)), sources', st')
    /\ st' !! source analyzer = Some o
    /\ getSourceFile (fileName o) = Some sf.
Proof.
  intros H. unfold getAnalyzer in H.
  destruct (getSource normalize src sources st)
    as [[[[r|key]|e|] srcs] st0] eqn:E; [| |discriminate H..].
  - destruct (st0 !! r) as [o|] eqn:Hr; [|discriminate H].
    destruct (getSourceFile (fileName o)) as [sf|] eqn:Hsf.
    + injection H as <- <- <-. exists o, sf. now repeat split.
    + destruct src as [p|s]; [discriminate H|].
      destruct (toString compositionRule fuel s st0) as [[x|e|] st1];
        discriminate H.
  - destruct getSourceFileOfUndefined as [e|[sf|]]; discriminate H.
Qed.

(** A successful [analyze] went through an analyzer on a [Source]. *)
Lemma analyze_Ok (strictMode : bool) (rule : bool -> TsNode -> M Ref)
    (getSourceFile : string -> option SourceFile)
    (normalize : string -> string)
    (getSourceFileOfUndefined : Error + option SourceFile)
    (compositionRule : Class -> (Ref -> M string) -> Ref -> M string)
    (fuel : nat) (src : option SourceArg) (rec : bool)
    (sources sources1 : gmap string Ref) (st st1 : Store) (root : Ref) :
  analyze strictMode rule getSourceFile normalize getSourceFileOfUndefined
    compositionRule fuel src rec sources st = (Ok root, sources1, st1) ->
  exists a st0,
    getAnalyzer getSourceFile normalize getSourceFileOfUndefined
      compositionRule fuel src rec sources st
    = (Ok (OnSource a), sources1, st0)
    /\ SourceAnalyzer_analyze strictMode rule a st0 = (Ok root, st1).
Proof.
  unfold analyze. intros H.
  destruct (getAnalyzer getSourceFile normalize getSourceFileOfUndefined
              compositionRule fuel src rec sources st)
    as [[[[a|key sf rec0]|e|] srcs] st0] eqn:Ha; [|discriminate H..].
  destruct (SourceAnalyzer_analyze strictMode rule a st0) as [res st2] eqn:Hs.
  injection H as -> -> ->. now exists a, st0.
Qed.

(** The part of C2 that holds: after a first successful [analyze], a
    second [analyze] of the same source (with either value of
    [recursive]) returns the same root and leaves the registry and the
    whole store as they were, so every element list and every cached text
    is what it was and nothing has grown; [performBlockAnalysis] does
    nothing at all on a block whose [canAnalyzeBody()] is false; and
    [canAnalyzeBody()] is true exactly when the flag is false and the
    element list is empty. *)
Theorem analyze_idempotent (strictMode : bool)
    (rule : bool -> TsNode -> M Ref)
    (getSourceFile : string -> option SourceFile)
    (normalize : string -> string)
    (getSourceFileOfUndefined : Error + option SourceFile)
    (compositionRule : Class -> (Ref -> M string) -> Ref -> M string)
    (fuel : nat) (src : SourceArg) (rec rec' : bool)
    (sources sources1 : gmap string Ref) (st st1 : Store) (root : Ref)
    (Hrule : forall rec, allocates_only (rule rec))
    (Hfirst : analyze strictMode rule getSourceFile normalize
                getSourceFileOfUndefined compositionRule fuel (Some src)
                rec sources st = (Ok root, sources1, st1)) :
  analyze strictMode rule getSourceFile normalize getSourceFileOfUndefined
    compositionRule fuel (Some src) rec' sources1 st1
  = (Ok root, sources1, st1)
  /\ (forall block elems elementAnalyzer ignoreTrailing st0 ob,
        st0 !! block = Some ob -> canAnalyzeBody ob = false ->
        performBlockAnalysis strictMode block elems elementAnalyzer
          ignoreTrailing st0 = (Ok block, st0))
  /\ (forall ob,
        canAnalyzeBody ob = true
        <-> bodyHasBeenAnalyzed ob = false /\ elements ob = []).
Proof.
  split; [|split;
    [intros; now apply (performBlockAnalysis_noop _ _ _ _ _ _ ob)
    |apply canAnalyzeBody_spec]].
  destruct (analyze_Ok _ _ _ _ _ _ _ _ _ _ _ _ _ _ Hfirst)
    as (a & st0 & Ha & Hs).
  destruct (getAnalyzer_Ok _ _ _ _ _ _ _ _ _ _ _ _ Ha)
    as (o & sf & Hmk & Hg & Ho & Hsf).
  rewrite Hmk in Hs.
  destruct (SourceAnalyzer_analyze_Ok _ _ _ _ _ _ _ _ _ Hrule Ho Hs)
    as (-> & o' & Ho' & Hn & Ht & Hf & Hc & Hcan).
  destruct (getSource_IsSource _ _ _ _ _ _ _ Hg) as (_ & Hagain & Hcase).
  assert (Hpre : match src with
                 | ByPath _ => True
                 | ByInstance s =>
                   exists o'', st1 !! s = Some o''
                               /\ instanceOf (constructor o'') Source = true
                 end).
  { destruct src as [p|s]; [exact I|].
    destruct Hcase as (E & -> & _ & o0 & Ho0 & Hc0).
    rewrite E in Ho, Ho'. rewrite Ho0 in Ho. injection Ho as <-.
    exists o'. split; [exact Ho'|]. now rewrite Hc. }
  unfold analyze.
  rewrite (getAnalyzer_eq getSourceFile normalize getSourceFileOfUndefined
             compositionRule fuel src rec' _ _ _ _ _ o' sf
             (Hagain st1 Hpre) Ho')
    by now rewrite Hf.
  now rewrite (SourceAnalyzer_analyze_again _ _ _ _ _ _ _ Ho' Hn Ht Hcan).
Qed.

Lemma noRule_allocates (rec : bool) : allocates_only (noRule rec).
Proof.
  intros e st res st' [= <- <-]. split; [reflexivity|discriminate].
Qed.

Lemma analyze_idempotent_witness :
  analyze true noRule programExample id (inr None) noCompositionRule 0
    (Some (ByPath "a.ts")) false
    (snd (fst firstAnalysis)) (snd firstAnalysis)
  = (Ok 0%nat, snd (fst firstAnalysis), snd firstAnalysis).
Proof.
  refine (proj1 (analyze_idempotent true noRule programExample id
                   (inr None) noCompositionRule 0
                   (ByPath "a.ts") true false ∅ _ [] _ 0%nat
                   noRule_allocates _)).
  vm_compute. reflexivity.
Defined.

(** C2, at the input where the code departs from it: [analyze()] writes
    to a root that cannot be analyzed.  Whatever the root holds, the call
    re-registers it with the file and sets its cached text to the file's
    full text before it reaches the guard of [performBlockAnalysis].  So
    after [analyze("a.ts")], [markDirty()] and [toString()] on the file
    [debugger], where the root has been rebuilt as [debugger;] and a
    newline, a second [analyze("a.ts")] returns the root, finds
    [canAnalyzeBody()] false, and still changes the store: the root's
    cached text is the file's [debugger] again, and that is what
    [toString()] now returns. *)
Lemma analyze_rewrites_analyzed_root :
  let sources1 := snd (fst firstAnalysis) in
  let st1 := snd firstAnalysis in
  let st2 := snd (markDirty 0 false 0 st1) in
  let st3 := snd (toString noCompositionRule 2 0 st2) in
  let again :=
    analyze true noRule programExample id (inr None) noCompositionRule 0
      (Some (ByPath "a.ts")) true sources1 st3 in
  (forall strictMode rule src sf rec st o,
     st !! src = Some o -> canAnalyzeBody o = false ->
     SourceAnalyzer_analyze strictMode rule (mkSourceAnalyzer src sf rec) st
     = (Ok src,
        <[src := with_text (Some (sf_getFullText sf))
                   (with_node (Some (OfFile sf)) o)]> st))
  /\ fst firstAnalysis = (Ok 0%nat, sources1)
  /\ fst (toString noCompositionRule 2 0 st2)
     = Ok ("debugger;" +:+ String newline "")
  /\ canAnalyzeBody <$> st3 !! 0%nat = Some false
  /\ text <$> st3 !! 0%nat
     = Some (Some ("debugger;" +:+ String newline ""))
  /\ fst again = (Ok 0%nat, sources1)
  /\ text <$> snd again !! 0%nat = Some (Some "debugger")
  /\ snd again <> st3
  /\ fst (toString noCompositionRule 2 0 (snd again)) = Ok "debugger"
  /\ ~ analyze_noop_when_not_analyzable.
Proof.
  split; [intros; now apply SourceAnalyzer_analyze_unanalyzable|].
  repeat split; [discriminate|].
  intros H.
  pose proof (H true noRule (mkSourceAnalyzer 0 fileNoNewline true)
                (snd (toString noCompositionRule 2 0
                        (snd (markDirty 0 false 0 (snd firstAnalysis)))))
                _ _ _ eq_refl eq_refl eq_refl) as E.
  discriminate E.
Qed.

(** C1: when [analyze(path, recursive)] returns, for either value of
    [recursive], the root's [toString()] is exactly the full text of the
    program's source file for that path (so it differs from the original
    by nothing, trailing newlines included), and rendering leaves the
    store as it is. *)
Theorem analyzed_root_renders_source (strictMode : bool)
    (rule : bool -> TsNode -> M Ref)
    (compositionRule : Class -> (Ref -> M string) -> Ref -> M string)
    (getSourceFile : string -> option SourceFile)
    (normalize : string -> string)
    (getSourceFileOfUndefined : Error + option SourceFile)
    (path : string) (rec : bool)
    (sources sources1 : gmap string Ref) (st st1 : Store) (root : Ref)
    (fuel fuel' : nat)
    (Hrule : forall rec, allocates_only (rule rec))
    (Hreg : registry_ok sources st)
    (Hfirst : analyze strictMode rule getSourceFile normalize
                getSourceFileOfUndefined compositionRule fuel'
                (Some (ByPath path)) rec sources st
              = (Ok root, sources1, st1)) :
  exists sf,
    getSourceFile (normalize path) = Some sf
    /\ toString compositionRule (S fuel) root st1
       = (Ok (sf_getFullText sf), st1).
Proof.
  destruct (analyze_Ok _ _ _ _ _ _ _ _ _ _ _ _ _ _ Hfirst)
    as (a & st0 & Ha & Hs).
  destruct (getAnalyzer_Ok _ _ _ _ _ _ _ _ _ _ _ _ Ha)
    as (o & sf & Hmk & Hg & Ho & Hsf).
  rewrite Hmk in Hs.
  destruct (SourceAnalyzer_analyze_Ok _ _ _ _ _ _ _ _ _ Hrule Ho Hs)
    as (-> & o' & Ho' & _ & Ht & _ & Hc & _).
  assert (Hsrc : constructor o = Source /\ fileName o = normalize path).
  { destruct (getSource_IsSource _ _ _ _ _ _ _ Hg) as (_ & _ & Hcase).
    destruct Hcase as [(Hin & -> & _)|(_ & _ & Hr & -> & _)].
    - destruct (Hreg _ _ Hin) as (o0 & Ho0 & Hc0 & Hf0).
      rewrite Ho in Ho0. injection Ho0 as <-. now split.
    - rewrite Hr, lookup_new in Ho. injection Ho as <-. now split. }
  destruct Hsrc as [Hsrc Hfn]. exists sf. split; [now rewrite <- Hfn|].
  rewrite (toString_unfold _ _ _ _ _ Ho')
    by (rewrite Hc, Hsrc; discriminate).
  now apply (CodeNode_toString_cached _ _ _ _ _ o').
Qed.

Lemma registry_ok_empty (st : Store) : registry_ok ∅ st.
Proof. intros p r H. now rewrite lookup_empty in H. Qed.

Lemma analyzed_root_renders_source_witness :
  exists sf,
    programExample "b.ts" = Some sf
    /\ toString noCompositionRule 1 0
         (snd (analyze false noRule programExample id (inr None)
                 noCompositionRule 0 (Some (ByPath "b.ts")) true ∅ []))
       = (Ok (sf_getFullText sf),
          snd (analyze false noRule programExample id (inr None)
                 noCompositionRule 0 (Some (ByPath "b.ts")) true ∅ [])).
Proof.
  refine (analyzed_root_renders_source false noRule noCompositionRule
            programExample id (inr None) "b.ts" true ∅ _ [] _ 0%nat 0%nat
            0%nat noRule_allocates (registry_ok_empty []) _).
  vm_compute. reflexivity.
Defined.

(** ** Failure in strict mode *)

Lemma forEach_app {A} (f : A -> M unit) (l1 l2 : list A) :
  forall st st1,
    forEach f l1 st = (Ok tt, st1) ->
    forEach f (l1 ++ l2) st = forEach f l2 st1.
Proof.
  induction l1 as [|x l1 IH]; intros st st1 H.
  - now injection H as <-.
  - cbn [forEach app] in *. unfold bind in *.
    destruct (f x st) as [[[]|e|] st0]; [|discriminate H..].
    now apply IH.
Qed.

(** Both dispatchers end in [failAnalysis] on a kind they have no case
    for, and touch nothing before. *)
Lemma dispatch_OtherKind (rule : bool -> TsNode -> M Ref) (rec : bool)
    (dispatcher : TsNode -> M Ref) (bad : TsNode) (code : Z) (st : Store) :
  dispatcher = analyzeModuleElement rule rec
  \/ dispatcher = analyzeStatement rule rec ->
  kind bad = OtherKind code ->
  dispatcher bad st
  = (Raise (CouldNotAnalyze "statement" (getText bad) (OtherKind code)), st).
Proof.
  intros [-> | ->] Hk; unfold analyzeModuleElement, analyzeStatement,
    failAnalysis; now rewrite Hk.
Qed.

(** C3 as the all-or-nothing rule is refuted: a recognized statement
    followed by an unrecognized one makes the call throw with the flag
    still false, but the node built for the first statement is already in
    the element list. *)
Lemma strict_failure_keeps_earlier_elements :
  fst strictFailure
  = Raise (CouldNotAnalyze "statement" "statementText" (OtherKind (-100)))
  /\ bodyHasBeenAnalyzed <$> snd strictFailure !! 0%nat = Some false
  /\ elements <$> snd strictFailure !! 0%nat = Some [1%nat]
  /\ ~ strict_failure_leaves_block_empty.
Proof.
  repeat split.
  intros H.
  destruct (H noRule true 0%nat [debuggerStatement; unknownStatement]
              unknownStatement (-100)%Z [new Source] (new Source)
              eq_refl eq_refl)
    as (err & st' & ob' & Hp & Hb & _ & He).
  - apply list_elem_of_further, list_elem_of_here.
  - reflexivity.
  - vm_compute in Hp. injection Hp as <- <-.
    vm_compute in Hb. injection Hb as <-. discriminate He.
Qed.

(** C3 (amended): in strict mode, when the elements [good] before the
    first element of an unrecognized kind have been analyzed and appended,
    [performBlockAnalysis] throws the [failAnalysis] error of that element
    and stops there: the store is the one reached after [good].  The flag
    is still false.  The element list is still empty when the unrecognized
    element comes first (in particular when it is the only one), where the
    store is untouched altogether; otherwise it already holds what was
    appended for [good], at least one reference per element. *)
Theorem strict_failure_state (rule : bool -> TsNode -> M Ref) (rec : bool)
    (dispatcher : TsNode -> M Ref) (block : Ref)
    (good rest : list TsNode) (bad : TsNode) (code : Z)
    (ignoreTrailing : bool) (st st1 : Store) (ob : Obj)
    (Hblock : st !! block = Some ob)
    (Hcan : canAnalyzeBody ob = true)
    (Hdispatcher : dispatcher = analyzeModuleElement rule rec
                   \/ dispatcher = analyzeStatement rule rec)
    (Hkind : kind bad = OtherKind code)
    (Hgood : forEach (analyzeElement true block dispatcher) good st
             = (Ok tt, st1)) :
  performBlockAnalysis true block (good ++ bad :: rest) dispatcher
    ignoreTrailing st
  = (Raise (CouldNotAnalyze "statement" (getText bad) (OtherKind code)), st1)
  /\ (good = [] ->
      st1 = st /\ bodyHasBeenAnalyzed ob = false /\ elements ob = [])
  /\ ((forall rec, allocates_only (rule rec)) ->
      exists ob1,
        st1 !! block = Some ob1
        /\ bodyHasBeenAnalyzed ob1 = false
        /\ (length good <= length (elements ob1))%nat).
Proof.
  pose proof (proj1 (canAnalyzeBody_spec ob) Hcan) as [Hflag Hempty].
  split; [|split].
  - unfold performBlockAnalysis.
    rewrite (bind_Ok _ _ _ _ _ (get_Some _ _ _ Hblock)), Hcan. cbn [negb].
    apply bind_Raise. rewrite (forEach_app _ _ _ _ _ Hgood).
    cbn [forEach]. apply bind_Raise. unfold analyzeElement.
    apply bind_Raise. unfold try_catch.
    now rewrite (dispatch_OtherKind rule rec dispatcher bad code st1
                   Hdispatcher Hkind).
  - intros ->. injection Hgood as <-. now repeat split.
  - intros Hrule.
    assert (Hea : allocates_only dispatcher).
    { destruct Hdispatcher as [-> | ->];
        [now apply analyzeModuleElement_allocates
        |now apply analyzeStatement_allocates]. }
    destruct (proj2 (forEach_grows _ _ _ _ Hea _ _ _ _ Hblock Hgood)
                ob Hblock) as (es & Hb1 & Hlen).
    eexists. split; [exact Hb1|]. split; [exact Hflag|].
    cbn. rewrite length_app. cbn [steps] in Hlen. lia.
Qed.

Lemma strict_failure_state_witness :
  performBlockAnalysis true 0 ([debuggerStatement] ++ unknownStatement :: [])
    (analyzeModuleElement noRule true) false [new Source]
  = (Raise (CouldNotAnalyze "statement" "statementText" (OtherKind (-100))),
     snd (forEach (analyzeElement true 0 (analyzeModuleElement noRule true))
            [debuggerStatement] [new Source])).
Proof.
  refine (proj1 (strict_failure_state noRule true
                   (analyzeModuleElement noRule true) 0 [debuggerStatement]
                   [] unknownStatement (-100) false [new Source] _
                   (new Source) eq_refl eq_refl (or_introl eq_refl) eq_refl
                   _)).
  vm_compute. reflexivity.
Defined.

(** The block whose only element is of an unrecognized kind: strict
    analysis throws and the store is exactly as before. *)
Example strict_failure_single_element :
  performBlockAnalysis true 0 [unknownStatement]
    (analyzeModuleElement noRule true) false [new Source]
  = (Raise (CouldNotAnalyze "statement" "statementText" (OtherKind (-100))),
     [new Source]).
Proof. reflexivity. Qed.

(** ** Which errors degrade to a fallback node *)

(** C4 as the fatal-reference rule is refuted: in lenient mode the
    analysis of that file returns normally, with a base [CodeNode] holding
    the class's text as the root's only element. *)
Lemma lenient_mode_swallows_failAnalysis :
  fst lenientAnalysis = Ok 0%nat
  /\ elements <$> snd lenientAnalysis !! 0%nat = Some [1%nat]
  /\ constructor <$> snd lenientAnalysis !! 1%nat = Some CodeNode
  /\ text <$> snd lenientAnalysis !! 1%nat = Some (Some "class C extends {}")
  /\ ~ malformed_reference_fatal_when_lenient.
Proof.
  repeat split.
  intros H.
  destruct (H heritageRule true 0%nat classWithoutParent "extends"
              (OtherKind 0)
              [with_node (Some (OfFile classFile)) (new Source)]
              (with_node (Some (OfFile classFile)) (new Source))
              eq_refl eq_refl eq_refl (fun _ => eq_refl))
    as (err & st' & Hp).
  vm_compute in Hp. discriminate Hp.
Qed.

(** C4 (amended): the [try]/[catch] around the element analyzer does not
    look at the error.  In strict mode every error it throws is rethrown;
    in lenient mode every error it throws, those of [failAnalysis]
    included, is replaced by a fallback [CodeNode] registered with the
    element, which is appended to the block.  Errors thrown outside that
    [try] are fatal in both modes: a null source, and a source for which
    the program has no file (for a path that normalizes to a name
    inherited from [Object.prototype], the error is the one in which the
    lookup of the inherited member's file ends). *)
Theorem error_policy (rule : bool -> TsNode -> M Ref)
    (getSourceFile : string -> option SourceFile)
    (normalize : string -> string)
    (getSourceFileOfUndefined : Error + option SourceFile)
    (compositionRule : Class -> (Ref -> M string) -> Ref -> M string)
    (fuel : nat) (block : Ref)
    (elementAnalyzer : TsNode -> M Ref) (e : TsNode) (err : Error)
    (st st1 : Store) (ob : Obj)
    (Hthrow : elementAnalyzer e st = (Raise err, st1))
    (Hblock : st1 !! block = Some ob) :
  analyzeElement true block elementAnalyzer e st = (Raise err, st1)
  /\ (exists st',
        analyzeElement false block elementAnalyzer e st = (Ok tt, st')
        /\ st' !! length st1
           = Some (with_text (Some (expressionText e))
                     (with_node (Some (OfNode e)) (new CodeNode)))
        /\ exists ob',
             st' !! block = Some ob'
             /\ last (elements ob') = Some (length st1))
  /\ (forall strictMode rec sources st0,
        analyze strictMode rule getSourceFile normalize
          getSourceFileOfUndefined compositionRule fuel None rec sources st0
        = (Raise NullSourcePassed, sources, st0))
  /\ (forall strictMode rec sources st0 p,
        sources !! normalize p = None ->
        getSourceFile (normalize p) = None ->
        fst (fst (analyze strictMode rule getSourceFile normalize
                    getSourceFileOfUndefined compositionRule fuel
                    (Some (ByPath p)) rec sources st0))
        = Raise (if inheritedKey (normalize p)
                 then match getSourceFileOfUndefined with
                      | inl thrown => thrown
                      | inr (Some _) => TypeError
                      | inr None => SourceNotFound (normalize p)
                      end
                 else SourceNotFound (normalize p))).
Proof.
  split; [|split; [|split]].
  - unfold analyzeElement, bind, try_catch. now rewrite Hthrow.
  - pose proof (lookup_lt_Some _ _ _ Hblock) as Hlt.
    set (fb := with_text (Some (getText e))
                 (with_node (Some (OfNode e)) (new CodeNode))).
    destruct (addToBlock_spec (st1 ++ [fb]) (length st1) block e fb ob
                (lookup_new _ _) (lookup_old _ _ _ _ Hblock)
                ltac:(lia))
      as (st' & Heq & Hs & Hb & _).
    exists st'. split; [|split; [exact Hs|]].
    + unfold analyzeElement, bind, try_catch. rewrite Hthrow.
      rewrite fallbackNode_eq. exact Heq.
    + eexists. split; [exact Hb|]. cbn. apply appended_last.
  - reflexivity.
  - intros strictMode rec sources st0 p Hreg Hfile.
    unfold analyze, getAnalyzer. cbn [getSource]. rewrite Hreg.
    destruct (inheritedKey (normalize p)).
    + now destruct getSourceFileOfUndefined as [thrown|[sf|]].
    + rewrite lookup_new. cbn. now rewrite Hfile.
Qed.

(** The repository's own test of an unexpected statement: a root whose
    only statement has kind [-100] fails to analyze in strict mode and
    falls back to a [CodeNode] with the statement's text and node in
    lenient mode. *)
Example unexpected_statement_test :
  fst (SourceAnalyzer_analyze true noRule
         (mkSourceAnalyzer 0
            (mkSourceFile 0 "filename" "sourceText"
               [mkTsNode 1 (OtherKind (-100)) "statementText"
                  "statementText" 0 0 None] None) true)
         [with_fileName "filename" (new Source)])
  = Raise (CouldNotAnalyze "statement" "statementText" (OtherKind (-100)))
  /\ let st' :=
       snd (SourceAnalyzer_analyze false noRule
              (mkSourceAnalyzer 0
                 (mkSourceFile 0 "filename" "sourceText"
                    [mkTsNode 1 (OtherKind (-100)) "statementText"
                       "statementText" 0 0 None] None) true)
              [with_fileName "filename" (new Source)]) in
     elements <$> st' !! 0%nat = Some [1%nat]
     /\ constructor <$> st' !! 1%nat = Some CodeNode
     /\ text <$> st' !! 1%nat = Some (Some "statementText")
     /\ (fun o => kind <$> match node o with
                           | Some (OfNode n) => Some n
                           | _ => None
                           end) <$> st' !! 1%nat
        = Some (Some (OtherKind (-100))).
Proof. repeat split. Qed.

Lemma error_policy_witness :
  analyzeElement true 0 (heritageRule true) classWithoutParent [new Source]
  = (Raise (CouldNotAnalyze "heritage clause" "extends" (OtherKind 0)),
     [new Source]).
Proof.
  exact (proj1 (error_policy heritageRule programExample id (inr None)
                  noCompositionRule 0 0
                  (heritageRule true) classWithoutParent _ [new Source]
                  [new Source] (new Source) eq_refl eq_refl)).
Defined.

(** ** What the analyzer caches on an appended node *)

(** C9 as the literal-slice rule is refuted: the statement [debugger;]
    is cached as [debugger], the semicolon of the element's text is cut
    off. *)
Lemma appended_text_drops_semicolon :
  getText debuggerStatement = "debugger;"
  /\ fst debuggerAppended = Ok tt
  /\ elements <$> snd debuggerAppended !! 0%nat = Some [1%nat]
  /\ text <$> snd debuggerAppended !! 1%nat = Some (Some "debugger")
  /\ ~ appended_text_is_literal_slice.
Proof.
  repeat split.
  intros H.
  destruct (H true (analyzeStatement noRule true) 0%nat debuggerStatement
              [new CodeBlock] (snd debuggerAppended) (new CodeBlock)
              (analyzeStatement_allocates noRule true noRule_allocates)
              eq_refl eq_refl)
    as (ob' & r & o & Hb & Hl & Hr & _ & Ht).
  vm_compute in Hb. injection Hb as <-.
  vm_compute in Hl. injection Hl as <-.
  vm_compute in Hr. injection Hr as <-.
  discriminate Ht.
Qed.

Lemma dropLast_lastChar (s : string) (c : ascii) :
  endsWith c s = true -> dropLast s +:+ String c "" = s.
Proof.
  unfold endsWith. induction s as [|d s IH]; [discriminate|].
  destruct s as [|d' s'].
  - cbn. destruct (Ascii.eqb_spec d c) as [->|]; [reflexivity|discriminate].
  - intros H. change (dropLast (String d (String d' s')))
      with (String d (dropLast (String d' s'))).
    rewrite append_cons. f_equal. now apply IH.
Qed.

(** C9 (amended): when the element analyzer returns a node for a parse
    element, [addToBlock] caches on it the element's text without one
    trailing semicolon (the literal text itself when it does not end with
    a semicolon), not a re-derived rendering, and appends the node as the
    last element of the block; it does not touch the origin link, which is
    whatever the construction rule registered (the element itself for the
    fallback node and for the two rules spelled out here).  The node then
    renders that cached text at once, without a composition rule. *)
Theorem appended_node_text
    (compositionRule : Class -> (Ref -> M string) -> Ref -> M string)
    (strictMode : bool) (elementAnalyzer : TsNode -> M Ref) (block : Ref)
    (e : TsNode) (st st1 : Store) (r : Ref) (os ob : Obj) (fuel : nat)
    (Hnode : elementAnalyzer e st = (Ok r, st1))
    (Hr : st1 !! r = Some os) (Hblock : st1 !! block = Some ob)
    (Hne : r <> block) (Hclass : constructor os <> TypeParameter) :
  (exists st',
     analyzeElement strictMode block elementAnalyzer e st = (Ok tt, st')
     /\ st' !! r = Some (with_text (Some (expressionText e)) os)
     /\ (exists ob', st' !! block = Some ob'
                     /\ last (elements ob') = Some r)
     /\ toString compositionRule (S fuel) r st'
        = (Ok (expressionText e), st'))
  /\ (endsWith semicolon (getText e) = false ->
      expressionText e = getText e)
  /\ (endsWith semicolon (getText e) = true ->
      expressionText e +:+ ";" = getText e)
  /\ (forall st0,
        fallbackNode e st0
        = (Ok (length st0),
           st0 ++ [with_text (Some (getText e))
                     (with_node (Some (OfNode e)) (new CodeNode))]))
  /\ (forall rule rec st0,
        kind e = DebuggerStatement \/ kind e = EmptyStatement ->
        exists o,
          analyzeStatement rule rec e st0 = (Ok (length st0), st0 ++ [o])
          /\ node o = Some (OfNode e)).
Proof.
  split; [|split; [|split; [|split]]].
  - destruct (addToBlock_spec st1 r block e os ob Hr Hblock Hne)
      as (st' & Heq & Hs & Hb & _).
    exists st'. split; [|split; [exact Hs|split]].
    + unfold analyzeElement, bind, try_catch. rewrite Hnode. exact Heq.
    + eexists. split; [exact Hb|]. cbn. apply appended_last.
    + rewrite (toString_unfold _ _ _ _ _ Hs) by exact Hclass.
      now apply (CodeNode_toString_cached _ _ _ _ _ _ _ Hs).
  - intros E. unfold expressionText. now rewrite E.
  - intros E. unfold expressionText. rewrite E.
    now apply dropLast_lastChar.
  - apply fallbackNode_eq.
  - intros rule rec st0 [Hk|Hk]; unfold analyzeStatement; rewrite Hk;
      rewrite simple_statement_eq; eexists; split; reflexivity.
Qed.

Lemma appended_node_text_witness :
  exists st',
    analyzeElement true 0 (analyzeStatement noRule true) debuggerStatement
      [new CodeBlock] = (Ok tt, st')
    /\ toString noCompositionRule 1 1 st' = (Ok "debugger", st').
Proof.
  destruct (proj1 (appended_node_text noCompositionRule true
                     (analyzeStatement noRule true) 0 debuggerStatement
                     [new CodeBlock] _ 1
                     _ (new CodeBlock) 0 eq_refl eq_refl eq_refl
                     ltac:(discriminate) ltac:(discriminate)))
    as (st' & H1 & _ & _ & H2).
  exists st'. split; [exact H1|exact H2].
Defined.

(* ===================================================================== *)
(** * Further properties of the code *)
(* ===================================================================== *)

(** ** Template literal pieces *)

Lemma length_append (a b : string) :
  String.length (a +:+ b) = (String.length a + String.length b)%nat.
Proof.
  induction a as [|c a IH]; [reflexivity|].
  rewrite append_cons. cbn [String.length]. now rewrite IH.
Qed.

Lemma take_chars_append (a b : string) :
  take_chars (String.length a) (a +:+ b) = a.
Proof.
  induction a as [|c a IH]; [now destruct b|].
  rewrite append_cons. cbn [String.length take_chars]. now rewrite IH.
Qed.

Lemma drop_chars_append (a b : string) :
  drop_chars (String.length a) (a +:+ b) = b.
Proof.
  induction a as [|c a IH]; [now destruct b|].
  rewrite append_cons. cbn [String.length drop_chars]. exact IH.
Qed.

(** Dropping all but the last character of [c :: body] in front of [s]. *)
Lemma drop_chars_last (c : ascii) (body s : string) :
  exists x,
    drop_chars (String.length body) (String c (body +:+ s)) = String x s.
Proof.
  revert c. induction body as [|d body IH]; intros c.
  - exists c. now rewrite append_nil_l.
  - rewrite append_cons. cbn [String.length drop_chars]. apply IH.
Qed.

(** The first character of an escaped text is never a back quote. *)
Lemma asToken_head (value : string) :
  match asToken value with
  | String c _ => c <> backquote
  | EmptyString => True
  end.
Proof.
  destruct value as [|c rest]; [exact I|]. cbn [asToken].
  destruct (Ascii.eqb_spec c backquote) as [->|Hne]; [discriminate|exact Hne].
Qed.

(** Escaping and then unescaping gives the value back:
    [asText(asToken(value)) == value] for every string, so a piece built
    by [fromToken] from the [buildString()] of another piece has the same
    [value]. *)
Theorem asText_asToken (value : string) :
  fromToken (TemplateLiteralPiece_buildString value) = value.
Proof.
  unfold fromToken, TemplateLiteralPiece_buildString.
  induction value as [|c rest IH]; [reflexivity|].
  cbn [asToken]. destruct (Ascii.eqb_spec c backquote) as [->|Hne].
  - cbn [asText]. rewrite Ascii.eqb_refl. cbn [andb].
    change (backquote =? backquote)%char with true. cbn iota.
    now rewrite IH.
  - pose proof (asToken_head rest) as Hhead.
    destruct (asToken rest) as [|d r] eqn:E.
    + cbn [asText]. cbn [asText] in IH. now rewrite <- IH.
    + change (asText (String c (String d r)))
        with (if Ascii.eqb c backslash && Ascii.eqb d backquote
              then String d (asText r)
              else String c (asText (String d r))).
      destruct (Ascii.eqb_spec d backquote) as [->|_];
        [now contradiction Hhead|].
      rewrite andb_false_r. now rewrite IH.
Qed.


Lemma asToken_asText_bounded (n : nat) :
  forall t, (String.length t <= n)%nat ->
    escaped_after false t = true -> asToken (asText t) = t.
Proof.
  induction n as [|n IH]; intros t Hlen Hesc.
  - destruct t; [reflexivity|simpl in Hlen; lia].
  - destruct t as [|c [|d r]]; [reflexivity| |].
    + cbn in Hesc. rewrite orb_false_r, andb_true_r in Hesc.
      apply negb_true_iff in Hesc. cbn [asText asToken]. now rewrite Hesc.
    + change (asText (String c (String d r)))
        with (if Ascii.eqb c backslash && Ascii.eqb d backquote
              then String d (asText r)
              else String c (asText (String d r))).
      change (escaped_after false (String c (String d r)))
        with ((negb (Ascii.eqb c backquote) || false)
              && ((negb (Ascii.eqb d backquote) || Ascii.eqb c backslash)
                  && escaped_after (Ascii.eqb d backslash) r)) in Hesc.
      rewrite orb_false_r in Hesc.
      apply andb_true_iff in Hesc as [Hc Hesc].
      apply andb_true_iff in Hesc as [Hd Hr].
      apply negb_true_iff in Hc.
      cbn [String.length] in Hlen.
      destruct (Ascii.eqb_spec c backslash) as [->|Hc1];
        destruct (Ascii.eqb_spec d backquote) as [->|Hd1];
        cbn [andb negb orb] in *.
      * change (backquote =? backslash)%char with false in Hr.
        cbn [asToken]. change (backquote =? backquote)%char with true.
        cbn iota. rewrite IH by (assumption || lia). reflexivity.
      * cbn [asToken]. change (backslash =? backquote)%char with false.
        cbn iota. rewrite IH; [reflexivity|cbn [String.length]; lia|].
        cbn [escaped_after]. apply Ascii.eqb_neq in Hd1. rewrite Hd1.
        exact Hr.
      * discriminate Hd.
      * cbn [asToken]. rewrite Hc.
        rewrite IH; [reflexivity|cbn [String.length]; lia|].
        cbn [escaped_after]. apply Ascii.eqb_neq in Hd1. rewrite Hd1.
        exact Hr.
Qed.

(** Unescaping and then escaping gives a token back when every back
    quote in it is escaped: for such a [token],
    [fromToken(token).buildString() == token].  This is the case of every
    piece the analyzer cuts out of a template literal, where a bare back
    quote would have ended the literal. *)
Theorem asToken_asText (token : string)
    (Hescaped : escaped_after false token = true) :
  TemplateLiteralPiece_buildString (fromToken token) = token.
Proof.
  unfold fromToken, TemplateLiteralPiece_buildString.
  now apply (asToken_asText_bounded (String.length token)).
Qed.

Lemma asToken_asText_witness :
  TemplateLiteralPiece_buildString (fromToken "a\`b") = "a\`b".
Proof. apply asToken_asText. reflexivity. Defined.

(** A bare back quote does not survive the round trip: it comes back
    escaped. *)
Example asToken_asText_bare :
  escaped_after false "a`b" = false
  /\ TemplateLiteralPiece_buildString (fromToken "a`b") = "a\`b".
Proof. split; reflexivity. Qed.

(** [getTemplateLiteralPiece] strips the delimiters of a template literal:
    whatever the opening character ([`] for a head or a literal without
    substitutions, [}] for a middle or a tail), a text that closes with a
    back quote or with [${] yields what stands between the opening
    character and that closing delimiter.  Texts too short to hold both
    delimiters are cut as [substring] cuts them. *)
Theorem getTemplateLiteralPiece_strips (opening : ascii) (body : string) :
  getTemplateLiteralPiece_text (String opening (body +:+ "`")) = body
  /\ getTemplateLiteralPiece_text (String opening (body +:+ "${")) = body
  /\ getTemplateLiteralPiece_text "" = ""
  /\ getTemplateLiteralPiece_text (String opening "") = String opening "".
Proof.
  split; [|split; [|split; [reflexivity|]]].
  - unfold getTemplateLiteralPiece_text.
    cbn [String.length]. rewrite length_append. cbn [String.length].
    set (n := String.length body).
    assert (Hsub : substr (String opening (body +:+ "`"))
                     (Z.of_nat (S (n + 1)) - 2) 2 <> "${").
    { unfold substr. cbn [String.length]. rewrite length_append.
      cbn [String.length]. fold n.
      destruct (Z.ltb_spec (Z.of_nat (S (n + 1)) - 2) 0) as [Hlt|_]; [lia|].
      replace (Z.min (Z.max 2 0)
                 (Z.of_nat (S (n + 1)) - (Z.of_nat (S (n + 1)) - 2)))
        with 2%Z by lia.
      cbn [Z.leb Z.compare].
      replace (Z.to_nat (Z.of_nat (S (n + 1)) - 2)) with n by lia.
      unfold n. destruct (drop_chars_last opening body "`") as [x ->].
      discriminate. }
    apply String.eqb_neq in Hsub. rewrite Hsub.
    unfold substring. cbn [String.length]. rewrite length_append.
    cbn [String.length]. fold n.
    replace (Z.to_nat _) with n by lia.
    replace (Z.to_nat _) with 1%nat by lia.
    cbn [drop_chars]. apply take_chars_append.
  - unfold getTemplateLiteralPiece_text.
    cbn [String.length]. rewrite length_append. cbn [String.length].
    set (n := String.length body).
    assert (Hsub : substr (String opening (body +:+ "${"))
                     (Z.of_nat (S (n + 2)) - 2) 2 = "${").
    { unfold substr. cbn [String.length]. rewrite length_append.
      cbn [String.length]. fold n.
      destruct (Z.ltb_spec (Z.of_nat (S (n + 2)) - 2) 0) as [Hlt|_]; [lia|].
      replace (Z.min (Z.max 2 0)
                 (Z.of_nat (S (n + 2)) - (Z.of_nat (S (n + 2)) - 2)))
        with 2%Z by lia.
      cbn [Z.leb Z.compare].
      replace (Z.to_nat (Z.of_nat (S (n + 2)) - 2)) with (S n) by lia.
      cbn [drop_chars]. unfold n. rewrite drop_chars_append. reflexivity. }
    rewrite Hsub. cbn [String.eqb Ascii.eqb Bool.eqb]. 
    unfold substring. cbn [String.length]. rewrite length_append.
    cbn [String.length]. fold n.
    replace (Z.to_nat _) with n by lia.
    replace (Z.to_nat _) with 1%nat by lia.
    cbn [drop_chars]. apply take_chars_append.
  - destruct opening as [[] [] [] [] [] [] [] []]; reflexivity.
Qed.

(** ** Searching and walking the tree *)

Lemma getChildren_eq (st : Store) (r : Ref) :
  getChildren r st
  = match childrenOf st r with
    | Some cs => (Ok cs, st)
    | None => (Raise TypeError, st)
    end.
Proof.
  unfold getChildren, childrenOf, bind, get.
  now destruct (st !! r).
Qed.

Lemma reaches_snoc (kids : Ref -> option (list Ref)) (r c d : Ref)
    (cs : list Ref) :
  reaches kids r c -> kids c = Some cs -> d ∈ cs -> reaches kids r d.
Proof.
  intros H Hk Hd. induction H as [r cs0 c Hr Hc|r cs0 c e Hr Hc _ IH].
  - eapply reaches_step; [exact Hr|exact Hc|].
    eapply reaches_child; eassumption.
  - eapply reaches_step; [exact Hr|exact Hc|]. now apply IH.
Qed.

Lemma reaches_ext (kids kids' : Ref -> option (list Ref)) (r d : Ref) :
  (forall x, kids x = kids' x) -> reaches kids r d -> reaches kids' r d.
Proof.
  intros Hext H. induction H as [r cs c Hr Hc|r cs c e Hr Hc _ IH].
  - eapply reaches_child; [|exact Hc]. now rewrite <- Hext.
  - eapply reaches_step; [|exact Hc|exact IH]. now rewrite <- Hext.
Qed.

Lemma findChild_loop_sound (p : Store -> Ref -> bool) (P : Ref -> Prop)
    (st : Store) :
  (forall q cs c, P q -> childrenOf st q = Some cs -> c ∈ cs -> P c) ->
  forall fuel queue res st',
    (forall q, q ∈ queue -> P q) ->
    findChild_loop fuel (pure_predicate p) queue st = (res, st') ->
    st' = st /\ forall r, res = Ok (Some r) -> P r /\ p st r = true.
Proof.
  intros Hstep. induction fuel as [|fuel IH]; intros queue res st' Hq H.
  - injection H as <- <-. split; [reflexivity|discriminate].
  - destruct queue as [|next queue].
    + injection H as <- <-. split; [reflexivity|discriminate].
    + cbn [findChild_loop] in H. unfold bind at 1 in H.
      unfold pure_predicate at 1 in H.
      destruct (p st next) eqn:Hp.
      * injection H as <- <-. split; [reflexivity|].
        intros r [= <-]. split; [|exact Hp].
        apply Hq, list_elem_of_here.
      * unfold bind at 1 in H. rewrite getChildren_eq in H.
        destruct (childrenOf st next) as [cs|] eqn:Hk.
        -- apply (IH (queue ++ cs)); [|exact H].
           intros q Hin. apply elem_of_app in Hin as [Hin|Hin].
           ++ apply Hq. now apply list_elem_of_further.
           ++ apply (Hstep next cs q); [|exact Hk|exact Hin].
              apply Hq, list_elem_of_here.
        -- injection H as <- <-. split; [reflexivity|discriminate].
Qed.

(** Whatever the store and the fuel, a search with a side-effect-free
    predicate leaves the store as it is, and a node it returns satisfies
    the predicate and is a descendant of the node searched from (or that
    node itself when [includeSelf] is set). *)
Theorem findChild_sound (p : Store -> Ref -> bool) (fuel : nat)
    (includeSelf : bool) (this : Ref) (st st' : Store)
    (res : outcome (option Ref)) :
  findChild fuel (pure_predicate p) includeSelf this st = (res, st') ->
  st' = st
  /\ forall r, res = Ok (Some r) ->
       p st r = true /\ searched st includeSelf this r.
Proof.
  intros H. unfold findChild in H. unfold bind at 1 in H.
  assert (Hstep : forall q cs c,
             searched st includeSelf this q ->
             childrenOf st q = Some cs -> c ∈ cs ->
             searched st includeSelf this c).
  { intros q cs c [[Hi ->]|Hd] Hk Hc; right.
    - eapply reaches_child; eassumption.
    - eapply reaches_snoc; eassumption. }
  destruct includeSelf.
  - cbn [ret] in H.
    destruct (findChild_loop_sound p _ st Hstep fuel [this] res st')
      as [-> Hres]; [|exact H|].
    + intros q Hq. apply list_elem_of_singleton in Hq as ->. now left.
    + split; [reflexivity|]. intros r Hr. now destruct (Hres r Hr).
  - rewrite getChildren_eq in H.
    destruct (childrenOf st this) as [cs|] eqn:Hk.
    + destruct (findChild_loop_sound p _ st Hstep fuel cs res st')
        as [-> Hres]; [|exact H|].
      * intros q Hq. right. eapply reaches_child; eassumption.
      * split; [reflexivity|]. intros r Hr. now destruct (Hres r Hr).
    + injection H as <- <-. split; [reflexivity|discriminate].
Qed.

Lemma findChild_sound_witness :
  (fun _ r => Nat.eqb r 2) dirtyExample 2%nat = true
  /\ searched dirtyExample false 0 2.
Proof.
  refine (proj2 (findChild_sound (fun _ r => Nat.eqb r 2) 3 false 0
                   dirtyExample dirtyExample (Ok (Some 2%nat)) _)
            2%nat eq_refl).
  vm_compute. reflexivity.
Defined.

Lemma findChild_loop_complete (p : Store -> Ref -> bool)
    (kids : Ref -> option (list Ref)) (rank : Ref -> nat) (st : Store) :
  well_founded_graph kids rank ->
  (forall r, childrenOf st r = kids r) ->
  forall fuel queue,
    (forall q, q ∈ queue -> is_Some (kids q)) ->
    (list_sum (map (fun q => subtreeSize kids (rank q) q) queue) < fuel)%nat ->
    exists res,
      findChild_loop fuel (pure_predicate p) queue st = (Ok res, st)
      /\ (res = None <->
          forall q d, q ∈ queue -> d = q \/ reaches kids q d ->
            p st d = false).
Proof.
  intros Hwf Hshape. induction fuel as [|fuel IH]; intros queue Hq Hlt;
    [lia|].
  destruct queue as [|next queue].
  - exists None. split; [reflexivity|]. split; [|reflexivity].
    intros _ q d Hin. now apply elem_of_nil in Hin.
  - cbn [findChild_loop]. unfold bind at 1. unfold pure_predicate at 1.
    destruct (p st next) eqn:Hp.
    + exists (Some next). split; [reflexivity|]. split; [discriminate|].
      intros H. rewrite (H next next (list_elem_of_here _ _) (or_introl eq_refl))
        in Hp. discriminate Hp.
    + destruct (Hq next (list_elem_of_here _ _)) as [cs Hk].
      unfold bind at 1. rewrite getChildren_eq, Hshape, Hk.
      destruct (IH (queue ++ cs)) as (res & Hres & Hiff).
      * intros q Hin. apply elem_of_app in Hin as [Hin|Hin].
        -- apply Hq. now apply list_elem_of_further.
        -- now destruct (Hwf next cs q Hk Hin).
      * cbn [map] in Hlt.
        rewrite (subtreeSize_unfold kids rank next cs Hwf Hk) in Hlt.
        change (list_sum (?x :: ?l)) with (x + list_sum l)%nat in Hlt.
        rewrite map_app, list_sum_app. lia.
      * exists res. split; [exact Hres|]. rewrite Hiff. split.
        -- intros H q d Hin Hd.
           apply elem_of_cons in Hin as [->|Hin].
           ++ destruct Hd as [->|Hd]; [exact Hp|].
              inversion Hd as [r cs0 c Hr Hc|r cs0 c e Hr Hc Hce]; subst;
                rewrite Hk in Hr; injection Hr as <-.
              ** apply (H d d); [apply elem_of_app; now right|now left].
              ** apply (H c d); [apply elem_of_app; now right|now right].
           ++ apply (H q d); [apply elem_of_app; now left|exact Hd].
        -- intros H q d Hin Hd.
           apply elem_of_app in Hin as [Hin|Hin].
           ++ apply (H q d); [now apply list_elem_of_further|exact Hd].
           ++ apply (H next d); [apply list_elem_of_here|right].
              destruct Hd as [->|Hd].
              ** eapply reaches_child; eassumption.
              ** eapply reaches_step; eassumption.
Qed.

(** On a store whose child graph is well founded, a search with a
    side-effect-free predicate and fuel for the subtree returns, and it
    finds a node exactly when one of the nodes it looks at satisfies the
    predicate: it comes back without a node if and only if the predicate
    is false on every descendant (and on the node itself when
    [includeSelf] is set). *)
Theorem findChild_complete (p : Store -> Ref -> bool)
    (kids : Ref -> option (list Ref)) (rank : Ref -> nat) (fuel : nat)
    (includeSelf : bool) (this : Ref) (st : Store)
    (Hwf : well_founded_graph kids rank)
    (Hshape : forall r, childrenOf st r = kids r)
    (Hthis : is_Some (st !! this))
    (Hfuel : (subtreeSize kids (rank this) this < fuel)%nat) :
  exists res,
    findChild fuel (pure_predicate p) includeSelf this st = (Ok res, st)
    /\ (res = None <->
        forall d, searched st includeSelf this d -> p st d = false).
Proof.
  assert (Hk : exists cs, kids this = Some cs).
  { rewrite <- Hshape. unfold childrenOf. destruct Hthis as [o ->]. eauto. }
  destruct Hk as [cs Hk].
  assert (Hdesc : forall r d, descendant st r d <-> reaches kids r d).
  { intros r d. split; apply reaches_ext; intros x; now rewrite Hshape. }
  unfold findChild. unfold bind at 1. destruct includeSelf.
  - cbn [ret].
    destruct (findChild_loop_complete p kids rank st Hwf Hshape fuel [this])
      as (res & Hres & Hiff).
    + intros q Hq. apply list_elem_of_singleton in Hq as ->. eauto.
    + cbn. lia.
    + exists res. split; [exact Hres|]. rewrite Hiff. split.
      * intros H d [[_ ->]|Hd].
        -- apply (H this this); [apply list_elem_of_here|now left].
        -- apply (H this d); [apply list_elem_of_here|right].
           now apply Hdesc.
      * intros H q d Hq Hd. apply list_elem_of_singleton in Hq as ->.
        apply H. destruct Hd as [->|Hd]; [now left|right].
        now apply Hdesc.
  - rewrite getChildren_eq, Hshape, Hk.
    destruct (findChild_loop_complete p kids rank st Hwf Hshape fuel cs)
      as (res & Hres & Hiff).
    + intros q Hq. now destruct (Hwf this cs q Hk Hq).
    + rewrite (subtreeSize_unfold kids rank this cs Hwf Hk) in Hfuel. lia.
    + exists res. split; [exact Hres|]. rewrite Hiff. split.
      * intros H d [[Hi _]|Hd]; [discriminate Hi|].
        apply Hdesc in Hd.
        inversion Hd as [r cs0 c Hr Hc|r cs0 c e Hr Hc Hce]; subst;
          rewrite Hk in Hr; injection Hr as <-.
        -- apply (H d d); [exact Hc|now left].
        -- apply (H c d); [exact Hc|now right].
      * intros H q d Hq Hd. apply H. right. apply Hdesc.
        destruct Hd as [->|Hd].
        -- eapply reaches_child; eassumption.
        -- eapply reaches_step; eassumption.
Qed.

Lemma findChild_complete_witness :
  exists res,
    findChild 4 (pure_predicate (fun _ r => Nat.eqb r 7)) true 0 dirtyExample
    = (Ok res, dirtyExample)
    /\ (res = None <->
        forall d, searched dirtyExample true 0 d -> Nat.eqb d 7 = false).
Proof.
  apply (findChild_complete (fun _ r => Nat.eqb r 7)
           (childrenOf dirtyExample)
           (fun r => match r with O => 1%nat | _ => 0%nat end)).
  - exact dirtyExample_well_founded.
  - reflexivity.
  - now eexists.
  - cbv. lia.
Defined.

Lemma findChild_loop_first (p : Store -> Ref -> bool) (st : Store)
    (c : Ref) :
  p st c = true ->
  forall pre post fuel,
    (forall q, q ∈ pre -> is_Some (st !! q) /\ p st q = false) ->
    (length pre < fuel)%nat ->
    findChild_loop fuel (pure_predicate p) (pre ++ c :: post) st
    = (Ok (Some c), st).
Proof.
  intros Hc. induction pre as [|q pre IH]; intros post fuel Hpre Hfuel.
  - destruct fuel as [|fuel]; [simpl in Hfuel; lia|].
    cbn [findChild_loop app]. unfold bind, pure_predicate. now rewrite Hc.
  - destruct fuel as [|fuel]; [simpl in Hfuel; lia|].
    cbn [findChild_loop app]. unfold bind at 1. unfold pure_predicate at 1.
    destruct (Hpre q (list_elem_of_here _ _)) as [[oq Hq] ->].
    unfold bind at 1. rewrite getChildren_eq. unfold childrenOf.
    rewrite Hq. cbn [fmap option_fmap option_map].
    rewrite <- app_assoc. cbn [app]. apply IH.
    + intros x Hx. apply Hpre. now apply list_elem_of_further.
    + simpl in Hfuel. lia.
Qed.

(** The search is breadth first and goes through the children in order:
    the first direct child that satisfies the predicate is the result,
    also when a sibling before it has descendants that satisfy the
    predicate.  The fuel needed is the number of siblings before it plus
    one. *)
Theorem findChild_first_child (p : Store -> Ref -> bool) (fuel : nat)
    (this : Ref) (st : Store) (pre post : list Ref) (c : Ref)
    (Hchildren : childrenOf st this = Some (pre ++ c :: post))
    (Hpre : forall q, q ∈ pre -> is_Some (st !! q) /\ p st q = false)
    (Hc : p st c = true)
    (Hfuel : (length pre < fuel)%nat) :
  findChild fuel (pure_predicate p) false this st = (Ok (Some c), st).
Proof.
  unfold findChild. unfold bind at 1. rewrite getChildren_eq, Hchildren.
  now apply findChild_loop_first.
Qed.

Lemma findChild_first_child_witness :
  findChild 2 (pure_predicate (hasToken "x")) false 0 searchExample
  = (Ok (Some 2%nat), searchExample).
Proof.
  apply (findChild_first_child (hasToken "x") 2 0 searchExample
           [1%nat] [] 2%nat eq_refl).
  - intros q Hq. apply list_elem_of_singleton in Hq as ->.
    split; [now eexists|reflexivity].
  - reflexivity.
  - simpl. lia.
Defined.

(** ** Recursive invalidation *)

Lemma markDirty_default_eq (st : Store) (c : Ref) (o : Obj) :
  st !! c = Some o ->
  markDirty_default c st
  = (Ok c, if Class_eqb (constructor o) CodeNode then st
           else <[c := with_text None o]> st).
Proof.
  intros Hc. unfold markDirty_default.
  rewrite (bind_Ok _ _ _ _ _ (get_Some _ _ _ Hc)).
  destruct (Class_eqb (constructor o) CodeNode); [reflexivity|].
  now rewrite (bind_Ok _ _ _ _ _ (modify_Some _ _ _ _ Hc)).
Qed.

Lemma invalidated_refl (st : Store) : invalidated st st.
Proof. split; [reflexivity|]. intros r ob H. now left. Qed.

Lemma invalidated_trans (st st1 st2 : Store) :
  invalidated st st1 -> invalidated st1 st2 -> invalidated st st2.
Proof.
  intros [Hl1 H1] [Hl2 H2]. split; [congruence|].
  intros r ob Hr. destruct (H1 r ob Hr) as [Hr1|[Hne Hr1]].
  - exact (H2 r ob Hr1).
  - destruct (H2 r _ Hr1) as [Hr2|[_ Hr2]]; right; (split; [exact Hne|]);
      exact Hr2.
Qed.

(** One [markDirty()] is an invalidation that leaves its node dirty. *)
Lemma invalidated_one (st : Store) (c : Ref) (o : Obj) :
  st !! c = Some o ->
  let st1 := if Class_eqb (constructor o) CodeNode then st
             else <[c := with_text None o]> st in
  invalidated st st1 /\ dirty st1 c
  /\ (forall r, r <> c -> st1 !! r = st !! r)
  /\ (forall r, childrenOf st1 r = childrenOf st r).
Proof.
  intros Hc st1. subst st1.
  destruct (Class_eqb (constructor o) CodeNode) eqn:E.
  - apply Class_eqb_eq in E. split; [apply invalidated_refl|].
    split; [|split; reflexivity].
    intros od Hod. rewrite Hc in Hod. injection Hod as <-. congruence.
  - assert (Hne : constructor o <> CodeNode).
    { intros H. apply Class_eqb_eq in H. congruence. }
    pose proof (lookup_lt_Some _ _ _ Hc) as Hlt.
    split; [split|split; [|split]].
    + apply length_insert.
    + intros r ob Hr. destruct (decide (r = c)) as [->|Hrc].
      * right. rewrite Hc in Hr. injection Hr as <-.
        split; [exact Hne|]. now apply list_lookup_insert_eq.
      * left. now rewrite list_lookup_insert_ne by congruence.
    + intros od Hod. rewrite list_lookup_insert_eq in Hod by exact Hlt.
      now injection Hod as <-.
    + intros r Hrc. now rewrite list_lookup_insert_ne by congruence.
    + intros r. unfold childrenOf. destruct (decide (r = c)) as [->|Hrc].
      * rewrite list_lookup_insert_eq by exact Hlt. now rewrite Hc.
      * now rewrite list_lookup_insert_ne by congruence.
Qed.

Lemma dirty_invalidated (st st' : Store) (d : Ref) :
  invalidated st st' -> dirty st d -> dirty st' d.
Proof.
  intros [Hl H] Hd od Hod Hne.
  assert (Hlt : (d < length st)%nat)
    by (rewrite <- Hl; now apply lookup_lt_Some in Hod).
  destruct (lookup_lt_is_Some_2 _ _ Hlt) as [ob Hob].
  destruct (H d ob Hob) as [Hsame|[_ Hcleared]].
  - rewrite Hsame in Hod. injection Hod as <-. now apply Hd.
  - rewrite Hcleared in Hod. now injection Hod as <-.
Qed.

Lemma markDirty_loop (kids : Ref -> option (list Ref)) (rank : Ref -> nat) :
  well_founded_graph kids rank ->
  forall fuel queue st,
    (forall r, childrenOf st r = kids r) ->
    (forall q, q ∈ queue -> is_Some (kids q)) ->
    (list_sum (map (fun q => subtreeSize kids (rank q) q) queue) < fuel)%nat ->
    exists st',
      findChild_loop fuel (fun n => markDirty_walker n ;;; ret false)
        queue st = (Ok None, st')
      /\ (forall r, childrenOf st' r = kids r)
      /\ invalidated st st'
      /\ (forall q d, q ∈ queue -> d = q \/ reaches kids q d -> dirty st' d)
      /\ (forall r, (forall q, q ∈ queue -> r <> q /\ ~ reaches kids q r) ->
            st' !! r = st !! r).
Proof.
  intros Hwf. induction fuel as [|fuel IH]; intros queue st Hshape Hq Hlt;
    [lia|].
  destruct queue as [|next queue].
  - exists st. split; [reflexivity|]. split; [exact Hshape|].
    split; [apply invalidated_refl|]. split; [|reflexivity].
    intros q d Hin. now apply elem_of_nil in Hin.
  - cbn [findChild_loop].
    destruct (Hq next (list_elem_of_here _ _)) as [cs Hk].
    assert (Hnext : exists o, st !! next = Some o).
    { specialize (Hshape next). rewrite Hk in Hshape.
      unfold childrenOf in Hshape.
      destruct (st !! next); [eauto|discriminate Hshape]. }
    destruct Hnext as [o Ho].
    destruct (invalidated_one st next o Ho) as (Hinv1 & Hdirty1 & Hframe1 & Hkids1).
    set (st1 := if Class_eqb (constructor o) CodeNode then st
                else <[next := with_text None o]> st) in *.
    unfold markDirty_walker.
    unfold bind at 1. unfold bind at 1. unfold bind at 1.
    rewrite (markDirty_default_eq st next o Ho). fold st1. cbn [ret].
    assert (Hshape1 : forall r, childrenOf st1 r = kids r).
    { intros r. now rewrite Hkids1. }
    unfold bind at 1. rewrite getChildren_eq, Hshape1, Hk.
    destruct (IH (queue ++ cs) st1 Hshape1)
      as (st' & Hloop & Hshape' & Hinv & Hdirty & Hframe).
    + intros q Hin. apply elem_of_app in Hin as [Hin|Hin].
      * apply Hq. now apply list_elem_of_further.
      * now destruct (Hwf next cs q Hk Hin).
    + cbn [map] in Hlt.
      rewrite (subtreeSize_unfold kids rank next cs Hwf Hk) in Hlt.
      change (list_sum (?x :: ?l)) with (x + list_sum l)%nat in Hlt.
      rewrite map_app, list_sum_app. lia.
    + exists st'. split; [exact Hloop|]. split; [exact Hshape'|].
      split; [exact (invalidated_trans _ _ _ Hinv1 Hinv)|]. split.
      * intros q d Hin Hd. apply elem_of_cons in Hin as [->|Hin].
        -- destruct Hd as [->|Hd].
           ++ exact (dirty_invalidated _ _ _ Hinv Hdirty1).
           ++ inversion Hd as [r cs0 c Hr Hc|r cs0 c e Hr Hc Hce]; subst;
                rewrite Hk in Hr; injection Hr as <-.
              ** apply (Hdirty d d); [apply elem_of_app; now right|now left].
              ** apply (Hdirty c d); [apply elem_of_app; now right|now right].
        -- apply (Hdirty q d); [apply elem_of_app; now left|exact Hd].
      * intros r Hr.
        destruct (Hr next (list_elem_of_here _ _)) as [Hne Hnr].
        rewrite Hframe; [now apply Hframe1|].
        intros q Hin. apply elem_of_app in Hin as [Hin|Hin].
        -- apply Hr. now apply list_elem_of_further.
        -- split.
           ++ intros ->. apply Hnr. eapply reaches_child; eassumption.
           ++ intros Hqr. apply Hnr. eapply reaches_step; eassumption.
Qed.

(** [markDirty(true)] on a node that is not a base [CodeNode], in a store
    whose child graph is well founded and with fuel for the subtree:
    the call returns the node; afterwards the node and every descendant
    have their cached text unset, except the base [CodeNode]s among them,
    which are as they were; every object outside the subtree is as it
    was; and nothing but cached texts has changed anywhere. *)
Theorem markDirty_recursive_subtree (kids : Ref -> option (list Ref))
    (rank : Ref -> nat) (st : Store) (this : Ref) (o : Obj) (fuel : nat)
    (Hwf : well_founded_graph kids rank)
    (Hshape : forall r, childrenOf st r = kids r)
    (Hthis : st !! this = Some o)
    (Hclass : constructor o <> CodeNode)
    (Hfuel : (subtreeSize kids (rank this) this <= fuel)%nat) :
  exists st',
    markDirty fuel true this st = (Ok this, st')
    /\ invalidated st st'
    /\ (forall d, d = this \/ descendant st this d -> dirty st' d)
    /\ (forall r, r <> this -> ~ descendant st this r -> st' !! r = st !! r).
Proof.
  assert (Hdesc : forall r d, descendant st r d <-> reaches kids r d).
  { intros r d. split; apply reaches_ext; intros x; now rewrite Hshape. }
  assert (Hk : exists cs, kids this = Some cs).
  { rewrite <- Hshape. unfold childrenOf. rewrite Hthis. eauto. }
  destruct Hk as [cs Hk].
  destruct (invalidated_one st this o Hthis)
    as (Hinv1 & Hdirty1 & Hframe1 & Hkids1).
  assert (E : Class_eqb (constructor o) CodeNode = false).
  { destruct (Class_eqb (constructor o) CodeNode) eqn:E; [|reflexivity].
    now apply Class_eqb_eq in E. }
  rewrite E in Hinv1, Hdirty1, Hframe1, Hkids1.
  set (st1 := <[this := with_text None o]> st) in *.
  assert (Hshape1 : forall r, childrenOf st1 r = kids r).
  { intros r. now rewrite Hkids1. }
  destruct (markDirty_loop kids rank Hwf fuel cs st1 Hshape1)
    as (st' & Hloop & _ & Hinv & Hdirty & Hframe).
  { intros q Hin. now destruct (Hwf this cs q Hk Hin). }
  { rewrite (subtreeSize_unfold kids rank this cs Hwf Hk) in Hfuel. lia. }
  exists st'. split; [|split; [|split]].
  - unfold markDirty.
    rewrite (bind_Ok _ _ _ _ _ (get_Some _ _ _ Hthis)), E.
    rewrite (bind_Ok _ _ _ _ _ (modify_Some _ _ _ _ Hthis)). fold st1.
    unfold walkChildren, findChild.
    unfold bind at 1. unfold bind at 1. unfold bind at 1.
    rewrite getChildren_eq, Hshape1, Hk.
    change (fun n : Ref => (markDirty_default n;;; ret tt);;; ret false)
      with (fun n : Ref => markDirty_walker n ;;; ret false).
    now rewrite Hloop.
  - exact (invalidated_trans _ _ _ Hinv1 Hinv).
  - intros d [->|Hd].
    + exact (dirty_invalidated _ _ _ Hinv Hdirty1).
    + apply Hdesc in Hd.
      inversion Hd as [r cs0 c Hr Hc|r cs0 c e Hr Hc Hce]; subst;
        rewrite Hk in Hr; injection Hr as <-.
      * apply (Hdirty d d); [exact Hc|now left].
      * apply (Hdirty c d); [exact Hc|now right].
  - intros r Hne Hnd. rewrite Hframe; [now apply Hframe1|].
    intros q Hin. split.
    + intros ->. apply Hnd, Hdesc. eapply reaches_child; eassumption.
    + intros Hqr. apply Hnd, Hdesc. eapply reaches_step; eassumption.
Qed.

Lemma markDirty_recursive_subtree_witness :
  exists st',
    markDirty 3 true 0 dirtyExample = (Ok 0%nat, st')
    /\ invalidated dirtyExample st'
    /\ (forall d, d = 0%nat \/ descendant dirtyExample 0 d -> dirty st' d)
    /\ (forall r, r <> 0%nat -> ~ descendant dirtyExample 0 r ->
          st' !! r = dirtyExample !! r).
Proof.
  apply (markDirty_recursive_subtree (childrenOf dirtyExample)
           (fun r => match r with O => 1%nat | _ => 0%nat end)
           dirtyExample 0
           (with_elements [1; 2]%nat
              (with_text (Some "{raw;x;}") (new CodeBlock)))).
  - exact dirtyExample_well_founded.
  - reflexivity.
  - reflexivity.
  - discriminate.
  - cbv. lia.
Defined.

(** ** Rendering only fills the cache *)

Lemma with_text_with_text (t t' : option string) (o : Obj) :
  with_text t' (with_text t o) = with_text t' o.
Proof. reflexivity. Qed.

Lemma changes_only_text_ret {A} (a : A) : changes_only_text (ret a).
Proof.
  intros st. split; [reflexivity|]. intros r o H. exists (text o).
  cbn. now rewrite with_text_same.
Qed.

Lemma changes_only_text_raise {A} (e : Error) :
  changes_only_text (raise e : M A).
Proof.
  intros st. split; [reflexivity|]. intros r o H. exists (text o).
  cbn. now rewrite with_text_same.
Qed.

Lemma changes_only_text_diverge {A} : changes_only_text (diverge : M A).
Proof.
  intros st. split; [reflexivity|]. intros r o H. exists (text o).
  cbn. now rewrite with_text_same.
Qed.

Lemma changes_only_text_get (r : Ref) : changes_only_text (get r).
Proof.
  intros st. unfold get.
  destruct (st !! r); (split; [reflexivity|]); intros r' o' H;
    exists (text o'); cbn; now rewrite with_text_same.
Qed.

Lemma changes_only_text_bind {A B} (m : M A) (k : A -> M B) :
  changes_only_text m -> (forall a, changes_only_text (k a)) ->
  changes_only_text (bind m k).
Proof.
  intros Hm Hk st. unfold bind. destruct (Hm st) as [Hl Ho].
  destruct (m st) as [[a|e|] st1]; cbn [snd] in *; [|now split..].
  destruct (Hk a st1) as [Hl1 Ho1]. split; [congruence|].
  intros r o Hr. destruct (Ho r o Hr) as [t Ht].
  destruct (Ho1 r _ Ht) as [t' Ht']. exists t'. exact Ht'.
Qed.

Lemma changes_only_text_modify (r : Ref) (t : option string) :
  changes_only_text (modify r (with_text t)).
Proof.
  intros st. unfold modify. destruct (st !! r) as [o0|] eqn:Hr.
  - cbn [snd]. split; [apply length_insert|].
    intros r' o' H. destruct (decide (r' = r)) as [->|Hne].
    + exists t. rewrite Hr in H. injection H as <-.
      apply list_lookup_insert_eq. now apply lookup_lt_Some in Hr.
    + exists (text o'). rewrite list_lookup_insert_ne by congruence.
      now rewrite with_text_same.
  - split; [reflexivity|]. intros r' o' H. exists (text o'). cbn.
    now rewrite with_text_same.
Qed.

Lemma changes_only_text_mapM {A B} (f : A -> M B) (l : list A) :
  (forall a, changes_only_text (f a)) -> changes_only_text (mapM f l).
Proof.
  intros Hf. induction l as [|x l IH]; [apply changes_only_text_ret|].
  cbn [mapM]. apply changes_only_text_bind; [apply Hf|]. intros y.
  apply changes_only_text_bind; [exact IH|]. intros ys.
  apply changes_only_text_ret.
Qed.

Lemma changes_only_text_terminal (fuel : nat) (this : Ref) :
  changes_only_text (statementLevelTerminal fuel this).
Proof.
  revert this. induction fuel as [|fuel IH]; intros this;
    [apply changes_only_text_diverge|].
  cbn [statementLevelTerminal].
  apply changes_only_text_bind; [apply changes_only_text_get|]. intros o.
  destruct (resolve declaresStatementLevelTerminal (constructor o));
    try apply changes_only_text_ret.
  - destruct (field 2 o); [apply IH|].
    destruct (field 1 o); [apply IH|apply changes_only_text_raise].
  - destruct (field 2 o); [|apply changes_only_text_ret].
    apply changes_only_text_bind; [apply changes_only_text_get|].
    intros b. apply changes_only_text_ret.
Qed.

Lemma changes_only_text_statements (render terminal : Ref -> M string)
    (this : Ref) :
  (forall r, changes_only_text (render r)) ->
  (forall r, changes_only_text (terminal r)) ->
  changes_only_text (AbstractStatementBlock_buildString render terminal this).
Proof.
  intros Hr Ht. unfold AbstractStatementBlock_buildString.
  apply changes_only_text_bind; [apply changes_only_text_get|]. intros o.
  apply changes_only_text_bind; [|intros; apply changes_only_text_ret].
  apply changes_only_text_mapM. intros s.
  apply changes_only_text_bind; [apply Hr|]. intros a.
  apply changes_only_text_bind; [apply Ht|]. intros b.
  apply changes_only_text_ret.
Qed.

Lemma changes_only_text_expressions (render : Ref -> M string) (this : Ref) :
  (forall r, changes_only_text (render r)) ->
  changes_only_text (AbstractExpressionBlock_buildString render this).
Proof.
  intros Hr. unfold AbstractExpressionBlock_buildString.
  apply changes_only_text_bind; [apply changes_only_text_get|]. intros o.
  apply changes_only_text_bind; [|intros; apply changes_only_text_ret].
  apply changes_only_text_mapM. intros v. unfold renderElement.
  apply changes_only_text_bind; [apply changes_only_text_get|]. intros vo.
  apply changes_only_text_bind; [apply Hr|]. intros s.
  apply changes_only_text_ret.
Qed.

Lemma changes_only_text_buildString
    (compositionRule : Class -> (Ref -> M string) -> Ref -> M string)
    (render terminal : Ref -> M string) (this : Ref) :
  text_only_rules compositionRule ->
  (forall r, changes_only_text (render r)) ->
  (forall r, changes_only_text (terminal r)) ->
  changes_only_text (buildString compositionRule render terminal this).
Proof.
  intros Hrules Hr Ht. unfold buildString.
  apply changes_only_text_bind; [apply changes_only_text_get|]. intros o.
  destruct (resolve declaresBuildString (constructor o));
    try (now apply Hrules);
    try apply changes_only_text_raise.
  - now apply changes_only_text_statements.
  - unfold CodeBlock_buildString.
    apply changes_only_text_bind;
      [now apply changes_only_text_statements
      |intros; apply changes_only_text_ret].
  - now apply changes_only_text_expressions.
  - unfold SimpleNode_buildString.
    apply changes_only_text_bind; [apply changes_only_text_get|].
    intros; apply changes_only_text_ret.
  - unfold Source_buildString.
    apply changes_only_text_bind;
      [now apply changes_only_text_statements
      |intros; apply changes_only_text_ret].
  - unfold ArrayLiteral_buildString.
    apply changes_only_text_bind;
      [now apply changes_only_text_expressions
      |intros; apply changes_only_text_ret].
  - unfold ObjectLiteral_buildString.
    apply changes_only_text_bind;
      [now apply changes_only_text_expressions
      |intros; apply changes_only_text_ret].
Qed.

Lemma toString_only_text
    (compositionRule : Class -> (Ref -> M string) -> Ref -> M string)
    (fuel : nat) (this : Ref)
    (Hrules : text_only_rules compositionRule) :
  changes_only_text (toString compositionRule fuel this).
Proof.
  revert this. induction fuel as [|fuel IH]; intros this;
    [apply changes_only_text_diverge|].
  cbn [toString].
  apply changes_only_text_bind; [apply changes_only_text_get|]. intros o.
  assert (Hdefault : changes_only_text
            (CodeNode_toString compositionRule (toString compositionRule fuel)
               (statementLevelTerminal fuel) this)).
  { unfold CodeNode_toString.
    apply changes_only_text_bind; [apply changes_only_text_get|]. intros o'.
    destruct (text o'); [apply changes_only_text_ret|].
    apply changes_only_text_bind.
    - apply changes_only_text_buildString; [exact Hrules|exact IH|].
      intros r. apply changes_only_text_terminal.
    - intros s. apply changes_only_text_bind;
        [apply changes_only_text_modify|intros; apply changes_only_text_ret]. }
  destruct (resolve declaresToString (constructor o)); try exact Hdefault.
  unfold TypeParameter_toString.
  apply changes_only_text_bind; [apply changes_only_text_get|]. intros o'.
  destruct (field 0 o'); [|apply changes_only_text_ret].
  apply changes_only_text_bind; [apply IH|].
  intros; apply changes_only_text_ret.
Qed.

Lemma noCompositionRule_text_only : text_only_rules noCompositionRule.
Proof. intros c render this _. apply changes_only_text_raise. Qed.

(** Rendering never changes the tree: whatever its outcome, [toString()]
    allocates nothing, and every object is afterwards what it was before
    except, at most, for its cached text.  Class, origin, elements,
    token and flags all stay, and so every node has the children it
    had. *)
Theorem toString_changes_only_text
    (compositionRule : Class -> (Ref -> M string) -> Ref -> M string)
    (fuel : nat) (this : Ref) (st st' : Store) (res : outcome string)
    (Hrules : text_only_rules compositionRule)
    (Hcall : toString compositionRule fuel this st = (res, st')) :
  length st' = length st
  /\ (forall r o, st !! r = Some o ->
        exists t, st' !! r = Some (with_text t o))
  /\ (forall r, childrenOf st' r = childrenOf st r).
Proof.
  destruct (toString_only_text compositionRule fuel this Hrules st)
    as [Hlen Hobj].
  rewrite Hcall in Hlen, Hobj. cbn [snd] in Hlen, Hobj.
  split; [exact Hlen|]. split; [exact Hobj|].
  intros r. unfold childrenOf.
  destruct (st !! r) as [o|] eqn:Hr.
  - destruct (Hobj r o Hr) as [t ->]. reflexivity.
  - apply lookup_ge_None in Hr.
    rewrite (proj2 (lookup_ge_None st' r)) by lia. reflexivity.
Qed.

Lemma toString_changes_only_text_witness :
  length (snd (toString noCompositionRule 2 0 rootExample))
  = length rootExample.
Proof.
  exact (proj1 (toString_changes_only_text noCompositionRule 2 0
                  rootExample _ _ noCompositionRule_text_only
                  (surjective_pairing _))).
Defined.

(** Rendering is memoised: once [toString()] has returned a string for a
    node (of any class but [TypeParameter], which has a [toString] of its
    own), that string is the node's cached text, and every later
    [toString()] returns it again without touching the store, until
    the text is unset. *)
Theorem toString_memoised
    (compositionRule : Class -> (Ref -> M string) -> Ref -> M string)
    (fuel fuel' : nat) (this : Ref) (st st' : Store) (o : Obj) (s : string)
    (Hrules : text_only_rules compositionRule)
    (Hthis : st !! this = Some o)
    (Hclass : constructor o <> TypeParameter)
    (Hfirst : toString compositionRule fuel this st = (Ok s, st')) :
  (exists o', st' !! this = Some o' /\ text o' = Some s)
  /\ toString compositionRule (S fuel') this st' = (Ok s, st').
Proof.
  destruct fuel as [|fuel]; [discriminate Hfirst|].
  rewrite (toString_unfold _ _ _ _ _ Hthis Hclass) in Hfirst.
  unfold CodeNode_toString in Hfirst.
  rewrite (bind_Ok _ _ _ _ _ (get_Some _ _ _ Hthis)) in Hfirst.
  assert (Hagain : forall o', st' !! this = Some o' ->
            constructor o' = constructor o -> text o' = Some s ->
            toString compositionRule (S fuel') this st' = (Ok s, st')).
  { intros o' Ho' Hc Ht.
    rewrite (toString_unfold _ _ _ _ _ Ho') by congruence.
    now apply (CodeNode_toString_cached _ _ _ _ _ o'). }
  destruct (text o) as [t|] eqn:Ht.
  - injection Hfirst as <- <-. split; [eauto|]. now apply (Hagain o).
  - unfold bind at 1 in Hfirst.
    pose proof (changes_only_text_buildString compositionRule
                  (toString compositionRule fuel)
                  (statementLevelTerminal fuel) this Hrules
                  (fun r => toString_only_text _ fuel r Hrules)
                  (changes_only_text_terminal fuel) st) as [_ Hkeep].
    destruct (buildString compositionRule (toString compositionRule fuel)
                (statementLevelTerminal fuel) this st)
      as [[s0|e|] st1]; [|discriminate Hfirst..].
    destruct (Hkeep this o Hthis) as [t1 Ho1]. cbn [snd] in Ho1.
    rewrite (bind_Ok _ _ _ _ _ (modify_Some _ _ _ _ Ho1)) in Hfirst.
    injection Hfirst as <- <-.
    assert (Ho' : <[this := with_text (Some s0) (with_text t1 o)]> st1
                  !! this = Some (with_text (Some s0) (with_text t1 o))).
    { apply list_lookup_insert_eq. now apply lookup_lt_Some in Ho1. }
    split; [eauto|]. now apply (Hagain _ Ho').
Qed.

Lemma toString_memoised_witness :
  toString noCompositionRule 1 0
    (snd (toString noCompositionRule 2 0 rootExample))
  = (Ok ("debugger;" +:+ String newline ""),
     snd (toString noCompositionRule 2 0 rootExample)).
Proof.
  refine (proj2 (toString_memoised noCompositionRule 2 0 0 rootExample _
                   (with_elements [1%nat] (new Source)) _
                   noCompositionRule_text_only eq_refl _ _)).
  - discriminate.
  - vm_compute. reflexivity.
Defined.

(** ** Re-rendering simple nodes and empty blocks *)

(** Changing the [token] of a simple node ([SimpleNode], [Keyword],
    [EmptyExpression], [KeywordType], [Trivia], [AtomicValue],
    [Identifier]) shows after [markDirty()]: whatever text was cached,
    [markDirty()] followed by [toString()] returns the current token and
    caches it. *)
Theorem SimpleNode_rerender
    (compositionRule : Class -> (Ref -> M string) -> Ref -> M string)
    (fuel fuel' : nat) (this : Ref) (st : Store) (o : Obj)
    (Hthis : st !! this = Some o)
    (Hclass : resolve declaresBuildString (constructor o) = SimpleNode) :
  markDirty fuel false this st
  = (Ok this, <[this := with_text None o]> st)
  /\ toString compositionRule (S fuel') this
       (<[this := with_text None o]> st)
     = (Ok (token o), <[this := with_text (Some (token o)) o]> st).
Proof.
  assert (Hne : Class_eqb (constructor o) CodeNode = false).
  { destruct (constructor o); try reflexivity; discriminate Hclass. }
  assert (Hnt : constructor o <> TypeParameter).
  { intros H. rewrite H in Hclass. discriminate Hclass. }
  pose proof (lookup_insert_same st this o (with_text None o) Hthis) as H1.
  split.
  - rewrite markDirty_false, (markDirty_default_eq st this o Hthis).
    now rewrite Hne.
  - rewrite (toString_unfold _ _ _ _ _ H1) by exact Hnt.
    assert (Hb : buildString compositionRule (toString compositionRule fuel')
                   (statementLevelTerminal fuel') this
                   (<[this := with_text None o]> st)
                 = (Ok (token o), <[this := with_text None o]> st)).
    { unfold buildString.
      rewrite (bind_Ok _ _ _ _ _ (get_Some _ _ _ H1)).
      change (constructor (with_text None o)) with (constructor o).
      rewrite Hclass. unfold SimpleNode_buildString.
      now rewrite (bind_Ok _ _ _ _ _ (get_Some _ _ _ H1)). }
    rewrite (CodeNode_toString_unset_Ok _ _ _ _ _ _ _ _ _ H1 eq_refl Hb H1).
    now rewrite list_insert_insert_eq.
Qed.

Lemma SimpleNode_rerender_witness :
  toString noCompositionRule 1 2
    (<[2%nat := with_text None
                 (with_text (Some "x") (with_token "y" (new Identifier)))]>
       dirtyExample)
  = (Ok "y",
     <[2%nat := with_text (Some "y")
                 (with_text (Some "x") (with_token "y" (new Identifier)))]>
       dirtyExample).
Proof.
  exact (proj2 (SimpleNode_rerender noCompositionRule 0 0 2 dirtyExample
                  (with_text (Some "x") (with_token "y" (new Identifier)))
                  eq_refl eq_refl)).
Defined.

Lemma mapM_nil {A B} (f : A -> M B) (st : Store) :
  mapM f [] st = (Ok [], st).
Proof. reflexivity. Qed.

(** A block without elements and without cached text renders as its
    bare delimiters: nothing for a statement or expression block, [{}] for
    a [CodeBlock], a [TypeLiteral] or an [ObjectLiteral], [[]] for an
    [ArrayLiteral], and a single newline for a [Source]; the result is
    cached on the block. *)
Theorem empty_block_renders
    (compositionRule : Class -> (Ref -> M string) -> Ref -> M string)
    (fuel : nat) (this : Ref) (st : Store) (o : Obj)
    (Hthis : st !! this = Some o) (Htext : text o = None)
    (Hempty : elements o = []) :
  let renders s :=
    toString compositionRule (S fuel) this st
    = (Ok s, <[this := with_text (Some s) o]> st) in
  (constructor o ∈ [AbstractStatementBlock; AbstractExpressionBlock] ->
     renders "")
  /\ (constructor o ∈ [CodeBlock; TypeLiteral; ObjectLiteral] ->
        renders "{}")
  /\ (constructor o = ArrayLiteral -> renders "[]")
  /\ (constructor o = Source -> renders (String newline "")).
Proof.
  intros renders. subst renders.
  assert (Hbuild : forall s,
            constructor o <> TypeParameter ->
            buildString compositionRule (toString compositionRule fuel)
              (statementLevelTerminal fuel) this st = (Ok s, st) ->
            toString compositionRule (S fuel) this st
            = (Ok s, <[this := with_text (Some s) o]> st)).
  { intros s Hnt Hb. rewrite (toString_unfold _ _ _ _ _ Hthis Hnt).
    now apply (CodeNode_toString_unset_Ok _ _ _ _ _ _ o o). }
  assert (Hstmts : AbstractStatementBlock_buildString
                     (toString compositionRule fuel)
                     (statementLevelTerminal fuel) this st = (Ok "", st)).
  { unfold AbstractStatementBlock_buildString.
    rewrite (bind_Ok _ _ _ _ _ (get_Some _ _ _ Hthis)), Hempty.
    reflexivity. }
  assert (Hexprs : AbstractExpressionBlock_buildString
                     (toString compositionRule fuel) this st = (Ok "", st)).
  { unfold AbstractExpressionBlock_buildString.
    rewrite (bind_Ok _ _ _ _ _ (get_Some _ _ _ Hthis)), Hempty.
    reflexivity. }
  repeat split; intros Hc.
  - apply elem_of_cons in Hc as [Hc|Hc];
      [|apply list_elem_of_singleton in Hc];
      apply Hbuild; try (rewrite Hc; discriminate);
      unfold buildString;
      rewrite (bind_Ok _ _ _ _ _ (get_Some _ _ _ Hthis)), Hc;
      [exact Hstmts|exact Hexprs].
  - apply elem_of_cons in Hc as [Hc|Hc];
      [|apply elem_of_cons in Hc as [Hc|Hc];
        [|apply list_elem_of_singleton in Hc]];
      apply Hbuild; try (rewrite Hc; discriminate);
      unfold buildString;
      rewrite (bind_Ok _ _ _ _ _ (get_Some _ _ _ Hthis)), Hc.
    + change (CodeBlock_buildString (toString compositionRule fuel)
                (statementLevelTerminal fuel) this st = (Ok "{}", st)).
      unfold CodeBlock_buildString.
      now rewrite (bind_Ok _ _ _ _ _ Hstmts).
    + change (CodeBlock_buildString (toString compositionRule fuel)
                (statementLevelTerminal fuel) this st = (Ok "{}", st)).
      unfold CodeBlock_buildString.
      now rewrite (bind_Ok _ _ _ _ _ Hstmts).
    + change (ObjectLiteral_buildString (toString compositionRule fuel)
                this st = (Ok "{}", st)).
      unfold ObjectLiteral_buildString.
      now rewrite (bind_Ok _ _ _ _ _ Hexprs).
  - apply Hbuild; [rewrite Hc; discriminate|]. unfold buildString.
    rewrite (bind_Ok _ _ _ _ _ (get_Some _ _ _ Hthis)), Hc.
    change (ArrayLiteral_buildString (toString compositionRule fuel)
              this st = (Ok "[]", st)).
    unfold ArrayLiteral_buildString.
    now rewrite (bind_Ok _ _ _ _ _ Hexprs).
  - apply Hbuild; [rewrite Hc; discriminate|]. unfold buildString.
    rewrite (bind_Ok _ _ _ _ _ (get_Some _ _ _ Hthis)), Hc.
    change (Source_buildString (toString compositionRule fuel)
              (statementLevelTerminal fuel) this st
            = (Ok (String newline ""), st)).
    unfold Source_buildString.
    now rewrite (bind_Ok _ _ _ _ _ Hstmts).
Qed.

Lemma empty_block_renders_witness :
  toString noCompositionRule 1 0 [new Source]
  = (Ok (String newline ""),
     <[0%nat := with_text (Some (String newline "")) (new Source)]>
       [new Source]).
Proof.
  exact (proj2 (proj2 (proj2
           (empty_block_renders noCompositionRule 0 0 [new Source]
              (new Source) eq_refl eq_refl eq_refl))) eq_refl).
Defined.

(** ** [resetBody] and the render cache *)

(** [resetBody()] empties the block and makes it analyzable again, but it
    does not mark the block dirty: a block with cached text still renders
    that text after [resetBody()], although its elements are gone. *)
Theorem resetBody_keeps_text
    (compositionRule : Class -> (Ref -> M string) -> Ref -> M string)
    (fuel : nat) (this : Ref) (st : Store) (o : Obj) (t : string)
    (Hthis : st !! this = Some o) (Htext : text o = Some t)
    (Hclass : constructor o <> TypeParameter) :
  let o' := with_bodyHasBeenAnalyzed false (with_elements [] o) in
  resetBody this st = (Ok tt, <[this := o']> st)
  /\ canAnalyzeBody o' = true
  /\ elements o' = []
  /\ toString compositionRule (S fuel) this (<[this := o']> st)
     = (Ok t, <[this := o']> st).
Proof.
  intros o'. subst o'.
  pose proof (lookup_insert_same st this o
                (with_bodyHasBeenAnalyzed false (with_elements [] o)) Hthis)
    as H1.
  split; [|split; [reflexivity|split; [reflexivity|]]].
  - unfold resetBody.
    rewrite (bind_Ok _ _ _ _ _ (modify_Some _ _ _ _ Hthis)).
    rewrite (modify_Some _ _ _ _
               (lookup_insert_same st this o (with_elements [] o) Hthis)).
    now rewrite list_insert_insert_eq.
  - rewrite (toString_unfold _ _ _ _ _ H1) by exact Hclass.
    now apply (CodeNode_toString_cached _ _ _ _ _ _ _ H1).
Qed.

Lemma resetBody_keeps_text_witness :
  toString noCompositionRule 1 0
    (<[0%nat := with_bodyHasBeenAnalyzed false
                  (with_elements []
                     (with_elements [1; 2]%nat
                        (with_text (Some "{raw;x;}") (new CodeBlock))))]>
       dirtyExample)
  = (Ok "{raw;x;}",
     <[0%nat := with_bodyHasBeenAnalyzed false
                  (with_elements []
                     (with_elements [1; 2]%nat
                        (with_text (Some "{raw;x;}") (new CodeBlock))))]>
       dirtyExample).
Proof.
  refine (proj2 (proj2 (proj2
            (resetBody_keeps_text noCompositionRule 0 0 dirtyExample
               (with_elements [1; 2]%nat
                  (with_text (Some "{raw;x;}") (new CodeBlock)))
               "{raw;x;}" eq_refl eq_refl _)))).
  discriminate.
Defined.

(** ** The host's registry of roots *)

Lemma registry_ok_prefix (sources : gmap string Ref) (st st' : Store) :
  st `prefix_of` st' -> registry_ok sources st -> registry_ok sources st'.
Proof.
  intros Hp Hreg p r H. destruct (Hreg p r H) as (o & Ho & Hc & Hf).
  exists o. split; [now apply (prefix_lookup_Some st)|now split].
Qed.

Lemma getSource_ByPath (normalize : string -> string) (p : string)
    (sources : gmap string Ref) (st : Store) :
  registry_ok sources st ->
  inheritedKey (normalize p) = false ->
  exists r sources' st',
    getSource normalize (ByPath p) sources st
    = (Ok (IsSource r), sources', st')
    /\ registry_ok sources' st'
    /\ sources' !! normalize p = Some r
    /\ (forall k v, sources !! k = Some v -> sources' !! k = Some v)
    /\ st `prefix_of` st'
    /\ (is_Some (sources !! normalize p) -> sources' = sources /\ st' = st)
    /\ (sources !! normalize p = None ->
        r = length st
        /\ st' = st ++ [with_fileName (normalize p) (new Source)]
        /\ sources' = <[normalize p := r]> sources).
Proof.
  intros Hreg Hkey. cbn [getSource]. rewrite Hkey.
  destruct (sources !! normalize p) as [s|] eqn:E.
  - exists s, sources, st. split; [reflexivity|]. split; [exact Hreg|].
    split; [exact E|]. split; [auto|]. split; [reflexivity|].
    split; [now split|discriminate].
  - eexists _, _, _. split; [reflexivity|].
    split; [|split; [|split; [|split; [|split]]]].
    + intros k r Hk. destruct (decide (k = normalize p)) as [->|Hne].
      * rewrite lookup_insert_eq in Hk. injection Hk as <-.
        eexists. split; [apply lookup_new|]. now split.
      * rewrite lookup_insert_ne in Hk by congruence.
        destruct (Hreg k r Hk) as (o & Ho & Hc & Hf).
        exists o. split; [now apply lookup_old|now split].
    + apply lookup_insert_eq.
    + intros k v Hk. rewrite lookup_insert_ne; [exact Hk|]. congruence.
    + now apply prefix_app_r.
    + intros [x Hx]. discriminate Hx.
    + intros _. now repeat split.
Qed.

(** The host keeps one root per normalized path, for the paths that do
    not normalize to a name inherited from [Object.prototype]: asking for
    two such paths returns the same [Source] exactly when the paths
    normalize to the same string, and then the second request changes
    neither the registry nor the store; the registry stays well formed
    (every registered root is a [Source] whose [fileName] is its key).
    For a path that normalizes to an inherited name ([constructor],
    [toString], ...) and is not registered, [getSource] returns the
    inherited member instead: no [Source] is created and nothing is
    registered. *)
Theorem getSource_one_root_per_path (normalize : string -> string)
    (p q : string) (sources : gmap string Ref) (st : Store)
    (Hreg : registry_ok sources st) :
  (inheritedKey (normalize p) = false ->
   inheritedKey (normalize q) = false ->
   exists a b sources1 st1 sources2 st2,
     getSource normalize (ByPath p) sources st
     = (Ok (IsSource a), sources1, st1)
     /\ getSource normalize (ByPath q) sources1 st1
        = (Ok (IsSource b), sources2, st2)
     /\ registry_ok sources2 st2
     /\ (a = b <-> normalize p = normalize q)
     /\ (normalize p = normalize q -> sources2 = sources1 /\ st2 = st1))
  /\ (inheritedKey (normalize p) = true ->
      sources !! normalize p = None ->
      getSource normalize (ByPath p) sources st
      = (Ok (PrototypeMember (normalize p)), sources, st)).
Proof.
  split.
  - intros Hp Hq.
    destruct (getSource_ByPath normalize p sources st Hreg Hp)
      as (a & sources1 & st1 & H1 & Hreg1 & Ha & _ & _ & _).
    destruct (getSource_ByPath normalize q sources1 st1 Hreg1 Hq)
      as (b & sources2 & st2 & H2 & Hreg2 & Hb & Hsub & _ & Hsame & _).
    exists a, b, sources1, st1, sources2, st2.
    split; [exact H1|]. split; [exact H2|]. split; [exact Hreg2|]. split.
    + split.
      * intros <-.
        destruct (Hreg2 _ _ (Hsub _ _ Ha)) as (o & Ho & _ & Hf).
        destruct (Hreg2 _ _ Hb) as (o' & Ho' & _ & Hf').
        rewrite Ho in Ho'. injection Ho' as <-. congruence.
      * intros Heq. rewrite <- Heq in Hb.
        apply Hsub in Ha. congruence.
    + intros Heq. apply Hsame. rewrite <- Heq. eauto.
  - intros Hp Hnone. cbn [getSource]. now rewrite Hnone, Hp.
Qed.

Lemma getSource_one_root_per_path_witness :
  (exists a b sources1 st1 sources2 st2,
     getSource id (ByPath "a.ts") ∅ [] = (Ok (IsSource a), sources1, st1)
     /\ getSource id (ByPath "b.ts") sources1 st1
        = (Ok (IsSource b), sources2, st2)
     /\ registry_ok sources2 st2
     /\ (a = b <-> id "a.ts" = id "b.ts")
     /\ (id "a.ts" = id "b.ts" -> sources2 = sources1 /\ st2 = st1))
  /\ getSource id (ByPath "constructor") ∅ []
     = (Ok (PrototypeMember "constructor"), ∅, []).
Proof.
  split.
  - exact (proj1 (getSource_one_root_per_path id "a.ts" "b.ts" ∅ []
                    (registry_ok_empty [])) eq_refl eq_refl).
  - exact (proj2 (getSource_one_root_per_path id "constructor" "b.ts" ∅ []
                    (registry_ok_empty [])) eq_refl eq_refl).
Defined.

Lemma with_flag_elements_same (o : Obj) :
  with_bodyHasBeenAnalyzed (bodyHasBeenAnalyzed o)
    (with_elements (elements o ++ []) o) = o.
Proof. destruct o. cbn. now rewrite app_nil_r. Qed.

Lemma with_flag_same (es : list Ref) (o : Obj) :
  with_bodyHasBeenAnalyzed (bodyHasBeenAnalyzed o) (with_elements es o)
  = with_elements es o.
Proof. reflexivity. Qed.

(** Whatever its outcome, a block analysis leaves every other object that
    existed as it was, and changes the block at most in its elements,
    which only grow, and its flag. *)
Lemma performBlockAnalysis_frame (strictMode : bool) (block : Ref)
    (elems : list TsNode) (elementAnalyzer : TsNode -> M Ref)
    (ignoreTrailing : bool) (st st' : Store) (ob : Obj)
    (res : outcome Ref) :
  allocates_only elementAnalyzer ->
  st !! block = Some ob ->
  performBlockAnalysis strictMode block elems elementAnalyzer ignoreTrailing
    st = (res, st') ->
  (forall r o, r <> block -> st !! r = Some o -> st' !! r = Some o)
  /\ exists es b,
       st' !! block
       = Some (with_bodyHasBeenAnalyzed b
                 (with_elements (elements ob ++ es) ob)).
Proof.
  intros Hea Hb H. unfold performBlockAnalysis in H.
  rewrite (bind_Ok _ _ _ _ _ (get_Some _ _ _ Hb)) in H.
  destruct (canAnalyzeBody ob); cbn [negb] in H.
  2:{ injection H as <- <-. split; [auto|].
      exists [], (bodyHasBeenAnalyzed ob).
      now rewrite with_flag_elements_same. }
  unfold bind at 1 in H.
  destruct (forEach _ elems st) as [r1 st1] eqn:E.
  pose proof (forEach_grows _ _ _ _ Hea _ _ _ _ Hb E) as [Ho1 Hb1].
  destruct (Hb1 ob Hb) as (es1 & Hb1' & _).
  assert (Hstop : (forall r o, r <> block -> st !! r = Some o ->
                     st1 !! r = Some o)
                  /\ exists es b,
                       st1 !! block
                       = Some (with_bodyHasBeenAnalyzed b
                                 (with_elements (elements ob ++ es) ob))).
  { split; [exact Ho1|]. exists es1, (bodyHasBeenAnalyzed ob).
    now rewrite with_flag_same. }
  destruct r1 as [[]|e|]; [|injection H as <- <-; exact Hstop..].
  clear Hstop. unfold bind at 1 in H.
  assert (Hg2 : exists r2 st2,
            (if negb ignoreTrailing
             then b <- get block ;; addTrailingBlockSpacing block (node b)
             else ret tt) st1 = (r2, st2)
            /\ grows block 0 st1 st2).
  { destruct ignoreTrailing; cbn [negb].
    - exists (Ok tt), st1. split; [reflexivity|apply grows_refl].
    - rewrite (bind_Ok _ _ _ _ _ (get_Some _ _ _ Hb1')).
      destruct (addTrailingBlockSpacing block _ st1) as [r2 st2] eqn:E2.
      exists r2, st2. split; [reflexivity|].
      exact (addTrailingBlockSpacing_grows _ _ _ _ _ _ Hb1' E2). }
  destruct Hg2 as (r2 & st2 & E2 & [Ho2 Hb2]). rewrite E2 in H.
  destruct (Hb2 _ Hb1') as (es2 & Hb2' & _). cbn in Hb2'.
  rewrite <- app_assoc in Hb2'.
  assert (Hstop : (forall r o, r <> block -> st !! r = Some o ->
                     st2 !! r = Some o)
                  /\ exists es b,
                       st2 !! block
                       = Some (with_bodyHasBeenAnalyzed b
                                 (with_elements (elements ob ++ es) ob))).
  { split; [auto|]. exists (es1 ++ es2), (bodyHasBeenAnalyzed ob).
    now rewrite with_flag_same. }
  destruct r2 as [[]|e|]; [|injection H as <- <-; exact Hstop..].
  clear Hstop.
  rewrite (bind_Ok _ _ _ _ _ (modify_Some _ _ _ _ Hb2')) in H.
  injection H as <- <-. split.
  - intros r o Hr Hro. rewrite list_lookup_insert_ne by congruence. auto.
  - exists (es1 ++ es2), true. now apply (lookup_insert_same _ _ _ _ Hb2').
Qed.

Lemma SourceAnalyzer_analyze_frame (strictMode : bool)
    (rule : bool -> TsNode -> M Ref) (analyzer : SourceAnalyzer)
    (st st' : Store) (res : outcome Ref) :
  (forall rec, allocates_only (rule rec)) ->
  SourceAnalyzer_analyze strictMode rule analyzer st = (res, st') ->
  same_roots st st'
  /\ (forall r o, r <> source analyzer -> st !! r = Some o ->
        st' !! r = Some o).
Proof.
  intros Hrule H. destruct analyzer as [src sf rec].
  unfold SourceAnalyzer_analyze in H. cbn [source sourceFile recursive] in H.
  destruct (st !! src) as [o|] eqn:Hs.
  2:{ unfold registerWithNode, bind, modify in H. rewrite Hs in H.
      injection H as <- <-. split; [|auto].
      intros r o Hr. exists o. now split. }
  rewrite (bind_Ok _ _ _ _ _ (registerWithNode_Some _ _ _ _ Hs)) in H.
  rewrite (bind_Ok _ _ _ _ _
             (setText_Some _ _ _ _ (lookup_insert_same _ _ _ _ Hs))) in H.
  rewrite list_insert_insert_eq in H.
  set (o2 := with_text (Some (sf_getFullText sf))
               (with_node (Some (OfFile sf)) o)) in H.
  assert (Hs2 : <[src := o2]> st !! src = Some o2)
    by now apply (lookup_insert_same _ _ o).
  destruct (performBlockAnalysis_frame _ _ _ _ _ _ _ _ _
              (analyzeModuleElement_allocates rule rec Hrule) Hs2 H)
    as [Hothers (es & b & Hb)].
  assert (Hframe : forall r o0, r <> src -> st !! r = Some o0 ->
                     st' !! r = Some o0).
  { intros r o0 Hne Hr. apply Hothers; [exact Hne|].
    now rewrite list_lookup_insert_ne by congruence. }
  split; [|exact Hframe].
  intros r o0 Hr. destruct (decide (r = src)) as [->|Hne].
  - rewrite Hs in Hr. injection Hr as <-. eexists. split; [exact Hb|].
    now split.
  - exists o0. split; [now apply Hframe|now split].
Qed.

Lemma registry_ok_same_roots (sources : gmap string Ref) (st st' : Store) :
  same_roots st st' -> registry_ok sources st -> registry_ok sources st'.
Proof.
  intros Hsame Hreg p r H. destruct (Hreg p r H) as (o & Ho & Hc & Hf).
  destruct (Hsame r o Ho) as (o' & Ho' & Hc' & Hf').
  exists o'. split; [exact Ho'|]. split; congruence.
Qed.

Lemma getSource_keeps_registry (normalize : string -> string)
    (src : SourceArg) (sources sources1 : gmap string Ref)
    (st st1 : Store) (res : outcome Resolved) :
  getSource normalize src sources st = (res, sources1, st1) ->
  registry_ok sources st -> registry_ok sources1 st1.
Proof.
  intros H Hreg. destruct src as [p|s]; cbn [getSource] in H.
  - destruct (inheritedKey (normalize p)) eqn:Hkey.
    + destruct (sources !! normalize p); now injection H as <- <- <-.
    + destruct (getSource_ByPath normalize p sources st Hreg Hkey)
        as (r & sources' & st' & Hg & Hreg' & _).
      cbn [getSource] in Hg. rewrite Hkey in Hg. rewrite Hg in H.
      now injection H as <- <- <-.
  - destruct (st !! s) as [o|]; [|now injection H as <- <- <-].
    destruct (instanceOf (constructor o) Source);
      now injection H as <- <- <-.
Qed.

Lemma changes_only_text_same_roots {A} (m : M A) (st : Store) :
  changes_only_text m -> same_roots st (snd (m st)).
Proof.
  intros Hm r o Hr. destruct (proj2 (Hm st) r o Hr) as [t Ht].
  exists (with_text t o). now split.
Qed.

(** The registry stays well formed through [analyze], whatever the
    argument and whatever the outcome (a returned root, a thrown error in
    strict mode, an unknown file, a path that normalizes to an inherited
    name): afterwards every registered root is still a [Source] whose
    [fileName] is the normalized path it is registered under.  The
    composition rules are assumed to render only, since [getAnalyzer]
    renders a [Source] argument into its error message. *)
Theorem analyze_keeps_registry (strictMode : bool)
    (rule : bool -> TsNode -> M Ref)
    (getSourceFile : string -> option SourceFile)
    (normalize : string -> string)
    (getSourceFileOfUndefined : Error + option SourceFile)
    (compositionRule : Class -> (Ref -> M string) -> Ref -> M string)
    (fuel : nat) (src : option SourceArg) (rec : bool)
    (sources sources' : gmap string Ref) (st st' : Store)
    (res : outcome Ref)
    (Hrule : forall rec, allocates_only (rule rec))
    (Hrules : text_only_rules compositionRule)
    (Hreg : registry_ok sources st)
    (Hcall : analyze strictMode rule getSourceFile normalize
               getSourceFileOfUndefined compositionRule fuel src rec
               sources st = (res, sources', st')) :
  registry_ok sources' st'.
Proof.
  unfold analyze, getAnalyzer in Hcall.
  destruct src as [src|]; [|now injection Hcall as <- <- <-].
  destruct (getSource normalize src sources st)
    as [[[[r|key]|e|] sources1] st1] eqn:Hg;
    pose proof (getSource_keeps_registry _ _ _ _ _ _ _ Hg Hreg) as Hreg1;
    [| |now injection Hcall as <- <- <-..].
  - destruct (st1 !! r) as [o|]; [|now injection Hcall as <- <- <-].
    destruct (getSourceFile (fileName o)) as [sf|].
    + destruct (SourceAnalyzer_analyze strictMode rule
                  (mkSourceAnalyzer r sf rec) st1) as [res2 st2] eqn:Ha.
      injection Hcall as <- <- <-.
      destruct (SourceAnalyzer_analyze_frame _ _ _ _ _ _ Hrule Ha)
        as [Hsame _].
      exact (registry_ok_same_roots _ _ _ Hsame Hreg1).
    + destruct src as [p|s]; [now injection Hcall as <- <- <-|].
      pose proof (changes_only_text_same_roots _ st1
                    (toString_only_text compositionRule fuel s Hrules))
        as Hsame.
      destruct (toString compositionRule fuel s st1) as [[x|e|] st2];
        injection Hcall as <- <- <-;
        exact (registry_ok_same_roots _ _ _ Hsame Hreg1).
  - destruct getSourceFileOfUndefined as [e|[sf|]];
      now injection Hcall as <- <- <-.
Qed.

Lemma analyze_keeps_registry_witness :
  registry_ok (snd (fst firstAnalysis)) (snd firstAnalysis).
Proof.
  refine (analyze_keeps_registry true noRule programExample id (inr None)
            noCompositionRule 0 (Some (ByPath "a.ts")) true ∅ _ [] _
            (fst (fst firstAnalysis)) noRule_allocates
            noCompositionRule_text_only (registry_ok_empty []) _).
  reflexivity.
Defined.

(** ** Lenient analysis always returns *)

Lemma appended_bounds (e : TsNode) (n : nat) (statement : Ref) :
  (1 <= length (appended e n statement) <= 2)%nat.
Proof.
  unfold appended. destruct (0 <? String.length (filler e))%nat; simpl; lia.
Qed.

Lemma analyzeElement_lenient (block : Ref)
    (elementAnalyzer : TsNode -> M Ref) (e : TsNode) (st : Store)
    (ob : Obj) :
  allocates_only elementAnalyzer ->
  (forall e st, fst (elementAnalyzer e st) <> Diverge) ->
  st !! block = Some ob ->
  exists st' es r,
    analyzeElement false block elementAnalyzer e st = (Ok tt, st')
    /\ st' !! block = Some (with_elements (elements ob ++ es) ob)
    /\ (1 <= length es <= 2)%nat
    /\ last es = Some r /\ r <> block /\ is_Some (st' !! r)
    /\ (forall r' o, r' <> block -> st !! r' = Some o -> st' !! r' = Some o).
Proof.
  intros Hea Hnd Hb. unfold analyzeElement, try_catch.
  pose proof (lookup_lt_Some _ _ _ Hb) as Hblt.
  assert (Hnode : exists r st1,
            (fun st0 => match elementAnalyzer e st0 with
                        | (Raise err, st'0) =>
                          (if false then raise err else fallbackNode e) st'0
                        | other => other
                        end) st = (Ok r, st1)
            /\ st `prefix_of` st1 /\ (length st <= r < length st1)%nat).
  { specialize (Hnd e st).
    destruct (elementAnalyzer e st) as [[r|err|] st1] eqn:E;
      destruct (Hea _ _ _ _ E) as [Hp Hfresh].
    - exists r, st1. split; [reflexivity|]. split; [exact Hp|].
      now apply Hfresh.
    - cbn beta iota. rewrite fallbackNode_eq. eexists _, _.
      split; [reflexivity|]. split.
      + etransitivity; [exact Hp|]. now apply prefix_app_r.
      + apply prefix_length in Hp. rewrite length_app. simpl. lia.
    - now contradiction Hnd. }
  destruct Hnode as (r & st1 & Hnode & Hp & Hlo & Hhi).
  unfold bind at 1. rewrite Hnode.
  destruct (lookup_lt_is_Some_2 _ _ Hhi) as [os Hs].
  assert (Hne : r <> block) by lia.
  destruct (addToBlock_spec st1 r block e os ob Hs
              (prefix_lookup_Some _ _ _ _ Hb Hp) Hne)
    as (st' & Heq & Hr' & Hb' & Hothers & _).
  exists st', (appended e (length st1) r), r.
  split; [exact Heq|]. split; [exact Hb'|].
  split; [apply appended_bounds|].
  split; [exact (appended_last e (length st1) r [])|].
  split; [exact Hne|]. split; [eauto|].
  intros r' o Hr Hro. apply Hothers; [|exact Hr|].
  - apply lookup_lt_Some in Hro. lia.
  - now apply (prefix_lookup_Some st).
Qed.

Lemma forEach_lenient (block : Ref) (elementAnalyzer : TsNode -> M Ref)
    (elems : list TsNode) :
  allocates_only elementAnalyzer ->
  (forall e st, fst (elementAnalyzer e st) <> Diverge) ->
  forall (st : Store) (ob : Obj),
    st !! block = Some ob ->
    exists st' es,
      forEach (analyzeElement false block elementAnalyzer) elems st
      = (Ok tt, st')
      /\ st' !! block = Some (with_elements (elements ob ++ es) ob)
      /\ (length elems <= length es <= 2 * length elems)%nat
      /\ (elems <> [] ->
          exists r, last es = Some r /\ r <> block /\ is_Some (st' !! r))
      /\ (forall r' o, r' <> block -> st !! r' = Some o ->
            st' !! r' = Some o).
Proof.
  intros Hea Hnd. induction elems as [|e rest IH]; intros st ob Hb.
  - exists st, []. split; [reflexivity|]. split.
    { now rewrite app_nil_r, with_elements_same. }
    split; [simpl; lia|]. split; [congruence|auto].
  - destruct (analyzeElement_lenient block elementAnalyzer e st ob Hea Hnd Hb)
      as (st1 & es1 & r1 & H1 & Hb1 & Hlen1 & Hlast1 & Hne1 & Hr1 & Hframe1).
    destruct (IH st1 _ Hb1) as (st' & es2 & H2 & Hb2 & Hlen2 & Hlast2 & Hframe2).
    exists st', (es1 ++ es2). cbn [forEach].
    rewrite (bind_Ok _ _ _ _ _ H1). split; [exact H2|]. split.
    { rewrite Hb2. cbn. now rewrite app_assoc. }
    split; [rewrite length_app; cbn [length]; lia|]. split.
    + intros _. destruct rest as [|e' rest'].
      * destruct es2; [|simpl in Hlen2; lia]. rewrite app_nil_r.
        exists r1. split; [exact Hlast1|]. split; [exact Hne1|].
        destruct Hr1 as [o1 Ho1]. exists o1. now apply Hframe2.
      * destruct Hlast2 as (r2 & Hl2 & Hne2 & Hr2); [discriminate|].
        exists r2. split; [|now split].
        apply last_app_Some. now left.
    + intros r' o Hr Hro. apply Hframe2; [exact Hr|]. now apply Hframe1.
Qed.

Lemma addTrailingBlockSpacing_Ok (block : Ref) (st : Store) (ob : Obj) :
  st !! block = Some ob -> is_Some (node ob) ->
  (elements ob = []
   \/ exists r, last (elements ob) = Some r /\ is_Some (st !! r)) ->
  exists st' es,
    addTrailingBlockSpacing block (node ob) st = (Ok tt, st')
    /\ st' !! block = Some (with_elements (elements ob ++ es) ob)
    /\ (length es <= 1)%nat
    /\ (forall r' o, r' <> block -> st !! r' = Some o -> st' !! r' = Some o).
Proof.
  intros Hb [og Hnode] Hlast.
  assert (Hdone : exists st' es,
            ret tt st = (Ok tt, st')
            /\ st' !! block = Some (with_elements (elements ob ++ es) ob)
            /\ (length es <= 1)%nat
            /\ (forall r' o, r' <> block -> st !! r' = Some o ->
                  st' !! r' = Some o)).
  { exists st, []. split; [reflexivity|]. split.
    { now rewrite app_nil_r, with_elements_same. }
    split; [simpl; lia|auto]. }
  unfold addTrailingBlockSpacing.
  rewrite (bind_Ok _ _ _ _ _ (get_Some _ _ _ Hb)).
  assert (Htok : exists tok, lastTokenOf ob (node ob) st = (Ok tok, st)).
  { unfold lastTokenOf. rewrite Hnode.
    destruct (instanceOf (constructor ob) Source); destruct og;
      eexists; reflexivity. }
  destruct Htok as [tok Htok]. rewrite (bind_Ok _ _ _ _ _ Htok).
  destruct tok as [lastToken|]; [|exact Hdone].
  assert (Hsame : exists b, isNodeOfLastElement lastToken ob st = (Ok b, st)).
  { unfold isNodeOfLastElement.
    destruct Hlast as [->|(r & -> & [o Hr])]; [eexists; reflexivity|].
    rewrite (bind_Ok _ _ _ _ _ (get_Some _ _ _ Hr)). eexists; reflexivity. }
  destruct Hsame as [same Hsame]. rewrite (bind_Ok _ _ _ _ _ Hsame).
  destruct same; [exact Hdone|].
  destruct (0 <? String.length _)%nat; [|exact Hdone].
  rewrite (bind_Ok _ _ _ _ _ (alloc_eq _ _)).
  rewrite (push_Some _ _ _ _ (lookup_old _ _ _ _ Hb)).
  eexists _, [length st]. split; [reflexivity|]. split; [|split].
  - apply (lookup_insert_same _ _ ob). now apply lookup_old.
  - simpl. lia.
  - intros r' o Hr Hro. rewrite list_lookup_insert_ne by congruence.
    now apply lookup_old.
Qed.

Lemma performBlockAnalysis_fresh (block : Ref) (elems : list TsNode)
    (elementAnalyzer : TsNode -> M Ref) (ignoreTrailing : bool)
    (st : Store) (ob : Obj)
    (Hea : allocates_only elementAnalyzer)
    (Hreturns : forall e st, fst (elementAnalyzer e st) <> Diverge)
    (Hblock : st !! block = Some ob)
    (Hnode : ignoreTrailing = false -> is_Some (node ob))
    (Hcan : canAnalyzeBody ob = true) :
  exists st' es,
    performBlockAnalysis false block elems elementAnalyzer ignoreTrailing st
    = (Ok block, st')
    /\ st' !! block
       = Some (with_bodyHasBeenAnalyzed true (with_elements es ob))
    /\ (length elems <= length es <= 2 * length elems + 1)%nat
    /\ (forall r o, r <> block -> st !! r = Some o -> st' !! r = Some o).
Proof.
  pose proof (proj1 (canAnalyzeBody_spec ob) Hcan) as [_ Hempty].
  destruct (forEach_lenient block elementAnalyzer elems Hea Hreturns st ob
              Hblock)
    as (st1 & es1 & H1 & Hb1 & Hlen1 & Hlast1 & Hframe1).
  rewrite Hempty in Hb1. cbn [app] in Hb1.
  assert (Htrail : exists st2 es2,
            (if negb ignoreTrailing
             then b <- get block ;; addTrailingBlockSpacing block (node b)
             else ret tt) st1 = (Ok tt, st2)
            /\ st2 !! block = Some (with_elements (es1 ++ es2) ob)
            /\ (length es2 <= 1)%nat
            /\ (forall r' o, r' <> block -> st1 !! r' = Some o ->
                  st2 !! r' = Some o)).
  { destruct ignoreTrailing; cbn [negb].
    - exists st1, []. split; [reflexivity|]. rewrite app_nil_r.
      split; [exact Hb1|]. split; [simpl; lia|auto].
    - rewrite (bind_Ok _ _ _ _ _ (get_Some _ _ _ Hb1)).
      destruct (addTrailingBlockSpacing_Ok block st1 _ Hb1)
        as (st2 & es2 & H2 & Hb2 & Hlen2 & Hframe2).
      + exact (Hnode eq_refl).
      + cbn [elements with_elements]. destruct elems as [|e rest].
        * left. destruct es1; [reflexivity|simpl in Hlen1; lia].
        * right. destruct Hlast1 as (r & Hl & _ & Hr); [discriminate|].
          eauto.
      + exists st2, es2. split; [exact H2|]. split; [exact Hb2|].
        split; [exact Hlen2|exact Hframe2]. }
  destruct Htrail as (st2 & es2 & H2 & Hb2 & Hlen2 & Hframe2).
  exists (<[block := with_bodyHasBeenAnalyzed true
                       (with_elements (es1 ++ es2) ob)]> st2), (es1 ++ es2).
  split; [|split; [|split]].
  - unfold performBlockAnalysis.
    rewrite (bind_Ok _ _ _ _ _ (get_Some _ _ _ Hblock)), Hcan. cbn [negb].
    rewrite (bind_Ok _ _ _ _ _ H1), (bind_Ok _ _ _ _ _ H2).
    now rewrite (bind_Ok _ _ _ _ _ (modify_Some _ _ _ _ Hb2)).
  - now apply (lookup_insert_same _ _ _ _ Hb2).
  - rewrite length_app. lia.
  - intros r o Hr Hro. rewrite list_lookup_insert_ne by congruence.
    apply Hframe2; [exact Hr|]. now apply Hframe1.
Qed.

Lemma performBlockAnalysis_lenient_Ok (block : Ref) (elems : list TsNode)
    (elementAnalyzer : TsNode -> M Ref) (ignoreTrailing : bool)
    (st : Store) (ob : Obj) :
  allocates_only elementAnalyzer ->
  (forall e st, fst (elementAnalyzer e st) <> Diverge) ->
  st !! block = Some ob ->
  (ignoreTrailing = false -> is_Some (node ob)) ->
  exists st',
    performBlockAnalysis false block elems elementAnalyzer ignoreTrailing st
    = (Ok block, st').
Proof.
  intros Hea Hreturns Hblock Hnode.
  destruct (canAnalyzeBody ob) eqn:Hcan.
  - destruct (performBlockAnalysis_fresh block elems elementAnalyzer
                ignoreTrailing st ob Hea Hreturns Hblock Hnode Hcan)
      as (st' & _ & H & _).
    now exists st'.
  - exists st. now apply (performBlockAnalysis_noop _ _ _ _ _ _ ob).
Qed.

(** In lenient mode a block analysis always returns the block, whatever
    the element analyzer throws and whatever the elements are, as long as
    the block is registered with its parse node (which is only read when
    trailing trivia is looked for).  On a block that could be analyzed,
    the flag is then set, and the block holds one node per element, at
    most one [Trivia] before each, and at most one trailing [Trivia]; on
    any other block nothing changes.  No other object that existed is
    touched. *)
Theorem lenient_analysis_returns (block : Ref) (elems : list TsNode)
    (elementAnalyzer : TsNode -> M Ref) (ignoreTrailing : bool)
    (st : Store) (ob : Obj)
    (Hea : allocates_only elementAnalyzer)
    (Hreturns : forall e st, fst (elementAnalyzer e st) <> Diverge)
    (Hblock : st !! block = Some ob)
    (Hnode : ignoreTrailing = false -> is_Some (node ob)) :
  exists st',
    performBlockAnalysis false block elems elementAnalyzer ignoreTrailing st
    = (Ok block, st')
    /\ (canAnalyzeBody ob = false -> st' = st)
    /\ (canAnalyzeBody ob = true ->
        exists es,
          st' !! block
          = Some (with_bodyHasBeenAnalyzed true (with_elements es ob))
          /\ (length elems <= length es <= 2 * length elems + 1)%nat)
    /\ (forall r o, r <> block -> st !! r = Some o -> st' !! r = Some o).
Proof.
  destruct (canAnalyzeBody ob) eqn:Hcan.
  - destruct (performBlockAnalysis_fresh block elems elementAnalyzer
                ignoreTrailing st ob Hea Hreturns Hblock Hnode Hcan)
      as (st' & es & H & Hb & Hlen & Hframe).
    exists st'. split; [exact H|]. split; [discriminate|].
    split; [|exact Hframe].
    intros _. exists es. now split.
  - exists st.
    split; [now apply (performBlockAnalysis_noop _ _ _ _ _ _ ob)|].
    split; [reflexivity|]. split; [discriminate|auto].
Qed.

Lemma analyzeStatement_returns (rule : bool -> TsNode -> M Ref) (rec : bool) :
  returns_or_throws rule ->
  forall e st, fst (analyzeStatement rule rec e st) <> Diverge.
Proof.
  intros Hrule e st. unfold analyzeStatement.
  destruct (kind e); try apply Hrule; try discriminate;
    rewrite simple_statement_eq; discriminate.
Qed.

Lemma analyzeModuleElement_returns (rule : bool -> TsNode -> M Ref)
    (rec : bool) :
  returns_or_throws rule ->
  forall e st, fst (analyzeModuleElement rule rec e st) <> Diverge.
Proof.
  intros Hrule e st. unfold analyzeModuleElement.
  destruct (kind e); try apply Hrule;
    now apply analyzeStatement_returns.
Qed.

Lemma noRule_returns : returns_or_throws noRule.
Proof. intros rec e st. discriminate. Qed.

Lemma lenient_analysis_returns_witness :
  exists st',
    performBlockAnalysis false 0 [debuggerStatement; unknownStatement]
      (analyzeModuleElement noRule true) false
      [with_node (Some (OfFile fileNoNewline)) (new Source)]
    = (Ok 0%nat, st').
Proof.
  destruct (lenient_analysis_returns 0 [debuggerStatement; unknownStatement]
              (analyzeModuleElement noRule true) false
              [with_node (Some (OfFile fileNoNewline)) (new Source)]
              (with_node (Some (OfFile fileNoNewline)) (new Source))
              (analyzeModuleElement_allocates noRule true noRule_allocates)
              (analyzeModuleElement_returns noRule true noRule_returns)
              eq_refl (fun _ => ex_intro _ _ eq_refl))
    as (st' & H & _).
  now exists st'.
Defined.

(** ** Analyzing every file of the program *)

Lemma SourceAnalyzer_analyze_lenient (rule : bool -> TsNode -> M Ref)
    (src : Ref) (sf : SourceFile) (rec : bool) (st : Store) (o : Obj) :
  (forall rec, allocates_only (rule rec)) ->
  returns_or_throws rule ->
  st !! src = Some o ->
  canAnalyzeBody o = true \/ bodyHasBeenAnalyzed o = true ->
  exists st' o',
    SourceAnalyzer_analyze false rule (mkSourceAnalyzer src sf rec) st
    = (Ok src, st')
    /\ st' !! src = Some o' /\ bodyHasBeenAnalyzed o' = true.
Proof.
  intros Hrule Hret Hs Hwhole. unfold SourceAnalyzer_analyze.
  cbn [source sourceFile recursive].
  rewrite (bind_Ok _ _ _ _ _ (registerWithNode_Some _ _ _ _ Hs)).
  rewrite (bind_Ok _ _ _ _ _
             (setText_Some _ _ _ _ (lookup_insert_same _ _ _ _ Hs))).
  rewrite list_insert_insert_eq.
  set (o2 := with_text (Some (sf_getFullText sf))
               (with_node (Some (OfFile sf)) o)).
  assert (Hs2 : <[src := o2]> st !! src = Some o2)
    by now apply (lookup_insert_same _ _ o).
  destruct (canAnalyzeBody o2) eqn:Hcan.
  - destruct (performBlockAnalysis_fresh src (statements sf)
                (analyzeModuleElement rule rec) false _ o2
                (analyzeModuleElement_allocates rule rec Hrule)
                (analyzeModuleElement_returns rule rec Hret) Hs2
                (fun _ => ex_intro _ _ eq_refl) Hcan)
      as (st' & es & H & Hb & _).
    exists st'. eexists. split; [exact H|]. split; [exact Hb|reflexivity].
  - exists (<[src := o2]> st), o2.
    split; [now apply (performBlockAnalysis_noop _ _ _ _ _ _ o2)|].
    split; [exact Hs2|].
    destruct Hwhole as [Hfresh|Hflag]; [|exact Hflag].
    change (canAnalyzeBody o2) with (canAnalyzeBody o) in Hcan. congruence.
Qed.

Lemma analyze_lenient (rule : bool -> TsNode -> M Ref)
    (getSourceFile : string -> option SourceFile)
    (normalize : string -> string)
    (getSourceFileOfUndefined : Error + option SourceFile)
    (compositionRule : Class -> (Ref -> M string) -> Ref -> M string)
    (fuel : nat) (name : string) (rec : bool)
    (sources : gmap string Ref) (st : Store) :
  (forall rec, allocates_only (rule rec)) ->
  returns_or_throws rule ->
  registry_ok sources st ->
  no_root_half_analyzed sources st ->
  inheritedKey (normalize name) = false ->
  is_Some (getSourceFile (normalize name)) ->
  exists root sources' st',
    analyze false rule getSourceFile normalize getSourceFileOfUndefined
      compositionRule fuel (Some (ByPath name)) rec sources st
    = (Ok root, sources', st')
    /\ registry_ok sources' st'
    /\ no_root_half_analyzed sources' st'
    /\ sources' !! normalize name = Some root
    /\ (forall k v, sources !! k = Some v -> sources' !! k = Some v)
    /\ analyzed_root getSourceFile st' (normalize name) root
    /\ (forall p r0, sources !! p = Some r0 ->
          analyzed_root getSourceFile st p r0 ->
          analyzed_root getSourceFile st' p r0).
Proof.
  intros Hrule Hret Hreg Hwhole Hkey [sf Hsf].
  destruct (getSource_ByPath normalize name sources st Hreg Hkey)
    as (r & sources1 & st1 & Hg & Hreg1 & Hr & Hsub & Hp & Hold & Hnew).
  destruct (Hreg1 _ _ Hr) as (o & Ho & Hc & Hf).
  assert (Ho_whole : canAnalyzeBody o = true \/ bodyHasBeenAnalyzed o = true).
  { destruct (sources !! normalize name) as [r0|] eqn:E.
    - destruct (Hold ltac:(eauto)) as [-> ->]. rewrite E in Hr.
      injection Hr as ->. destruct (Hwhole _ _ E) as (o0 & Ho0 & Hw).
      rewrite Ho in Ho0. now injection Ho0 as <-.
    - destruct (Hnew eq_refl) as (-> & -> & _).
      rewrite lookup_new in Ho. injection Ho as <-. now left. }
  destruct (SourceAnalyzer_analyze_lenient rule r sf rec st1 o Hrule Hret Ho
              Ho_whole)
    as (st2 & o2 & Ha & Ho2 & Hflag2).
  destruct (SourceAnalyzer_analyze_Ok _ _ _ _ _ _ _ _ _ Hrule Ho Ha)
    as (_ & o' & Ho' & Hn' & Ht' & Hf' & Hc' & Hcan').
  rewrite Ho2 in Ho'. injection Ho' as <-.
  destruct (SourceAnalyzer_analyze_frame _ _ _ _ _ _ Hrule Ha)
    as [Hsame Hframe].
  cbn [source] in Hframe.
  assert (Hroot : analyzed_root getSourceFile st2 (normalize name) r).
  { exists o2, sf. split; [exact Ho2|]. split; [congruence|].
    split; [congruence|]. now repeat split. }
  exists r, sources1, st2.
  split; [|split; [|split; [|split; [|split; [|split]]]]].
  - unfold analyze.
    rewrite (getAnalyzer_eq getSourceFile normalize getSourceFileOfUndefined
               compositionRule fuel (ByPath name) rec
               _ _ _ _ _ o sf Hg Ho) by now rewrite Hf.
    now rewrite Ha.
  - exact (registry_ok_same_roots _ _ _ Hsame Hreg1).
  - intros k v Hk. destruct (decide (v = r)) as [->|Hne].
    + exists o2. split; [exact Ho2|now right].
    + assert (Hk0 : sources !! k = Some v).
      { destruct (sources !! normalize name) as [r0|] eqn:E.
        - destruct (Hold ltac:(eauto)) as [-> _]. exact Hk.
        - destruct (Hnew eq_refl) as (_ & _ & ->).
          destruct (decide (k = normalize name)) as [->|Hkne].
          + rewrite lookup_insert_eq in Hk. congruence.
          + now rewrite lookup_insert_ne in Hk by congruence. }
      destruct (Hwhole _ _ Hk0) as (o0 & Ho0 & Hw).
      exists o0. split; [|exact Hw].
      apply Hframe; [exact Hne|]. now apply (prefix_lookup_Some st).
  - exact Hr.
  - exact Hsub.
  - exact Hroot.
  - intros p r0 Hp0 (o0 & sf0 & Ho0 & Hc0 & Hf0 & Hsf0 & Hrest).
    destruct (decide (r0 = r)) as [->|Hne].
    + pose proof (prefix_lookup_Some _ _ _ _ Ho0 Hp) as Ho1.
      rewrite Ho in Ho1. injection Ho1 as <-.
      assert (p = normalize name) as -> by congruence. exact Hroot.
    + exists o0, sf0. split; [|now repeat split].
      apply Hframe; [exact Hne|]. now apply (prefix_lookup_Some st).
Qed.

Lemma analyzeEach_lenient (rule : bool -> TsNode -> M Ref)
    (getSourceFile : string -> option SourceFile)
    (normalize : string -> string)
    (getSourceFileOfUndefined : Error + option SourceFile)
    (compositionRule : Class -> (Ref -> M string) -> Ref -> M string)
    (fuel : nat) (rec : bool) (files : list SourceFile) :
  (forall rec, allocates_only (rule rec)) ->
  returns_or_throws rule ->
  (forall sf, sf ∈ files ->
     inheritedKey (normalize (sf_fileName sf)) = false
     /\ is_Some (getSourceFile (normalize (sf_fileName sf)))) ->
  forall (sources : gmap string Ref) (st : Store),
    registry_ok sources st ->
    no_root_half_analyzed sources st ->
    exists roots sources' st',
      analyzeEach false rule getSourceFile normalize
        getSourceFileOfUndefined compositionRule fuel files rec sources st
      = (Ok roots, sources', st')
      /\ registry_ok sources' st'
      /\ no_root_half_analyzed sources' st'
      /\ (forall k v, sources !! k = Some v -> sources' !! k = Some v)
      /\ (forall p r0, sources !! p = Some r0 ->
            analyzed_root getSourceFile st p r0 ->
            analyzed_root getSourceFile st' p r0)
      /\ Forall2 (fun sf root =>
                    sources' !! normalize (sf_fileName sf) = Some root
                    /\ analyzed_root getSourceFile st'
                         (normalize (sf_fileName sf)) root)
           files roots.
Proof.
  intros Hrule Hret. induction files as [|sf rest IH];
    intros Hfiles sources st Hreg Hwhole.
  - exists [], sources, st. split; [reflexivity|]. split; [exact Hreg|].
    split; [exact Hwhole|]. split; [auto|]. split; [auto|constructor].
  - destruct (Hfiles sf (list_elem_of_here _ _)) as [Hkey Hfile].
    destruct (analyze_lenient rule getSourceFile normalize
                getSourceFileOfUndefined compositionRule fuel
                (sf_fileName sf) rec sources st Hrule Hret Hreg Hwhole
                Hkey Hfile)
      as (root & sources1 & st1 & H1 & Hreg1 & Hwhole1 & Hr1 & Hsub1
          & Hroot1 & Hkeep1).
    destruct (IH (fun x Hx => Hfiles x (list_elem_of_further _ _ _ Hx))
                sources1 st1 Hreg1 Hwhole1)
      as (roots & sources2 & st2 & H2 & Hreg2 & Hwhole2 & Hsub2 & Hkeep2
          & Hall).
    exists (root :: roots), sources2, st2. cbn [analyzeEach].
    rewrite H1, H2. split; [reflexivity|]. split; [exact Hreg2|].
    split; [exact Hwhole2|].
    split; [auto|]. split; [auto|]. constructor; [|exact Hall].
    split; [now apply Hsub2|]. now apply Hkeep2.
Qed.

(** In lenient mode [analyzeAll] returns one analyzed root per file of
    the program, in order, whenever the program can find each file under
    its normalized name, no such name is one that every object inherits
    ([constructor], [toString], ...), and no registered root has been
    left half analyzed by an earlier failure: no element of any file can
    make the call throw.  Each returned root is the registered [Source]
    for the file's normalized path, holds the file's full text and is
    marked as analyzed; files whose paths normalize to the same string
    share their root.  The registry stays well formed, and still holds no
    half-analyzed root. *)
Theorem analyzeAll_lenient (rule : bool -> TsNode -> M Ref)
    (getSourceFile : string -> option SourceFile)
    (normalize : string -> string)
    (getSourceFileOfUndefined : Error + option SourceFile)
    (compositionRule : Class -> (Ref -> M string) -> Ref -> M string)
    (fuel : nat) (getSourceFiles : list SourceFile)
    (rec : bool) (sources : gmap string Ref) (st : Store)
    (Hrule : forall rec, allocates_only (rule rec))
    (Hreturns : returns_or_throws rule)
    (Hfiles : forall sf, sf ∈ getSourceFiles ->
                inheritedKey (normalize (sf_fileName sf)) = false
                /\ is_Some (getSourceFile (normalize (sf_fileName sf))))
    (Hreg : registry_ok sources st)
    (Hwhole : no_root_half_analyzed sources st) :
  exists roots sources' st',
    analyzeAll false rule getSourceFile normalize getSourceFileOfUndefined
      compositionRule fuel getSourceFiles rec sources st
    = (Ok roots, sources', st')
    /\ registry_ok sources' st'
    /\ no_root_half_analyzed sources' st'
    /\ Forall2 (fun sf root =>
                  sources' !! normalize (sf_fileName sf) = Some root
                  /\ analyzed_root getSourceFile st'
                       (normalize (sf_fileName sf)) root)
         getSourceFiles roots.
Proof.
  destruct (analyzeEach_lenient rule getSourceFile normalize
              getSourceFileOfUndefined compositionRule fuel rec
              getSourceFiles Hrule Hreturns Hfiles sources st Hreg Hwhole)
    as (roots & sources' & st' & H & Hreg' & Hwhole' & _ & _ & Hall).
  exists roots, sources', st'. now repeat split.
Qed.

Lemma analyzeAll_lenient_witness :
  exists roots sources' st',
    analyzeAll false noRule programExample id (inr None) noCompositionRule 0
      [fileNoNewline; fileTwoNewlines] true ∅ [] = (Ok roots, sources', st')
    /\ registry_ok sources' st'
    /\ no_root_half_analyzed sources' st'
    /\ Forall2 (fun sf root =>
                  sources' !! id (sf_fileName sf) = Some root
                  /\ analyzed_root programExample st'
                       (id (sf_fileName sf)) root)
         [fileNoNewline; fileTwoNewlines] roots.
Proof.
  apply (analyzeAll_lenient noRule programExample id (inr None)
           noCompositionRule 0
           [fileNoNewline; fileTwoNewlines] true ∅ []
           noRule_allocates noRule_returns).
  - intros sf Hsf.
    apply elem_of_cons in Hsf as [->|Hsf]; [split; [reflexivity|now eexists]|].
    apply list_elem_of_singleton in Hsf as ->.
    split; [reflexivity|now eexists].
  - apply registry_ok_empty.
  - intros p r H. now rewrite lookup_empty in H.
Defined.

(** ** [analyzeBody]: which blocks it takes, and analyzing twice *)

Section BodiesFacts.

Variable strictMode : bool.
Variable rule : bool -> TsNode -> M Ref.
Variable construct : ElementAnalyzer -> bool -> TsNode -> M Ref.
Variables members statementsOf : TsNode -> option (list TsNode).
Variables body caseBlock : TsNode -> option TsNode.
Variables clauses properties elementsOf : TsNode -> option (list TsNode).
Variable declarationList : TsNode -> option TsNode.
Variable declarations : TsNode -> option (list TsNode).
Variable rec : bool.

Hypothesis Hrule : forall rec, allocates_only (rule rec).
Hypothesis Hconstruct : forall k rec, allocates_only (construct k rec).

Lemma performBlockAnalysisOn_twice (block : Ref)
    (elems : option (list TsNode)) (elementAnalyzer : TsNode -> M Ref)
    (ignoreTrailing : bool) (st st1 : Store) (o : Obj) (r : Ref) :
  allocates_only elementAnalyzer ->
  st !! block = Some o ->
  performBlockAnalysisOn strictMode block elems elementAnalyzer
    ignoreTrailing st = (Ok r, st1) ->
  r = block
  /\ exists o1,
       st1 !! block = Some o1
       /\ constructor o1 = constructor o /\ node o1 = node o
       /\ canAnalyzeBody o1 = false.
Proof.
  intros Hea Hb H. unfold performBlockAnalysisOn in H.
  destruct (canAnalyzeBody o) eqn:Hcan.
  - destruct elems as [elems|].
    + destruct (performBlockAnalysis_Ok _ _ _ _ _ _ _ _ _ Hea Hb Hcan H)
        as (-> & (es & Hb1) & _).
      split; [reflexivity|]. eexists. split; [exact Hb1|]. now repeat split.
    + rewrite (bind_Ok _ _ _ _ _ (get_Some _ _ _ Hb)), Hcan in H.
      discriminate H.
  - assert (H' : (Ok block, st) = (Ok r, st1)).
    { rewrite <- H. destruct elems as [elems|].
      - symmetry. now apply (performBlockAnalysis_noop _ _ _ _ _ _ o).
      - now rewrite (bind_Ok _ _ _ _ _ (get_Some _ _ _ Hb)), Hcan. }
    injection H' as <- <-. split; [reflexivity|].
    exists o. now repeat split.
Qed.

Lemma performBlockAnalysisOn_noop (block : Ref)
    (elems : option (list TsNode)) (elementAnalyzer : TsNode -> M Ref)
    (ignoreTrailing : bool) (st : Store) (o : Obj) :
  st !! block = Some o -> canAnalyzeBody o = false ->
  performBlockAnalysisOn strictMode block elems elementAnalyzer
    ignoreTrailing st = (Ok block, st).
Proof.
  intros Hb Hcan. unfold performBlockAnalysisOn.
  destruct elems as [elems|].
  - now apply (performBlockAnalysis_noop _ _ _ _ _ _ o).
  - now rewrite (bind_Ok _ _ _ _ _ (get_Some _ _ _ Hb)), Hcan.
Qed.

Lemma settles_performBlockAnalysisOn (block : Ref)
    (elems : option (list TsNode)) (elementAnalyzer : TsNode -> M Ref)
    (ignoreTrailing : bool) :
  allocates_only elementAnalyzer ->
  settles block (performBlockAnalysisOn strictMode block elems
                   elementAnalyzer ignoreTrailing).
Proof.
  intros Hea st st1 o r Hb H.
  destruct (performBlockAnalysisOn_twice _ _ _ _ _ _ _ _ Hea Hb H)
    as (-> & o1 & Hb1 & Hc & Hn & Hcan).
  same_object. exists block.
  now apply (performBlockAnalysisOn_noop _ _ _ _ _ o1).
Qed.

Lemma settles_then {A B} (block : Ref) (m : M A) (b : B) :
  settles block m -> settles block (m ;;; ret b).
Proof.
  intros Hm st st1 o x Hb H. unfold bind in H.
  destruct (m st) as [[a|e|] st0] eqn:E; [|discriminate H..].
  injection H as <- <-.
  destruct (Hm st st0 o a Hb E) as [Hkeep [a' Hagain]].
  split; [exact Hkeep|]. exists b. unfold bind. now rewrite Hagain.
Qed.

Lemma settles_raise {A} (block : Ref) (e : Error) :
  settles block (raise e : M A).
Proof. intros st st1 o a _ H. discriminate H. Qed.

Lemma settles_nodeOf {A} (block : Ref) (f : Origin -> M A) :
  (forall og, settles block (f og)) ->
  settles block (og <- nodeOf block ;; f og).
Proof.
  intros Hf st st1 o a Hb H. unfold nodeOf in H.
  unfold bind at 1 in H. rewrite (bind_Ok _ _ _ _ _ (get_Some _ _ _ Hb)) in H.
  destruct (node o) as [og|] eqn:Hn; [|discriminate H].
  cbn [ret] in H.
  destruct (Hf og st st1 o a Hb H) as [(o1 & Hb1 & Hc & Hn1) [a' Hagain]].
  same_object. exists a'. unfold nodeOf.
  unfold bind at 1.
  rewrite (bind_Ok _ _ _ _ _ (get_Some _ _ _ Hb1)), Hn1, Hn. exact Hagain.
Qed.

Lemma settles_flag (block : Ref) :
  settles block (modify block (with_bodyHasBeenAnalyzed true) ;;; ret block).
Proof.
  intros st st1 o a Hb H.
  rewrite (bind_Ok _ _ _ _ _ (modify_Some _ _ _ _ Hb)) in H.
  injection H as <- <-.
  pose proof (lookup_insert_same st block o
                (with_bodyHasBeenAnalyzed true o) Hb) as Hb1.
  same_object. exists block.
  rewrite (bind_Ok _ _ _ _ _ (modify_Some _ _ _ _ Hb1)).
  now rewrite list_insert_insert_eq.
Qed.

Lemma moduleBlock_pure (fuel : nat) (b : option TsNode) (st : Store) :
  exists res, forall st0, moduleBlock body fuel b st0 = (res, st0).
Proof.
  revert b. induction fuel as [|fuel IH]; intros b.
  - now exists Diverge.
  - destruct b as [b|]; [|now exists (Raise TypeError)].
    cbn [moduleBlock]. destruct (kind b); try (now exists (Ok b)).
    apply IH.
Qed.

Lemma settles_Enum (block : Ref) :
  settles block (analyzeEnumBody strictMode construct members rec block).
Proof.
  apply settles_nodeOf. intros og.
  now apply settles_performBlockAnalysisOn.
Qed.

Lemma settles_Interface (block : Ref) :
  settles block (analyzeInterfaceBody strictMode construct members rec block).
Proof.
  apply settles_nodeOf. intros og.
  now apply settles_performBlockAnalysisOn.
Qed.

Lemma settles_TypeLiteral (block : Ref) :
  settles block
    (analyzeTypeLiteralBody strictMode construct members rec block).
Proof.
  apply settles_nodeOf. intros og.
  now apply settles_performBlockAnalysisOn.
Qed.

Lemma settles_ObjectLiteral (block : Ref) :
  settles block
    (analyzeObjectLiteralBody strictMode construct properties rec block).
Proof.
  apply settles_nodeOf. intros og.
  now apply settles_performBlockAnalysisOn.
Qed.

Lemma settles_ArrayLiteral (block : Ref) :
  settles block
    (analyzeArrayLiteralBody strictMode construct elementsOf rec block).
Proof.
  apply settles_nodeOf. intros og.
  now apply settles_performBlockAnalysisOn.
Qed.

Lemma settles_CodeBlock (block : Ref) :
  settles block (analyzeCodeBlock strictMode rule statementsOf rec block).
Proof.
  apply settles_nodeOf. intros og. apply settles_then.
  apply settles_performBlockAnalysisOn.
  now apply analyzeStatement_allocates.
Qed.

Lemma settles_Case (block : Ref) :
  settles block (analyzeCaseBody strictMode rule statementsOf rec block).
Proof.
  apply settles_nodeOf. intros og. apply settles_then.
  apply settles_performBlockAnalysisOn.
  now apply analyzeStatement_allocates.
Qed.

Lemma settles_Switch (block : Ref) :
  settles block
    (analyzeSwitchBody strictMode construct caseBlock clauses rec block).
Proof.
  apply settles_nodeOf. intros og.
  destruct (read caseBlock og); [|apply settles_raise].
  apply settles_then. now apply settles_performBlockAnalysisOn.
Qed.

Lemma settles_Class (block : Ref) :
  settles block (analyzeClassBody strictMode construct members rec block).
Proof.
  apply settles_nodeOf. intros og.
  destruct (read members og); [|apply settles_flag].
  now apply settles_performBlockAnalysisOn.
Qed.

Lemma settles_Function (block : Ref) :
  settles block
    (analyzeFunctionBody strictMode rule statementsOf body rec block).
Proof.
  apply settles_nodeOf. intros og.
  destruct (read body og) as [b|]; [|apply settles_flag].
  assert (Hpba : settles block
            (performBlockAnalysisOn strictMode block (statementsOf b)
               (analyzeStatement rule rec) false)).
  { apply settles_performBlockAnalysisOn.
    now apply analyzeStatement_allocates. }
  destruct (kind b); try (intros st st1 o a _ H; discriminate H).
  exact Hpba.
Qed.

Lemma settles_Module (fuel : nat) (block : Ref) :
  settles block
    (analyzeModuleBody strictMode rule statementsOf body rec fuel block).
Proof.
  apply settles_nodeOf. intros og.
  destruct (moduleBlock_pure fuel (read body og) []) as [res Hres].
  intros st st1 o a Hb H. unfold bind at 1 in H. rewrite Hres in H.
  destruct res as [b|e|]; [|discriminate H..].
  assert (Hpba : settles block
            (performBlockAnalysisOn strictMode block (statementsOf b)
               (analyzeModuleElement rule rec) false)).
  { apply settles_performBlockAnalysisOn.
    now apply analyzeModuleElement_allocates. }
  destruct (Hpba st st1 o a Hb H) as [Hkeep [a' Hagain]].
  split; [exact Hkeep|]. exists a'. unfold bind at 1. now rewrite Hres.
Qed.

Lemma settles_Lambda (block : Ref) :
  settles block
    (analyzeLambdaBody strictMode rule construct statementsOf body rec block).
Proof.
  apply settles_nodeOf. intros og.
  destruct (read body og) as [b|]; [|apply settles_raise].
  assert (Hblock : settles block
            (performBlockAnalysisOn strictMode block (statementsOf b)
               (analyzeStatement rule rec) false ;;; ret tt)).
  { apply settles_then. apply settles_performBlockAnalysisOn.
    now apply analyzeStatement_allocates. }
  assert (Hsingle : settles block
            (performBlockAnalysisOn strictMode block (Some [b])
               (construct AnalyzeExpression rec) false ;;;
             modify block (with_isSingleExpression true))).
  { intros st st1 o a Hb H. unfold bind at 1 in H.
    destruct (performBlockAnalysisOn strictMode block (Some [b])
                (construct AnalyzeExpression rec) false st)
      as [[r|e|] st0] eqn:E; [|discriminate H..].
    destruct (performBlockAnalysisOn_twice _ _ _ _ _ _ _ _
                (Hconstruct AnalyzeExpression rec) Hb E)
      as (-> & o0 & Hb0 & Hc & Hn & Hcan).
    rewrite (modify_Some _ _ _ _ Hb0) in H. injection H as <- <-.
    pose proof (lookup_insert_same st0 block o0
                  (with_isSingleExpression true o0) Hb0) as Hb1.
    same_object. exists tt.
    rewrite (bind_Ok _ _ _ _ _
               (performBlockAnalysisOn_noop block (Some [b])
                  (construct AnalyzeExpression rec) false _ _ Hb1 Hcan)).
    rewrite (modify_Some _ _ _ _ Hb1).
    now rewrite list_insert_insert_eq. }
  destruct (kind b); first [exact Hblock|exact Hsingle].
Qed.

Lemma settles_VariableDeclaration (block : Ref) :
  settles block
    (analyzeVariableDeclaration strictMode construct declarationList
       declarations rec block).
Proof.
  intros st st1 o a Hb H. unfold analyzeVariableDeclaration in H.
  rewrite (bind_Ok _ _ _ _ _ (get_Some _ _ _ Hb)) in H.
  assert (Hgen : forall elems,
            performBlockAnalysisOn strictMode block elems
              (construct AnalyzeProperty rec) true st = (Ok a, st1) ->
            (exists o1, st1 !! block = Some o1
                        /\ constructor o1 = constructor o
                        /\ node o1 = node o)
            /\ exists a',
                 performBlockAnalysisOn strictMode block elems
                   (construct AnalyzeProperty rec) true st1 = (Ok a', st1)).
  { intros elems. apply settles_performBlockAnalysisOn;
      [now apply Hconstruct|exact Hb]. }
  unfold analyzeVariableDeclaration.
  destruct (node o) as [[n|f]|] eqn:Hn; [| |discriminate H].
  - assert (Hcase : exists elems,
              performBlockAnalysisOn strictMode block elems
                (construct AnalyzeProperty rec) true st = (Ok a, st1)
              /\ forall st0 o0, st0 !! block = Some o0 -> node o0 = node o ->
                   analyzeVariableDeclaration strictMode construct
                     declarationList declarations rec block st0
                   = performBlockAnalysisOn strictMode block elems
                       (construct AnalyzeProperty rec) true st0).
    { destruct (kind n) eqn:Hk;
        try (exists (declarations n); split; [exact H|];
             intros st0 o0 Hb0 Hn0; unfold analyzeVariableDeclaration;
             rewrite (bind_Ok _ _ _ _ _ (get_Some _ _ _ Hb0)), Hn0, Hn, Hk;
             reflexivity).
      destruct (declarationList n) as [dl|] eqn:Hdl; [|discriminate H].
      exists (declarations dl). split; [exact H|].
      intros st0 o0 Hb0 Hn0. unfold analyzeVariableDeclaration.
      rewrite (bind_Ok _ _ _ _ _ (get_Some _ _ _ Hb0)), Hn0, Hn, Hk, Hdl.
      reflexivity. }
    destruct Hcase as (elems & H' & Hsame).
    destruct (Hgen elems H') as [(o1 & Hb1 & Hc & Hn1) [a' Hagain]].
    same_object. exists a'.
    fold (analyzeVariableDeclaration strictMode construct declarationList
            declarations rec block).
    now rewrite (Hsame st1 o1 Hb1 ltac:(congruence)).
  - destruct (Hgen None H) as [(o1 & Hb1 & Hc & Hn1) [a' Hagain]].
    same_object. exists a'.
    rewrite (bind_Ok _ _ _ _ _ (get_Some _ _ _ Hb1)), Hn1.
    exact Hagain.
Qed.

Lemma settles_dispatch (fuel : nat) (block : Ref) (c : Class) :
  settles block
    (if instanceOf c Enumeration
     then analyzeEnumBody strictMode construct members rec block ;;; ret tt
     else if instanceOf c Interface
     then analyzeInterfaceBody strictMode construct members rec block ;;;
          ret tt
     else if instanceOf c Module
     then analyzeModuleBody strictMode rule statementsOf body rec fuel
            block ;;; ret tt
     else if instanceOf c Function
     then analyzeFunctionBody strictMode rule statementsOf body rec block ;;;
          ret tt
     else if instanceOf c Lambda
     then analyzeLambdaBody strictMode rule construct statementsOf body rec
            block
     else if instanceOf c Class_
     then analyzeClassBody strictMode construct members rec block ;;; ret tt
     else if instanceOf c Case
     then analyzeCaseBody strictMode rule statementsOf rec block ;;; ret tt
     else if instanceOf c Switch
     then analyzeSwitchBody strictMode construct caseBlock clauses rec
            block ;;; ret tt
     else if instanceOf c ObjectLiteral
     then analyzeObjectLiteralBody strictMode construct properties rec
            block ;;; ret tt
     else if instanceOf c VariableDeclaration
     then analyzeVariableDeclaration strictMode construct declarationList
            declarations rec block ;;; ret tt
     else if Class_eqb c CodeBlock
     then analyzeCodeBlock strictMode rule statementsOf rec block ;;; ret tt
     else if instanceOf c ArrayLiteral
     then analyzeArrayLiteralBody strictMode construct elementsOf rec
            block ;;; ret tt
     else if instanceOf c TypeLiteral
     then analyzeTypeLiteralBody strictMode construct members rec block ;;;
          ret tt
     else raise (OtherError ("SourceAnalyze cannot analyze block of type "
                             +:+ className c))).
Proof.
  destruct (instanceOf c Enumeration);
    [apply settles_then, settles_Enum|].
  destruct (instanceOf c Interface);
    [apply settles_then, settles_Interface|].
  destruct (instanceOf c Module);
    [apply settles_then, settles_Module|].
  destruct (instanceOf c Function);
    [apply settles_then, settles_Function|].
  destruct (instanceOf c Lambda); [apply settles_Lambda|].
  destruct (instanceOf c Class_);
    [apply settles_then, settles_Class|].
  destruct (instanceOf c Case);
    [apply settles_then, settles_Case|].
  destruct (instanceOf c Switch);
    [apply settles_then, settles_Switch|].
  destruct (instanceOf c ObjectLiteral);
    [apply settles_then, settles_ObjectLiteral|].
  destruct (instanceOf c VariableDeclaration);
    [apply settles_then, settles_VariableDeclaration|].
  destruct (Class_eqb c CodeBlock);
    [apply settles_then, settles_CodeBlock|].
  destruct (instanceOf c ArrayLiteral);
    [apply settles_then, settles_ArrayLiteral|].
  destruct (instanceOf c TypeLiteral);
    [apply settles_then, settles_TypeLiteral|].
  apply settles_raise.
Qed.

(** [analyzeBody] does not analyze a block twice: once a call has
    returned (with the block), a second call on the same block returns
    the block again and leaves the whole store as the first call left it,
    for each of the thirteen kinds of block it takes.  The element
    analyzers are assumed to build new nodes only. *)
Theorem analyzeBody_idempotent (fuel : nat) (block : Ref)
    (st st1 : Store) (r : Ref)
    (Hfirst : analyzeBody strictMode rule construct members statementsOf
                body caseBlock clauses properties elementsOf
                declarationList declarations rec fuel block st
              = (Ok r, st1)) :
  r = block
  /\ analyzeBody strictMode rule construct members statementsOf body
       caseBlock clauses properties elementsOf declarationList
       declarations rec fuel block st1
     = (Ok block, st1).
Proof.
  unfold analyzeBody in Hfirst. unfold bind at 1 in Hfirst. unfold get in Hfirst.
  destruct (st !! block) as [o|] eqn:Hb; [|discriminate Hfirst].
  cbn zeta in Hfirst. unfold bind at 1 in Hfirst.
  pose proof (settles_dispatch fuel block (constructor o)) as Hset.
  match type of Hfirst with
  | match ?m st with _ => _ end = _ =>
    destruct (m st) as [[a|e|] st0] eqn:E; [|discriminate Hfirst..]
  end.
  injection Hfirst as <- <-. split; [reflexivity|].
  destruct (Hset st st0 o a Hb E) as [(o1 & Hb1 & Hc & _) [a' Hagain]].
  unfold analyzeBody.
  rewrite (bind_Ok _ _ _ _ _ (get_Some _ _ _ Hb1)). cbn zeta.
  rewrite Hc. now rewrite (bind_Ok _ _ _ _ _ Hagain).
Qed.

(** [analyzeBody] takes the thirteen kinds of block it names and no
    other: on a [Source], on one of the three abstract block classes, and
    on any node that is not a block, it throws `SourceAnalyze cannot
    analyze block of type` followed by the class name, before anything is
    read from the parse tree and without touching the store.  A root is
    analyzed through [analyze()] only. *)
Theorem analyzeBody_rejects (fuel : nat) (block : Ref) (st : Store)
    (o : Obj)
    (Hblock : st !! block = Some o)
    (Hclass : constructor o ∈ [Source; AbstractBlock;
                               AbstractStatementBlock;
                               AbstractExpressionBlock]
              \/ instanceOf (constructor o) AbstractBlock = false) :
  analyzeBody strictMode rule construct members statementsOf body
    caseBlock clauses properties elementsOf declarationList declarations
    rec fuel block st
  = (Raise (OtherError ("SourceAnalyze cannot analyze block of type "
                        +:+ className (constructor o))), st).
Proof.
  unfold analyzeBody.
  rewrite (bind_Ok _ _ _ _ _ (get_Some _ _ _ Hblock)). cbn zeta.
  destruct (constructor o); try reflexivity; exfalso;
    (destruct Hclass as [Hc|Hc]; [|discriminate Hc]);
    repeat (apply elem_of_cons in Hc as [Hc|Hc]; [discriminate Hc|]);
    now apply elem_of_nil in Hc.
Qed.

End BodiesFacts.

Lemma noConstruct_allocates (k : ElementAnalyzer) (rec : bool) :
  allocates_only (noConstruct k rec).
Proof.
  intros e st res st' [= <- <-]. split; [reflexivity|discriminate].
Qed.

Lemma analyzeBody_idempotent_witness :
  let st1 := snd (analyzeBody true noRule noConstruct noList blockStatements
                    noNode noNode noList noList noList noNode noList true 1
                    0 blockExample) in
  analyzeBody true noRule noConstruct noList blockStatements noNode noNode
    noList noList noList noNode noList true 1 0 st1
  = (Ok 0%nat, st1).
Proof.
  refine (proj2 (analyzeBody_idempotent true noRule noConstruct noList
                   blockStatements noNode noNode noList noList noList
                   noNode noList true noRule_allocates
                   noConstruct_allocates 1 0 blockExample _ 0%nat _)).
  vm_compute. reflexivity.
Defined.

Lemma analyzeBody_rejects_witness :
  analyzeBody true noRule noConstruct noList blockStatements noNode noNode
    noList noList noList noNode noList true 1 0 [new Source]
  = (Raise (OtherError "SourceAnalyze cannot analyze block of type Source"),
     [new Source]).
Proof.
  apply (analyzeBody_rejects true noRule noConstruct noList blockStatements
           noNode noNode noList noList noList noNode noList true 1 0
           [new Source] (new Source) eq_refl).
  left. apply list_elem_of_here.
Defined.

(** ** Rebuilding a statement block from its elements *)

Lemma toString_leaf
    (compositionRule : Class -> (Ref -> M string) -> Ref -> M string)
    (fuel : nat) (st : Store) (r : Ref) (o : Obj) (s : string) :
  st !! r = Some o -> leafRender o = Some s ->
  toString compositionRule (S fuel) r st
  = (Ok s, match text o with
           | Some _ => st
           | None => <[r := with_text (Some s) o]> st
           end).
Proof.
  intros Hr Hleaf. unfold leafRender in Hleaf.
  destruct (text o) as [t|] eqn:Ht.
  - destruct (Class_eqb (constructor o) TypeParameter) eqn:E;
      [discriminate Hleaf|]. injection Hleaf as <-.
    rewrite (toString_unfold _ _ _ _ _ Hr).
    + now apply (CodeNode_toString_cached _ _ _ _ _ o).
    + intros Hc. rewrite Hc in E. discriminate E.
  - destruct (Class_eqb (resolve declaresBuildString (constructor o))
                SimpleNode) eqn:E; [|discriminate Hleaf].
    injection Hleaf as <-. apply Class_eqb_eq in E.
    rewrite (toString_unfold _ _ _ _ _ Hr).
    + apply (CodeNode_toString_unset_Ok _ _ _ _ _ _ o o);
        [exact Hr|exact Ht| |exact Hr].
      unfold buildString.
      rewrite (bind_Ok _ _ _ _ _ (get_Some _ _ _ Hr)), E.
      unfold SimpleNode_buildString.
      now rewrite (bind_Ok _ _ _ _ _ (get_Some _ _ _ Hr)).
    + intros Hc. rewrite Hc in E. discriminate E.
Qed.

Lemma terminal_plain (fuel : nat) (st : Store) (r : Ref) (o : Obj)
    (t : string) :
  st !! r = Some o -> plainTerminal (constructor o) = Some t ->
  statementLevelTerminal (S fuel) r st = (Ok t, st).
Proof.
  intros Hr Hplain. cbn [statementLevelTerminal].
  rewrite (bind_Ok _ _ _ _ _ (get_Some _ _ _ Hr)).
  unfold plainTerminal in Hplain.
  destruct (constructor o); cbn in Hplain; try discriminate Hplain;
    injection Hplain as <-; reflexivity.
Qed.

Lemma leafRender_cached (o : Obj) (s : string) :
  text o = None -> leafRender o = Some s ->
  leafRender (with_text (Some s) o) = Some s.
Proof.
  intros Ht Hleaf. unfold leafRender in *. rewrite Ht in Hleaf.
  cbn [text with_text constructor].
  destruct (constructor o); try reflexivity; discriminate Hleaf.
Qed.

Lemma cached_refl (st : Store) : cached st st.
Proof. split; [reflexivity|]. intros r o H. now left. Qed.

Lemma cached_trans (st st1 st2 : Store) :
  cached st st1 -> cached st1 st2 -> cached st st2.
Proof.
  intros [Hl1 H1] [Hl2 H2]. split; [congruence|].
  intros r o Hr. destruct (H1 r o Hr) as [Hr1|(Ht & s & Hleaf & Hr1)].
  - exact (H2 r o Hr1).
  - right. split; [exact Ht|]. exists s. split; [exact Hleaf|].
    destruct (H2 r _ Hr1) as [Hr2|(Ht2 & _)]; [exact Hr2|].
    discriminate Ht2.
Qed.

Lemma cached_statementText (st st' : Store) (r : Ref) (o : Obj) :
  cached st st' -> st !! r = Some o ->
  exists o', st' !! r = Some o'
             /\ constructor o' = constructor o
             /\ statementText o' = statementText o.
Proof.
  intros [_ H] Hr. destruct (H r o Hr) as [Hr'|(Ht & s & Hleaf & Hr')].
  - exists o. now repeat split.
  - eexists. split; [exact Hr'|]. split; [reflexivity|].
    unfold statementText. cbn [constructor with_text].
    now rewrite (leafRender_cached o s Ht Hleaf), Hleaf.
Qed.

Lemma cached_elementsText (st st' : Store) (es : list Ref) :
  cached st st' -> forall s,
    elementsText st es = Some s -> elementsText st' es = Some s.
Proof.
  intros Hc. induction es as [|r rest IH]; intros s H; [exact H|].
  cbn [elementsText] in *.
  destruct (st !! r) as [o|] eqn:Hr; [|discriminate H].
  destruct (elementsText st rest) as [s'|]; [|discriminate H].
  destruct (cached_statementText st st' r o Hc Hr) as (o' & Hr' & _ & Hst).
  rewrite Hr', (IH s' eq_refl), Hst. exact H.
Qed.

Lemma cached_leaf (st : Store) (r : Ref) (o : Obj) (s : string) :
  st !! r = Some o -> leafRender o = Some s ->
  cached st (match text o with
             | Some _ => st
             | None => <[r := with_text (Some s) o]> st
             end).
Proof.
  intros Hr Hleaf. destruct (text o) eqn:Ht; [apply cached_refl|].
  split; [apply length_insert|]. intros r' o' Hr'.
  destruct (decide (r' = r)) as [->|Hne].
  - right. rewrite Hr in Hr'. injection Hr' as <-.
    split; [exact Ht|]. exists s. split; [exact Hleaf|].
    now apply (lookup_insert_same _ _ o).
  - left. now rewrite list_lookup_insert_ne by congruence.
Qed.

Lemma mapM_statements
    (compositionRule : Class -> (Ref -> M string) -> Ref -> M string)
    (fuel : nat) (es : list Ref) :
  forall (st : Store) (s : string),
    elementsText st es = Some s ->
    exists parts st',
      mapM (fun x => a <- toString compositionRule (S fuel) x ;;
                     b <- statementLevelTerminal (S fuel) x ;;
                     ret (a +:+ b)) es st = (Ok parts, st')
      /\ join parts = s /\ cached st st'.
Proof.
  induction es as [|r rest IH]; intros st s H.
  - injection H as <-. exists [], st. split; [reflexivity|].
    split; [reflexivity|apply cached_refl].
  - cbn [elementsText] in H.
    destruct (st !! r) as [o|] eqn:Hr; [|discriminate H].
    destruct (elementsText st rest) as [s'|] eqn:Hrest; [|discriminate H].
    destruct (statementText o) as [s1|] eqn:Hst; [|discriminate H].
    injection H as <-. unfold statementText in Hst.
    destruct (leafRender o) as [a|] eqn:Hleaf; [|discriminate Hst].
    destruct (plainTerminal (constructor o)) as [b|] eqn:Hplain;
      [|discriminate Hst].
    injection Hst as <-.
    pose proof (toString_leaf compositionRule fuel st r o a Hr Hleaf) as Ha.
    pose proof (cached_leaf st r o a Hr Hleaf) as Hc1.
    set (st1 := match text o with
                | Some _ => st
                | None => <[r := with_text (Some a) o]> st
                end) in *.
    destruct (cached_statementText st st1 r o Hc1 Hr) as (o1 & Hr1 & Hcls & _).
    assert (Hb : statementLevelTerminal (S fuel) r st1 = (Ok b, st1)).
    { apply (terminal_plain fuel st1 r o1); [exact Hr1|]. now rewrite Hcls. }
    destruct (IH st1 s' (cached_elementsText st st1 rest Hc1 s' Hrest))
      as (parts & st' & Hm & Hj & Hc2).
    exists ((a +:+ b) :: parts), st'. split; [|split].
    + apply (mapM_cons_Ok _ _ _ _ _ _ st1); [|exact Hm].
      rewrite (bind_Ok _ _ _ _ _ Ha). now rewrite (bind_Ok _ _ _ _ _ Hb).
    + rewrite join_cons. now rewrite Hj.
    + exact (cached_trans _ _ _ Hc1 Hc2).
Qed.

Lemma statements_buildString
    (compositionRule : Class -> (Ref -> M string) -> Ref -> M string)
    (fuel : nat) (this : Ref) (st : Store) (o : Obj) (s : string) :
  st !! this = Some o ->
  elementsText st (elements o) = Some s ->
  exists st',
    AbstractStatementBlock_buildString (toString compositionRule (S fuel))
      (statementLevelTerminal (S fuel)) this st = (Ok s, st')
    /\ cached st st'.
Proof.
  intros Hthis Hs.
  destruct (mapM_statements compositionRule fuel (elements o) st s Hs)
    as (parts & st' & Hm & Hj & Hc).
  exists st'. split; [|exact Hc].
  unfold AbstractStatementBlock_buildString.
  rewrite (bind_Ok _ _ _ _ _ (get_Some _ _ _ Hthis)).
  rewrite (bind_Ok _ _ _ _ _ Hm). now rewrite Hj.
Qed.

Lemma block_buildString
    (compositionRule : Class -> (Ref -> M string) -> Ref -> M string)
    (fuel : nat) (this : Ref) (st : Store) (o : Obj) (s w : string) :
  st !! this = Some o -> text o = None ->
  elementsText st (elements o) = Some s ->
  wrapStatements (constructor o) s = Some w ->
  exists st1,
    cached st st1
    /\ st1 !! this = Some o
    /\ buildString compositionRule (toString compositionRule (S fuel))
         (statementLevelTerminal (S fuel)) this st
       = (Ok w, st1).
Proof.
  intros Hthis Ht Hs Hw.
  destruct (statements_buildString compositionRule fuel this st o s Hthis Hs)
    as (st1 & Hb & Hc).
  assert (Hthis1 : st1 !! this = Some o).
  { destruct (proj2 Hc this o Hthis) as [H|(_ & x & Hleaf & _)]; [exact H|].
    exfalso. unfold leafRender in Hleaf. rewrite Ht in Hleaf.
    destruct (constructor o); try discriminate Hw; discriminate Hleaf. }
  exists st1. split; [exact Hc|]. split; [exact Hthis1|].
  unfold buildString.
  rewrite (bind_Ok _ _ _ _ _ (get_Some _ _ _ Hthis)).
  destruct (constructor o); try discriminate Hw; injection Hw as <-.
  - exact Hb.
  - change (CodeBlock_buildString (toString compositionRule (S fuel))
              (statementLevelTerminal (S fuel)) this st
            = (Ok ("{" +:+ s +:+ "}"), st1)).
    unfold CodeBlock_buildString. now rewrite (bind_Ok _ _ _ _ _ Hb).
  - change (Source_buildString (toString compositionRule (S fuel))
              (statementLevelTerminal (S fuel)) this st
            = (Ok (withTrailingNewline s), st1)).
    unfold Source_buildString. now rewrite (bind_Ok _ _ _ _ _ Hb).
  - change (CodeBlock_buildString (toString compositionRule (S fuel))
              (statementLevelTerminal (S fuel)) this st
            = (Ok ("{" +:+ s +:+ "}"), st1)).
    unfold CodeBlock_buildString. now rewrite (bind_Ok _ _ _ _ _ Hb).
Qed.

(** A statement block whose cached text is unset is rebuilt from the
    caches of its elements, not from their children: when every element
    has a cached text (or is a simple node, which renders its token) and a
    terminal that depends on its class alone, [toString()] on the block
    returns the concatenation of each element's text and terminal,
    between braces for a [CodeBlock] or [TypeLiteral] and with the
    newline rule for a [Source]; it caches that on the block, caches the
    tokens of the simple nodes, and changes nothing else. *)
Theorem statement_block_rerender
    (compositionRule : Class -> (Ref -> M string) -> Ref -> M string)
    (fuel : nat) (this : Ref) (st : Store) (o : Obj) (s w : string)
    (Hthis : st !! this = Some o) (Htext : text o = None)
    (Helements : elementsText st (elements o) = Some s)
    (Hwrap : wrapStatements (constructor o) s = Some w) :
  exists st1,
    cached st st1
    /\ st1 !! this = Some o
    /\ toString compositionRule (S (S fuel)) this st
       = (Ok w, <[this := with_text (Some w) o]> st1).
Proof.
  destruct (block_buildString compositionRule fuel this st o s w
              Hthis Htext Helements Hwrap)
    as (st1 & Hc & Hthis1 & Hb).
  exists st1. split; [exact Hc|]. split; [exact Hthis1|].
  rewrite (toString_unfold _ _ _ _ _ Hthis)
    by (intros E; rewrite E in Hwrap; discriminate Hwrap).
  now apply (CodeNode_toString_unset_Ok _ _ _ _ _ _ o o).
Qed.

Lemma statement_block_rerender_witness :
  exists st1,
    cached rootExample st1
    /\ st1 !! 0%nat = Some (with_elements [1%nat] (new Source))
    /\ toString noCompositionRule 2 0 rootExample
       = (Ok ("debugger;" +:+ String newline ""),
          <[0%nat := with_text (Some ("debugger;" +:+ String newline ""))
                       (with_elements [1%nat] (new Source))]> st1).
Proof.
  exact (statement_block_rerender noCompositionRule 0 0 rootExample
           (with_elements [1%nat] (new Source)) "debugger;"
           ("debugger;" +:+ String newline "")
           eq_refl eq_refl eq_refl eq_refl).
Defined.

(** ** From analysis to rebuilding *)

Lemma elementsText_app (st : Store) (a b : list Ref) :
  elementsText st (a ++ b)
  = match elementsText st a, elementsText st b with
    | Some x, Some y => Some (x +:+ y)
    | _, _ => None
    end.
Proof.
  induction a as [|r a IH]; cbn [app elementsText].
  - destruct (elementsText st b); [|reflexivity]. now rewrite append_nil_l.
  - destruct (st !! r) as [o|]; [|reflexivity]. rewrite IH.
    destruct (elementsText st a) as [x|]; [|reflexivity].
    destruct (elementsText st b) as [y|];
      [|now destruct (statementText o)].
    destruct (statementText o) as [s|]; [|reflexivity].
    now rewrite append_assoc.
Qed.

Lemma elementsText_frame (st st' : Store) (es : list Ref) :
  (forall r o, r ∈ es -> st !! r = Some o -> st' !! r = Some o) ->
  forall s, elementsText st es = Some s -> elementsText st' es = Some s.
Proof.
  induction es as [|r rest IH]; intros Hframe s H; [exact H|].
  cbn [elementsText] in *.
  destruct (st !! r) as [o|] eqn:Hr; [|discriminate H].
  rewrite (Hframe r o (list_elem_of_here _ _) Hr).
  destruct (elementsText st rest) as [s'|]; [|discriminate H].
  rewrite (IH (fun x o Hx => Hframe x o (list_elem_of_further _ _ _ Hx))
              s' eq_refl).
  exact H.
Qed.

Lemma elementsText_lt (st : Store) (es : list Ref) (s : string) :
  elementsText st es = Some s -> forall r, r ∈ es -> (r < length st)%nat.
Proof.
  revert s. induction es as [|x rest IH]; intros s H r Hr.
  - now apply elem_of_nil in Hr.
  - cbn [elementsText] in H.
    destruct (st !! x) as [o|] eqn:Hx; [|discriminate H].
    destruct (elementsText st rest) as [s'|]; [|discriminate H].
    apply elem_of_cons in Hr as [->|Hr].
    + now apply lookup_lt_Some in Hx.
    + now apply (IH s').
Qed.

(** [addToBlock], with the [Trivia] it makes. *)
Lemma addToBlock_exact (st : Store) (statement block : Ref) (e : TsNode)
    (os ob : Obj) :
  st !! statement = Some os -> st !! block = Some ob ->
  statement <> block ->
  exists st',
    addToBlock statement block e st = (Ok tt, st')
    /\ st' !! statement = Some (with_text (Some (expressionText e)) os)
    /\ st' !! block
       = Some (with_elements (elements ob ++ appended e (length st) statement)
                 ob)
    /\ (forall r o, r <> statement -> r <> block -> st !! r = Some o ->
          st' !! r = Some o)
    /\ ((0 <? String.length (filler e))%nat = true ->
        st' !! length st = Some (with_token (filler e) (new Trivia))).
Proof.
  intros Hs Hb Hne. unfold addToBlock, addSpacingAndGetExpressionText.
  fold (filler e). fold (expressionText e). unfold appended.
  pose proof (lookup_lt_Some _ _ _ Hs) as Hslt.
  pose proof (lookup_lt_Some _ _ _ Hb) as Hblt.
  destruct (0 <? String.length (filler e))%nat.
  - set (tr := with_token (filler e) (new Trivia)).
    set (ob1 := with_elements (elements ob ++ [length st]) ob).
    set (st1 := <[block := ob1]> (st ++ [tr])).
    assert (Hb0 : (st ++ [tr]) !! block = Some ob) by now apply lookup_old.
    assert (Hb1 : st1 !! block = Some ob1)
      by now apply (lookup_insert_same _ _ ob).
    assert (Hs1 : st1 !! statement = Some os).
    { unfold st1. rewrite list_lookup_insert_ne by congruence.
      now apply lookup_old. }
    set (st2 := <[statement := with_text (Some (expressionText e)) os]> st1).
    assert (Hb2 : st2 !! block = Some ob1).
    { unfold st2. now rewrite list_lookup_insert_ne. }
    exists (<[block := with_elements (elements ob1 ++ [statement]) ob1]> st2).
    split; [|split; [|split; [|split]]].
    + unfold bind at 1. unfold bind at 1. unfold bind at 1.
      rewrite alloc_eq. rewrite (push_Some _ _ _ _ Hb0). fold ob1 st1.
      unfold bind, ret. rewrite (setText_Some _ _ _ _ Hs1). fold st2.
      now rewrite (push_Some _ _ _ _ Hb2).
    + rewrite list_lookup_insert_ne by congruence.
      unfold st2. now apply (lookup_insert_same _ _ os).
    + rewrite (lookup_insert_same _ _ ob1) by exact Hb2.
      unfold ob1. cbn. now rewrite <- app_assoc.
    + intros r o Hr1 Hr2 Hr.
      rewrite list_lookup_insert_ne by congruence. unfold st2.
      rewrite list_lookup_insert_ne by congruence. unfold st1.
      rewrite list_lookup_insert_ne by congruence. now apply lookup_old.
    + intros _.
      rewrite list_lookup_insert_ne by lia. unfold st2.
      rewrite list_lookup_insert_ne by lia. unfold st1.
      rewrite list_lookup_insert_ne by lia. apply lookup_new.
  - set (st2 := <[statement := with_text (Some (expressionText e)) os]> st).
    assert (Hb2 : st2 !! block = Some ob).
    { unfold st2. now rewrite list_lookup_insert_ne. }
    exists (<[block := with_elements (elements ob ++ [statement]) ob]> st2).
    split; [|split; [|split; [|split]]].
    + unfold bind at 1. unfold bind at 1. unfold ret at 1.
      unfold bind, ret. rewrite (setText_Some _ _ _ _ Hs). fold st2.
      now rewrite (push_Some _ _ _ _ Hb2).
    + rewrite list_lookup_insert_ne by congruence.
      unfold st2. now apply (lookup_insert_same _ _ os).
    + now rewrite (lookup_insert_same _ _ ob) by exact Hb2.
    + intros r o Hr1 Hr2 Hr.
      rewrite list_lookup_insert_ne by congruence. unfold st2.
      now rewrite list_lookup_insert_ne by congruence.
    + discriminate.
Qed.

(** Both dispatchers build a simple statement the same way. *)
Lemma dispatch_simple (rule : bool -> TsNode -> M Ref) (rec : bool)
    (dispatcher : TsNode -> M Ref) (e : TsNode) (st : Store) :
  dispatcher = analyzeModuleElement rule rec
  \/ dispatcher = analyzeStatement rule rec ->
  simpleStatement e ->
  exists o0,
    dispatcher e st
    = (Ok (length st),
       st ++ [with_text (Some (getText e))
                (with_node (Some (OfNode e)) o0)])
    /\ text o0 = None
    /\ (constructor o0 = Keyword \/ constructor o0 = EmptyExpression).
Proof.
  intros Hd Hk.
  assert (H : exists o0,
            analyzeStatement rule rec e st
            = (Ok (length st),
               st ++ [with_text (Some (getText e))
                        (with_node (Some (OfNode e)) o0)])
            /\ text o0 = None
            /\ (constructor o0 = Keyword \/ constructor o0 = EmptyExpression)).
  { destruct Hk as [Hk|Hk]; unfold analyzeStatement; rewrite Hk;
      rewrite simple_statement_eq; eexists;
      (split; [reflexivity|]); split; try reflexivity; [now left|now right]. }
  destruct Hd as [-> | ->]; [|exact H].
  unfold analyzeModuleElement. destruct Hk as [Hk|Hk]; now rewrite Hk.
Qed.

Lemma elementsText_same (st st' : Store) (es : list Ref) :
  (forall r o, r ∈ es -> st !! r = Some o ->
     exists o', st' !! r = Some o' /\ statementText o' = statementText o) ->
  forall s, elementsText st es = Some s -> elementsText st' es = Some s.
Proof.
  induction es as [|r rest IH]; intros Hframe s H; [exact H|].
  cbn [elementsText] in *.
  destruct (st !! r) as [o|] eqn:Hr; [|discriminate H].
  destruct (Hframe r o (list_elem_of_here _ _) Hr) as (o' & -> & ->).
  destruct (elementsText st rest) as [s'|]; [|discriminate H].
  rewrite (IH (fun x o Hx => Hframe x o (list_elem_of_further _ _ _ Hx))
              s' eq_refl).
  exact H.
Qed.

Lemma length_zero_empty (s : string) :
  (0 <? String.length s)%nat = false -> s = "".
Proof. destruct s; [reflexivity|discriminate]. Qed.

Lemma analyzeElement_simple (strictMode : bool)
    (rule : bool -> TsNode -> M Ref) (rec : bool)
    (dispatcher : TsNode -> M Ref) (block : Ref) (e : TsNode) (st : Store)
    (ob : Obj) (acc : string) :
  dispatcher = analyzeModuleElement rule rec
  \/ dispatcher = analyzeStatement rule rec ->
  simpleStatement e ->
  st !! block = Some ob ->
  elementsText st (elements ob) = Some acc ->
  exists st' es r o,
    analyzeElement strictMode block dispatcher e st = (Ok tt, st')
    /\ st' !! block = Some (with_elements (elements ob ++ es) ob)
    /\ elementsText st' (elements ob ++ es)
       = Some (acc +:+ statementSource e)
    /\ last es = Some r /\ (forall x, x ∈ es -> x <> block)
    /\ st' !! r = Some o /\ node o = Some (OfNode e)
    /\ (forall r' o', r' <> block -> st !! r' = Some o' ->
          st' !! r' = Some o').
Proof.
  intros Hd Hk Hb Hacc.
  pose proof (lookup_lt_Some _ _ _ Hb) as Hblt.
  destruct (dispatch_simple rule rec dispatcher e st Hd Hk)
    as (o0 & Hnode & Ht0 & Hc0).
  set (os := with_text (Some (getText e)) (with_node (Some (OfNode e)) o0))
    in *.
  destruct (addToBlock_exact (st ++ [os]) (length st) block e os ob
              (lookup_new _ _) (lookup_old _ _ _ _ Hb) ltac:(lia))
    as (st' & Heq & Hs' & Hb' & Hothers & Htrivia).
  exists st', (appended e (length (st ++ [os])) (length st)), (length st),
         (with_text (Some (expressionText e)) os).
  split; [|split; [exact Hb'|split; [|split; [|split; [|split; [|split]]]]]].
  - unfold analyzeElement, bind, try_catch. rewrite Hnode. exact Heq.
  - rewrite elementsText_app.
    rewrite (elementsText_same st st' (elements ob)) with (s := acc);
      [| |exact Hacc].
    2:{ intros r o Hr Hro. destruct (decide (r = block)) as [->|Hne].
        - rewrite Hb in Hro. injection Hro as <-.
          eexists. split; [exact Hb'|reflexivity].
        - exists o. split; [|reflexivity].
          apply Hothers; [|exact Hne|now apply lookup_old].
          apply lookup_lt_Some in Hro. lia. }
    assert (Hstmt : statementText (with_text (Some (expressionText e)) os)
                    = Some (expressionText e +:+ ";")).
    { unfold statementText, leafRender, plainTerminal, os.
      cbn [text with_text constructor with_node].
      destruct Hc0 as [-> | ->]; reflexivity. }
    unfold appended, statementSource.
    destruct (0 <? String.length (filler e))%nat eqn:Hf.
    + cbn [elementsText]. rewrite (Htrivia eq_refl), Hs', Hstmt.
      change (statementText (with_token (filler e) (new Trivia)))
        with (Some (filler e +:+ "")).
      now rewrite !append_nil_r.
    + cbn [elementsText]. rewrite Hs', Hstmt.
      rewrite (length_zero_empty _ Hf), append_nil_r.
      now rewrite append_nil_l.
  - exact (appended_last e _ _ []).
  - intros x Hx. unfold appended in Hx. rewrite length_app in Hx.
    cbn [length] in Hx.
    destruct (0 <? String.length (filler e))%nat;
      repeat (apply elem_of_cons in Hx as [->|Hx]; [lia|]);
      now apply elem_of_nil in Hx.
  - exact Hs'.
  - reflexivity.
  - intros r' o' Hr Hro. apply Hothers; [|exact Hr|now apply lookup_old].
    apply lookup_lt_Some in Hro. lia.
Qed.

Lemma forEach_simple (strictMode : bool) (rule : bool -> TsNode -> M Ref)
    (rec : bool) (dispatcher : TsNode -> M Ref) (block : Ref)
    (elems : list TsNode) :
  dispatcher = analyzeModuleElement rule rec
  \/ dispatcher = analyzeStatement rule rec ->
  Forall simpleStatement elems ->
  forall (st : Store) (ob : Obj) (acc : string),
    st !! block = Some ob ->
    elementsText st (elements ob) = Some acc ->
    exists st' es,
      forEach (analyzeElement strictMode block dispatcher) elems st
      = (Ok tt, st')
      /\ st' !! block = Some (with_elements (elements ob ++ es) ob)
      /\ elementsText st' (elements ob ++ es)
         = Some (acc +:+ join (map statementSource elems))
      /\ (forall e, last elems = Some e ->
          exists r o, last es = Some r
                      /\ st' !! r = Some o /\ node o = Some (OfNode e))
      /\ (forall x, x ∈ es -> x <> block)
      /\ (elems = [] -> es = [])
      /\ (forall r' o', r' <> block -> st !! r' = Some o' ->
            st' !! r' = Some o').
Proof.
  intros Hd Hall. induction Hall as [|e rest He Hrest IH];
    intros st ob acc Hb Hacc.
  - exists st, []. split; [reflexivity|]. rewrite app_nil_r.
    split; [now rewrite with_elements_same|].
    split; [cbn; now rewrite append_nil_r|].
    split; [discriminate|].
    split; [intros x Hx; now apply elem_of_nil in Hx|].
    split; [reflexivity|auto].
  - destruct (analyzeElement_simple strictMode rule rec dispatcher block e
                st ob acc Hd He Hb Hacc)
      as (st1 & es1 & r1 & o1 & H1 & Hb1 & Hacc1 & Hl1 & Hne1 & Hr1 & Hn1
          & Hframe1).
    destruct (IH st1 _ _ Hb1 Hacc1)
      as (st' & es2 & H2 & Hb2 & Hacc2 & Hlast2 & Hne2 & Hnil2 & Hframe2).
    cbn [elements with_elements] in Hb2, Hacc2.
    exists st', (es1 ++ es2). cbn [forEach].
    rewrite (bind_Ok _ _ _ _ _ H1). split; [exact H2|].
    rewrite app_assoc. split; [exact Hb2|]. split.
    { rewrite Hacc2. cbn [map]. rewrite join_cons.
      now rewrite append_assoc. }
    split; [|split; [|split; [discriminate|]]].
    + intros e' He'. destruct rest as [|e2 rest'].
      * injection He' as <-. rewrite (Hnil2 eq_refl), app_nil_r.
        exists r1, o1. split; [exact Hl1|].
        split; [|exact Hn1]. apply Hframe2; [|exact Hr1].
        apply Hne1. apply last_Some_elem_of. exact Hl1.
      * destruct (Hlast2 e' He') as (r & o & Hl & Hr & Hn).
        exists r, o. split; [|now split].
        apply last_app_Some. now left.
    + intros x Hx. apply elem_of_app in Hx as [Hx|Hx]; auto.
    + intros r' o' Hr Hro. apply Hframe2; [exact Hr|]. now apply Hframe1.
Qed.

Lemma addTrailingBlockSpacing_root (block : Ref) (st : Store) (ob : Obj)
    (sf : SourceFile) (acc : string) :
  st !! block = Some ob ->
  constructor ob = Source -> node ob = Some (OfFile sf) ->
  elementsText st (elements ob) = Some acc ->
  (forall e, last (statements sf) = Some e ->
     exists r o, last (elements ob) = Some r
                 /\ st !! r = Some o /\ node o = Some (OfNode e)) ->
  (statements sf = [] -> elements ob = []) ->
  exists st' es,
    addTrailingBlockSpacing block (node ob) st = (Ok tt, st')
    /\ st' !! block = Some (with_elements (elements ob ++ es) ob)
    /\ elementsText st' (elements ob ++ es) = Some (acc +:+ trailingOf sf)
    /\ (forall x, x ∈ es -> x <> block)
    /\ (forall r' o', r' <> block -> st !! r' = Some o' ->
          st' !! r' = Some o').
Proof.
  intros Hb Hc Hn Hacc Hlast Hnil.
  pose proof (lookup_lt_Some _ _ _ Hb) as Hblt.
  assert (Hdone : trailingOf sf = "" ->
            exists st' es,
              ret tt st = (Ok tt, st')
              /\ st' !! block = Some (with_elements (elements ob ++ es) ob)
              /\ elementsText st' (elements ob ++ es)
                 = Some (acc +:+ trailingOf sf)
              /\ (forall x, x ∈ es -> x <> block)
              /\ (forall r' o', r' <> block -> st !! r' = Some o' ->
                    st' !! r' = Some o')).
  { intros ->. exists st, []. split; [reflexivity|]. rewrite app_nil_r.
    split; [now rewrite with_elements_same|].
    split; [now rewrite append_nil_r|].
    split; [intros x Hx; now apply elem_of_nil in Hx|auto]. }
  unfold addTrailingBlockSpacing.
  rewrite (bind_Ok _ _ _ _ _ (get_Some _ _ _ Hb)).
  unfold lastTokenOf. rewrite Hc, Hn.
  change (instanceOf Source Source) with true. cbn iota.
  unfold bind at 1. unfold ret at 1. unfold trailingOf in *.
  destruct (endOfFileToken sf) as [lastToken|]; [|now apply Hdone].
  assert (Hsame : isNodeOfLastElement lastToken ob st
                  = (Ok match last (statements sf) with
                        | Some e => (tok_id lastToken =? ts_id e)%nat
                        | None => false
                        end, st)).
  { unfold isNodeOfLastElement.
    destruct (last (statements sf)) as [e|] eqn:Hl.
    - destruct (Hlast e eq_refl) as (r & o & -> & Hr & Hno).
      rewrite (bind_Ok _ _ _ _ _ (get_Some _ _ _ Hr)), Hno. reflexivity.
    - apply last_None in Hl. now rewrite (Hnil Hl). }
  rewrite (bind_Ok _ _ _ _ _ Hsame).
  destruct (match last (statements sf) with
            | Some e => (tok_id lastToken =? ts_id e)%nat
            | None => false
            end); [now apply Hdone|].
  set (trailing := substr0 (tok_getFullText lastToken)
                     (tok_getLeadingTriviaWidth lastToken)) in *.
  destruct (0 <? String.length trailing)%nat eqn:Hlen;
    [|apply Hdone; now apply length_zero_empty].
  rewrite (bind_Ok _ _ _ _ _ (alloc_eq _ _)).
  rewrite (push_Some _ _ _ _ (lookup_old _ _ _ _ Hb)).
  eexists _, [length st]. split; [reflexivity|].
  assert (Hb' : <[block := with_elements (elements ob ++ [length st]) ob]>
                  (st ++ [with_token trailing (new Trivia)]) !! block
                = Some (with_elements (elements ob ++ [length st]) ob)).
  { apply (lookup_insert_same _ _ ob). now apply lookup_old. }
  split; [exact Hb'|]. split; [|split].
  - rewrite elementsText_app.
    rewrite (elementsText_same st _ (elements ob)) with (s := acc);
      [| |exact Hacc].
    2:{ intros r o Hr Hro. destruct (decide (r = block)) as [->|Hne].
        - rewrite Hb in Hro. injection Hro as <-.
          eexists. split; [exact Hb'|reflexivity].
        - exists o. split; [|reflexivity].
          rewrite list_lookup_insert_ne by congruence.
          now apply lookup_old. }
    cbn [elementsText]. rewrite list_lookup_insert_ne by lia.
    rewrite lookup_new.
    change (statementText (with_token trailing (new Trivia)))
      with (Some (trailing +:+ "")).
    now rewrite !append_nil_r.
  - intros x Hx. apply list_elem_of_singleton in Hx as ->. lia.
  - intros r' o' Hr Hro. rewrite list_lookup_insert_ne by congruence.
    now apply lookup_old.
Qed.

(** Analysis, then [markDirty()], then [toString()]: a root whose
    statements are all [debugger] or empty statements is rebuilt as its
    statements in order, each as its leading trivia, its text without a
    trailing semicolon, and one semicolon, followed by the trailing trivia
    of the file and by a newline when that text does not end with one.
    So the rebuilt text puts a semicolon after every statement, also where
    the source had none, and keeps the trivia as they were. *)
Theorem rebuilt_root_text (strictMode : bool)
    (rule : bool -> TsNode -> M Ref)
    (compositionRule : Class -> (Ref -> M string) -> Ref -> M string)
    (src : Ref) (sf : SourceFile) (rec : bool) (st : Store) (o : Obj)
    (fuel fuel' : nat)
    (Hsrc : st !! src = Some o) (Hclass : constructor o = Source)
    (Hcan : canAnalyzeBody o = true)
    (Hsimple : Forall simpleStatement (statements sf)) :
  exists st1 st2,
    SourceAnalyzer_analyze strictMode rule (mkSourceAnalyzer src sf rec) st
    = (Ok src, st1)
    /\ markDirty fuel' false src st1 = (Ok src, st2)
    /\ fst (toString compositionRule (S (S fuel)) src st2)
       = Ok (withTrailingNewline
               (join (map statementSource (statements sf))
                +:+ trailingOf sf)).
Proof.
  rename Hsrc into Hs, Hclass into Hc.
  pose proof (proj1 (canAnalyzeBody_spec o) Hcan) as [_ Hempty].
  set (o2 := with_text (Some (sf_getFullText sf))
               (with_node (Some (OfFile sf)) o)).
  set (stA := <[src := o2]> st).
  assert (HsA : stA !! src = Some o2) by now apply (lookup_insert_same _ _ o).
  destruct (forEach_simple strictMode rule rec
              (analyzeModuleElement rule rec) src (statements sf)
              (or_introl eq_refl) Hsimple stA o2 "")
    as (stB & es & HB & HsB & HaccB & HlastB & HneB & HnilB & _);
    [exact HsA|unfold o2; cbn; now rewrite Hempty|].
  assert (He2 : elements o2 = []) by exact Hempty.
  rewrite He2 in HsB, HaccB. cbn [app] in HsB, HaccB.
  rewrite append_nil_l in HaccB.
  set (obB := with_elements es o2) in *.
  destruct (addTrailingBlockSpacing_root src stB obB sf _ HsB Hc eq_refl
              HaccB)
    as (stC & es2 & HC & HsC & HaccC & HneC & _).
  { intros e He. destruct (HlastB e He) as (r & ob & Hl & Hr & Hn). eauto. }
  { intros Hnil. exact (HnilB Hnil). }
  cbn [elements obB with_elements] in HsC, HaccC.
  set (obC := with_elements (es ++ es2) obB) in *.
  set (obD := with_bodyHasBeenAnalyzed true obC).
  set (stD := <[src := obD]> stC).
  assert (HsD : stD !! src = Some obD)
    by now apply (lookup_insert_same _ _ obC).
  set (obE := with_text None obD).
  set (stE := <[src := obE]> stD).
  assert (HsE : stE !! src = Some obE)
    by now apply (lookup_insert_same _ _ obD).
  assert (HaccE : elementsText stE (elements obE)
                  = Some (join (map statementSource (statements sf))
                          +:+ trailingOf sf)).
  { apply (elementsText_frame stC); [|exact HaccC].
    intros r ox Hr Hro.
    assert (r <> src).
    { apply elem_of_app in Hr as [Hr|Hr]; auto. }
    unfold stE, stD. now rewrite !list_lookup_insert_ne by congruence. }
  exists stD, stE. split; [|split].
  - unfold SourceAnalyzer_analyze. cbn [source sourceFile recursive].
    rewrite (bind_Ok _ _ _ _ _ (registerWithNode_Some _ _ _ _ Hs)).
    rewrite (bind_Ok _ _ _ _ _
               (setText_Some _ _ _ _ (lookup_insert_same _ _ _ _ Hs))).
    rewrite list_insert_insert_eq. fold o2 stA.
    unfold performBlockAnalysis.
    rewrite (bind_Ok _ _ _ _ _ (get_Some _ _ _ HsA)).
    change (canAnalyzeBody o2) with (canAnalyzeBody o). rewrite Hcan.
    cbn [negb]. rewrite (bind_Ok _ _ _ _ _ HB).
    unfold bind at 1. rewrite (bind_Ok _ _ _ _ _ (get_Some _ _ _ HsB)).
    rewrite HC.
    now rewrite (bind_Ok _ _ _ _ _ (modify_Some _ _ _ _ HsC)).
  - rewrite markDirty_false, (markDirty_default_eq stD src obD HsD).
    unfold obD, obC, obB, o2. cbn [constructor with_bodyHasBeenAnalyzed
      with_elements with_text with_node]. now rewrite Hc.
  - assert (Hw : wrapStatements (constructor obE)
                   (join (map statementSource (statements sf))
                    +:+ trailingOf sf)
                 = Some (withTrailingNewline
                           (join (map statementSource (statements sf))
                            +:+ trailingOf sf))).
    { unfold obE, obD, obC, obB, o2.
      cbn [constructor with_bodyHasBeenAnalyzed with_elements with_text
           with_node]. now rewrite Hc. }
    destruct (block_buildString compositionRule fuel src stE obE _ _
                HsE eq_refl HaccE Hw)
      as (st3 & _ & Hs3 & Hb).
    rewrite (toString_unfold _ _ _ _ _ HsE)
      by (intros E; rewrite E in Hw; discriminate Hw).
    now rewrite (CodeNode_toString_unset_Ok _ _ _ _ _ _ obE obE _
                   HsE eq_refl Hb Hs3).
Qed.

Lemma rebuilt_root_text_witness :
  exists st1 st2,
    SourceAnalyzer_analyze true noRule
      (mkSourceAnalyzer 0 fileTwoStatements true) [new Source]
    = (Ok 0%nat, st1)
    /\ markDirty 0 false 0 st1 = (Ok 0%nat, st2)
    /\ fst (toString noCompositionRule 2 0 st2)
       = Ok (withTrailingNewline
               (join (map statementSource (statements fileTwoStatements))
                +:+ trailingOf fileTwoStatements)).
Proof.
  apply (rebuilt_root_text true noRule noCompositionRule 0 fileTwoStatements
           true [new Source] (new Source) 0 0 eq_refl eq_refl eq_refl).
  repeat constructor.
Defined.

(** The file [debugger], newline, [debugger], newline comes back with a
    semicolon after each statement. *)
Example rebuilt_root_example :
  withTrailingNewline
    (join (map statementSource (statements fileTwoStatements))
     +:+ trailingOf fileTwoStatements)
  = "debugger;" +:+ String newline "debugger;" +:+ String newline "".
Proof. reflexivity. Qed.
